(** * COVID-19 Global Data Tracker: the cleaning, snapshot and insight pipeline

    A shallow embedding of [data_tracker.py].  The script is a pandas
    notebook; the embedding keeps its data as pandas has it:

    - a metric column is a float64 column in which NaN marks a missing value;
      values are IEEE binary64 numbers, taken from the Standard Library's
      executable specification [SpecFloat] (precision 53, emax 1024);
    - a data frame is a list of rows carrying their index label, together
      with the list of metric columns the frame has;
    - [date] is the day number of an already parsed calendar date
      ([pd.to_datetime], line 78); [pd.Timedelta(days=30)] is 30;
    - pandas operations ([groupby], [ffill], [idxmax], [loc], [mean],
      [dropna], [fillna], [np.where]) follow their documented behaviour;
      the group mean adds its values the way pandas does, by compensated
      summation;
    - the metric columns are taken to be float64 columns, as they are in the
      OWID file, every date to be a valid one and every location a text.

    Plotting and console formatting are not modelled.  [run] is the script
    from line 91 on; [script] puts the lines of section 2 that can raise in
    front of it. *)

From Stdlib Require Import ZArith List Bool String Ascii Lia Sorted.
From Stdlib Require Import Floats.SpecFloat.
Import ListNotations.

Local Open Scope Z_scope.

(** ** float64 *)

Module F64.

Definition prec : Z := 53.
Definition emax : Z := 1024.

Definition float := spec_float.

Definition nan : float := S754_nan.
Definition zero : float := S754_zero false.

(** The float64 nearest to an integer (Python's [float(z)]). *)
Definition of_Z (z : Z) : float := binary_normalize prec emax z 0 false.

Definition add : float -> float -> float := SFadd prec emax.
Definition sub : float -> float -> float := SFsub prec emax.
Definition mul : float -> float -> float := SFmul prec emax.
Definition div : float -> float -> float := SFdiv prec emax.
Definition ltb : float -> float -> bool := SFltb.

(** [pd.isna] on a float. *)
Definition isna (x : float) : bool :=
  match x with S754_nan => true | _ => false end.

Definition notna (x : float) : bool := negb (isna x).

(** [Series.fillna(d)], one cell. *)
Definition fillna (d x : float) : float := if isna x then d else x.

Definition is_inf (x : float) : bool :=
  match x with S754_infinity _ => true | _ => false end.

(** [x < 0]. *)
Definition is_negative (x : float) : bool := ltb x zero.

End F64.

Import F64.

(** ** Data frames *)

(** The metric columns of the input boundary. *)
Inductive metric :=
| total_cases
| new_cases
| total_deaths
| new_deaths
| people_vaccinated
| people_fully_vaccinated
| population
| total_deaths_per_million.

Definition metric_eqb (a b : metric) : bool :=
  match a, b with
  | total_cases, total_cases
  | new_cases, new_cases
  | total_deaths, total_deaths
  | new_deaths, new_deaths
  | people_vaccinated, people_vaccinated
  | people_fully_vaccinated, people_fully_vaccinated
  | population, population
  | total_deaths_per_million, total_deaths_per_million => true
  | _, _ => false
  end.

(** One line of the CSV file. A cell of a column the file does not have is
    never read. *)
Record record := mkRecord {
  location : string;
  date : Z;
  c_total_cases : float;
  c_new_cases : float;
  c_total_deaths : float;
  c_new_deaths : float;
  c_people_vaccinated : float;
  c_people_fully_vaccinated : float;
  c_population : float;
  c_total_deaths_per_million : float
}.

(** [row[m]] *)
Definition get (m : metric) (r : record) : float :=
  match m with
  | total_cases => c_total_cases r
  | new_cases => c_new_cases r
  | total_deaths => c_total_deaths r
  | new_deaths => c_new_deaths r
  | people_vaccinated => c_people_vaccinated r
  | people_fully_vaccinated => c_people_fully_vaccinated r
  | population => c_population r
  | total_deaths_per_million => c_total_deaths_per_million r
  end.

(** [row[m] = v] *)
Definition set (m : metric) (v : float) (r : record) : record :=
  match m with
  | total_cases =>
      mkRecord (location r) (date r) v (c_new_cases r) (c_total_deaths r)
        (c_new_deaths r) (c_people_vaccinated r) (c_people_fully_vaccinated r)
        (c_population r) (c_total_deaths_per_million r)
  | new_cases =>
      mkRecord (location r) (date r) (c_total_cases r) v (c_total_deaths r)
        (c_new_deaths r) (c_people_vaccinated r) (c_people_fully_vaccinated r)
        (c_population r) (c_total_deaths_per_million r)
  | total_deaths =>
      mkRecord (location r) (date r) (c_total_cases r) (c_new_cases r) v
        (c_new_deaths r) (c_people_vaccinated r) (c_people_fully_vaccinated r)
        (c_population r) (c_total_deaths_per_million r)
  | new_deaths =>
      mkRecord (location r) (date r) (c_total_cases r) (c_new_cases r)
        (c_total_deaths r) v (c_people_vaccinated r)
        (c_people_fully_vaccinated r) (c_population r)
        (c_total_deaths_per_million r)
  | people_vaccinated =>
      mkRecord (location r) (date r) (c_total_cases r) (c_new_cases r)
        (c_total_deaths r) (c_new_deaths r) v (c_people_fully_vaccinated r)
        (c_population r) (c_total_deaths_per_million r)
  | people_fully_vaccinated =>
      mkRecord (location r) (date r) (c_total_cases r) (c_new_cases r)
        (c_total_deaths r) (c_new_deaths r) (c_people_vaccinated r) v
        (c_population r) (c_total_deaths_per_million r)
  | population =>
      mkRecord (location r) (date r) (c_total_cases r) (c_new_cases r)
        (c_total_deaths r) (c_new_deaths r) (c_people_vaccinated r)
        (c_people_fully_vaccinated r) v (c_total_deaths_per_million r)
  | total_deaths_per_million =>
      mkRecord (location r) (date r) (c_total_cases r) (c_new_cases r)
        (c_total_deaths r) (c_new_deaths r) (c_people_vaccinated r)
        (c_people_fully_vaccinated r) (c_population r) v
  end.

(** A row of a frame: its index label and its cells. *)
Record row := mkRow { label : nat; data : record }.

Definition rloc (r : row) : string := location (data r).
Definition rdate (r : row) : Z := date (data r).
Definition rget (m : metric) (r : row) : float := get m (data r).
Definition rset (m : metric) (v : float) (r : row) : row :=
  mkRow (label r) (set m v (data r)).

(** [m in df.columns] *)
Definition has (m : metric) (columns : list metric) : bool :=
  existsb (metric_eqb m) columns.

(** [pd.read_csv]: the rows get the labels 0, 1, 2, ... (a RangeIndex). *)
Fixpoint range_index (start : nat) (rs : list record) : list row :=
  match rs with
  | [] => []
  | r :: rs' => mkRow start r :: range_index (S start) rs'
  end.

Definition read_csv (rs : list record) : list row := range_index 0 rs.

(** ** 3. Data cleaning *)

Definition countries_of_interest : list string :=
  ["United States"; "India"; "Brazil"; "Kenya"; "United Kingdom"; "Germany"]%string.

(** [Series.isin] *)
Definition isin (s : string) (l : list string) : bool :=
  existsb (String.eqb s) l.

(** Line 92: [df[df['location'].isin(countries_of_interest)]]. *)
Definition select_countries (df : list row) : list row :=
  filter (fun r => isin (rloc r) countries_of_interest) df.

(** *** groupby('location') *)

(** The group keys, sorted and without duplicates ([sort=True]). *)
Fixpoint insert_key (k : string) (ks : list string) : list string :=
  match ks with
  | [] => [k]
  | k' :: ks' =>
      match String.compare k k' with
      | Lt => k :: ks
      | Eq => ks
      | Gt => k' :: insert_key k ks'
      end
  end.

Definition group_keys (rows : list row) : list string :=
  fold_right (fun r acc => insert_key (rloc r) acc) [] rows.

(** The rows of one group, in frame order. *)
Definition group_of (k : string) (rows : list row) : list row :=
  filter (fun r => String.eqb (rloc r) k) rows.

Definition groupby (rows : list row) : list (string * list row) :=
  map (fun k => (k, group_of k rows)) (group_keys rows).

(** *** Forward fill *)

(** [Series.ffill]: a missing value takes the last valid value before it. *)
Fixpoint ffill_from (last : float) (xs : list float) : list float :=
  match xs with
  | [] => []
  | x :: xs' =>
      let v := if isna x then last else x in
      v :: ffill_from v xs'
  end.

Definition ffill (xs : list float) : list float := ffill_from nan xs.

(** A Series: values with their index labels. *)
Definition series (L : Type) := list (L * float).

(** [groupby('location')[m].transform(lambda x: x.ffill())]: the filled
    values of every group, each under the label of its row. *)
Definition transform_ffill (m : metric) (rows : list row) : series nat :=
  flat_map
    (fun g => combine (map label (snd g)) (ffill (map (rget m) (snd g))))
    (groupby rows).

(** The value of a Series at a label; a label the Series lacks reads NaN
    (index alignment of a column assignment). *)
Definition series_at (s : series nat) (l : nat) : float :=
  match find (fun p => Nat.eqb (fst p) l) s with
  | Some p => snd p
  | None => nan
  end.

(** [df[m] = s] *)
Definition assign (m : metric) (s : series nat) (rows : list row) : list row :=
  map (fun r => rset m (series_at s (label r)) r) rows.

Definition key_metrics : list metric :=
  [total_cases; new_cases; total_deaths; new_deaths;
   people_vaccinated; people_fully_vaccinated].

(** Lines 105-106, one turn of the loop. *)
Definition fill_metric (columns : list metric) (rows : list row) (m : metric)
  : list row :=
  if has m columns then assign m (transform_ffill m rows) rows else rows.

(** Lines 104-106. *)
Definition fill_missing (columns : list metric) (rows : list row) : list row :=
  fold_left (fill_metric columns) key_metrics rows.

(** ** Exceptions of pandas calls *)

(** A pandas call that can raise returns [None] where it raises. *)
Fixpoint traverse {A B : Type} (f : A -> option B) (l : list A)
  : option (list B) :=
  match l with
  | [] => Some []
  | a :: l' =>
      match f a, traverse f l' with
      | Some b, Some bs => Some (b :: bs)
      | _, _ => None
      end
  end.

(** *** The latest snapshot *)

(** [idxmax] of the date column of one group: the label of the first row
    that holds the greatest date. An empty group has none. *)
Fixpoint idxmax_date_from (best : row) (rows : list row) : nat :=
  match rows with
  | [] => label best
  | r :: rows' =>
      if rdate best <? rdate r then idxmax_date_from r rows'
      else idxmax_date_from best rows'
  end.

Definition idxmax_date (rows : list row) : option nat :=
  match rows with
  | [] => None
  | r :: rows' => Some (idxmax_date_from r rows')
  end.

(** [df.loc[l]]: the row labelled [l]; KeyError when there is none. *)
Definition loc1 (rows : list row) (l : nat) : option row :=
  find (fun r => Nat.eqb (label r) l) rows.

(** [df.loc[labels]] *)
Definition loc (rows : list row) (labels : list nat) : option (list row) :=
  traverse (loc1 rows) labels.

(** Lines 112-127. The frame always has its [date] column (line 78 made
    it), so the guard of line 113 asks only for a row.  The [except] branch
    leaves the snapshot empty. *)
Definition latest_df (df_countries : list row) : list row :=
  match df_countries with
  | [] => []
  | _ :: _ =>
      match traverse (fun g => idxmax_date (snd g)) (groupby df_countries) with
      | Some labels =>
          match loc df_countries labels with
          | Some snapshot => snapshot
          | None => []
          end
      | None => []
      end
  end.

(** ** 6. Key insights *)

Definition hundred : float := of_Z 100.

(** Lines 270-275 and 286-291, one row:
    [np.where(den.fillna(0) > 0, (num.fillna(0) / den) * 100, 0)]
    followed by [fillna(0)]. *)
Definition safe_rate (num den : float) : float :=
  fillna zero
    (if ltb zero (fillna zero den)
     then mul (div (fillna zero num) den) hundred
     else zero).

(** [_LATEST_DF]: the snapshot rows, the column section 5 adds and the two
    columns section 6 adds. *)
Record latest := mkLatest {
  snap : list row;
  vax_percentage : option (series nat);
  death_rate : option (series nat);
  vax_rate : option (series nat)
}.

Definition rate_column (num den : metric) (rows : list row) : series nat :=
  map (fun r => (label r, safe_rate (rget num r) (rget den r))) rows.

(** Lines 196-212: what sections 4 and 5 do to the data.  The snapshot gets
    a [vax_percentage] column, computed as [vax_rate] is later; the charts
    around it are not modelled. *)
Definition vaccination_analysis (columns : list metric) (s : latest) : latest :=
  if has people_vaccinated columns then
    match snap s with
    | _ :: _ =>
        if has population columns && has people_vaccinated columns
        then mkLatest (snap s)
               (Some (rate_column people_vaccinated population (snap s)))
               (death_rate s) (vax_rate s)
        else s
    | [] => s
    end
  else s.

(** [Series.idxmax]: the label of the first occurrence of the greatest
    non-missing value; raises when every value is missing. *)
Fixpoint idxmax_from {L : Type} (best : L * float) (s : series L) : L :=
  match s with
  | [] => fst best
  | p :: s' =>
      if isna (snd p) then idxmax_from best s'
      else if ltb (snd best) (snd p) then idxmax_from p s'
      else idxmax_from best s'
  end.

Fixpoint idxmax {L : Type} (s : series L) : option L :=
  match s with
  | [] => None
  | p :: s' => if isna (snd p) then idxmax s' else Some (idxmax_from p s')
  end.

(** [Series.max]: the greatest non-missing value, NaN when there is none. *)
Definition series_max {L : Type} (s : series L) : float :=
  fold_left
    (fun acc p =>
       if isna (snd p) then acc
       else if isna acc then snd p
       else if ltb acc (snd p) then snd p else acc)
    s nan.

(** [Series.notna().any()] *)
Definition any_notna {L : Type} (s : series L) : bool :=
  existsb (fun p => notna (snd p)) s.

(** [Series.dropna] *)
Definition dropna {L : Type} (s : series L) : series L :=
  filter (fun p => notna (snd p)) s.

(** A column of the snapshot as a Series over its index. *)
Definition column (m : metric) (rows : list row) : series nat :=
  map (fun r => (label r, rget m r)) rows.

(** The cell of a Series at a label; KeyError when the label is absent. *)
Definition cell (s : series nat) (l : nat) : option float :=
  option_map snd (find (fun p => Nat.eqb (fst p) l) s).

(** The group mean of pandas ([group_mean] of [_libs/groupby.pyx]), which
    line 306 calls: the valid values are added by Kahan's compensated
    summation, one step per value in row order, *)
Definition kahan_step (acc : float * float) (val : float) : float * float :=
  let '(sumx, compensation) := acc in
  let y := sub val compensation in
  let t := add sumx y in
  let c := sub (sub t sumx) y in
  (* a compensation that is not a number (infinite values) starts again at 0 *)
  (t, if isna c then zero else c).

Definition kahan_sum (xs : list float) : float :=
  fst (fold_left kahan_step xs (zero, zero)).

(** and the sum is divided by the number of valid values; NaN when there is
    none. *)
Definition mean (xs : list float) : float :=
  match filter notna xs with
  | [] => nan
  | y :: ys =>
      div (kahan_sum (y :: ys)) (of_Z (Z.of_nat (List.length (y :: ys))))
  end.

(** [groupby('location')[m].mean()] *)
Definition group_mean (m : metric) (rows : list row) : series string :=
  map (fun g => (fst g, mean (map (rget m) (snd g)))) (groupby rows).

(** [df['date'].max()]; NaT ([None]) on an empty frame. *)
Definition max_date (rows : list row) : option Z :=
  match rows with
  | [] => None
  | r :: rows' => Some (fold_left Z.max (map rdate rows') (rdate r))
  end.

(** Line 304. *)
Definition last_month_df (df_countries : list row) (md : Z) : list row :=
  filter (fun r => md - 30 <=? rdate r) df_countries.

(** Line 306. *)
Definition avg_new_cases (df_countries : list row) (md : Z) : series string :=
  dropna (group_mean new_cases (last_month_df df_countries md)).

(** The five queries and what the section prints for each. *)
Inductive query :=
| HighestTotalCases
| HighestDeathRate
| HighestVaccinationRate
| HighestAvgNewCases
| HighestDeathsPerMillion.

Inductive diagnostic :=
| MissingOrAllNaN      (* lines 266, 325 *)
| AllNaN               (* lines 280, 296 *)
| ColumnsMissing       (* lines 282, 298, 318 *)
| NoValidMean          (* line 312 *)
| NoDataInWindow       (* line 314 *)
| MaxDateNotAvailable. (* line 316 *)

Inductive outcome :=
| Insight (q : query) (where_ : string) (value : float)
| Skipped (q : query) (why : diagnostic)
| NoInsights (* line 327 *)
| ErrorGeneratingInsights. (* line 331 *)

(** *** The section as a computation

    Section 6 prints, updates [_LATEST_DF] and may raise; one [try] wraps
    it all.  A computation takes the frame and returns the new frame, what
    was printed, and its result, [None] when it raised. *)
Definition M (A : Type) : Type := latest -> latest * list outcome * option A.

Definition ret {A : Type} (a : A) : M A := fun s => (s, [], Some a).

Definition bind {A B : Type} (c : M A) (f : A -> M B) : M B :=
  fun s =>
    let '(s1, out1, r) := c s in
    match r with
    | None => (s1, out1, None)
    | Some a => let '(s2, out2, r2) := f a s1 in (s2, out1 ++ out2, r2)
    end.

Notation "x <- c ;; k" := (bind c (fun x => k))
  (at level 61, c at next level, right associativity).
Notation "c ;; k" := (bind c (fun _ => k))
  (at level 61, right associativity).

Definition print (o : outcome) : M unit := fun s => (s, [o], Some tt).
Definition read : M latest := fun s => (s, [], Some s).
Definition write (s' : latest) : M unit := fun _ => (s', [], Some tt).

(** The value of a pandas call, or its exception. *)
Definition call {A : Type} (o : option A) : M A := fun s => (s, [], o).

(** [try: ... except Exception: print(...)] *)
Definition try_except (body : M unit) (handler : outcome) : M unit :=
  fun s =>
    let '(s1, out, r) := body s in
    match r with
    | Some _ => (s1, out, Some tt)
    | None => (s1, out ++ [handler], Some tt)
    end.

(** Lines 262-266 and 321-325: the argmax of a raw snapshot column. *)
Definition raw_query (q : query) (m : metric) (columns : list metric) : M unit :=
  s <- read ;;
  if has m columns && any_notna (column m (snap s)) then
    l <- call (idxmax (column m (snap s))) ;;
    top <- call (loc1 (snap s) l) ;;
    print (Insight q (rloc top) (rget m top))
  else print (Skipped q MissingOrAllNaN).

(** Lines 269-282. *)
Definition death_rate_query (columns : list metric) : M unit :=
  s <- read ;;
  if has total_deaths columns && has total_cases columns then
    let col := rate_column total_deaths total_cases (snap s) in
    write (mkLatest (snap s) (vax_percentage s) (Some col) (vax_rate s)) ;;
    if any_notna col then
      l <- call (idxmax col) ;;
      top <- call (loc1 (snap s) l) ;;
      v <- call (cell col l) ;;
      print (Insight HighestDeathRate (rloc top) v)
    else print (Skipped HighestDeathRate AllNaN)
  else print (Skipped HighestDeathRate ColumnsMissing).

(** Lines 285-298. *)
Definition vax_rate_query (columns : list metric) : M unit :=
  s <- read ;;
  if has people_vaccinated columns && has population columns then
    let col := rate_column people_vaccinated population (snap s) in
    write (mkLatest (snap s) (vax_percentage s) (death_rate s) (Some col)) ;;
    if any_notna col then
      l <- call (idxmax col) ;;
      top <- call (loc1 (snap s) l) ;;
      v <- call (cell col l) ;;
      print (Insight HighestVaccinationRate (rloc top) v)
    else print (Skipped HighestVaccinationRate AllNaN)
  else print (Skipped HighestVaccinationRate ColumnsMissing).

(** Lines 301-318; of the guard of line 301 only [new_cases] can fail. *)
Definition avg_new_cases_query (columns : list metric) (df_countries : list row)
  : M unit :=
  if has new_cases columns then
    match max_date df_countries with
    | Some md =>
        match last_month_df df_countries md with
        | _ :: _ =>
            let avg := avg_new_cases df_countries md in
            match avg with
            | _ :: _ =>
                top <- call (idxmax avg) ;;
                print (Insight HighestAvgNewCases top (series_max avg))
            | [] => print (Skipped HighestAvgNewCases NoValidMean)
            end
        | [] => print (Skipped HighestAvgNewCases NoDataInWindow)
        end
    | None => print (Skipped HighestAvgNewCases MaxDateNotAvailable)
    end
  else print (Skipped HighestAvgNewCases ColumnsMissing).

(** Lines 259-331. *)
Definition key_insights (columns : list metric) (df_countries : list row)
  : M unit :=
  try_except
    (s <- read ;;
     match snap s with
     | _ :: _ =>
         raw_query HighestTotalCases total_cases columns ;;
         death_rate_query columns ;;
         vax_rate_query columns ;;
         avg_new_cases_query columns df_countries ;;
         raw_query HighestDeathsPerMillion total_deaths_per_million columns
     | [] => print NoInsights
     end)
    ErrorGeneratingInsights.

(** ** The pipeline: sections 3, 5 and 6 on a loaded file *)

Record analysis := mkAnalysis {
  df_countries : list row;  (* the filled per-country frame *)
  LATEST_DF : latest;       (* the snapshot after section 6 *)
  printed : list outcome    (* what section 6 printed *)
}.

Definition initial_latest (dfc : list row) : latest :=
  mkLatest (latest_df dfc) None None None.

(** Lines 91-331: sections 3 to 6 on the dataset read at line 53. *)
Definition run (columns : list metric) (file : list record) : analysis :=
  let dfc := fill_missing columns (select_countries (read_csv file)) in
  let s5 := vaccination_analysis columns (initial_latest dfc) in
  let '(s, out, _) := key_insights columns dfc s5 in
  mkAnalysis dfc s out.

(** ** The script from its first line

    Section 2 explores the raw dataset before line 91, and three of its
    statements stand outside any [try]; what they raise ends the script. *)

Inductive exception :=
| NothingToDescribe                (* line 68: ValueError *)
| KeyError (absent : list metric)  (* line 75 *)
| NaTHasNoStrftime.                (* lines 80, 81 and 345: ValueError *)

Inductive result (A : Type) :=
| Returned (a : A)
| Raised (e : exception).

Arguments Returned {A} a.
Arguments Raised {A} e.

Definition and_then {A B : Type} (x : result A) (k : A -> result B)
  : result B :=
  match x with
  | Returned a => k a
  | Raised e => Raised e
  end.

(** Line 67.  A dataset without rows has no numeric column: pandas reads
    every column of such a file as an object column.  Otherwise the numeric
    columns are the metric columns; location and date are text. *)
Definition numeric_cols (columns : list metric) (df : list row)
  : list metric :=
  match df with
  | [] => []
  | _ :: _ => columns
  end.

(** Line 68: [describe] refuses a frame without columns. *)
Definition describe (cols : list metric) : result unit :=
  match cols with
  | [] => Raised NothingToDescribe
  | _ :: _ => Returned tt
  end.

(** Lines 73-74. *)
Definition key_cols : list metric :=
  [total_cases; new_cases; total_deaths; new_deaths;
   people_vaccinated; people_fully_vaccinated].

(** Line 75: [missing_values[key_cols]] raises KeyError when a label of the
    list is not a column. *)
Definition getitem (columns wanted : list metric) : result unit :=
  match filter (fun m => negb (has m columns)) wanted with
  | [] => Returned tt
  | m :: ms => Raised (KeyError (m :: ms))
  end.

(** [df['date'].min()]; NaT ([None]) on an empty frame. *)
Definition min_date (rows : list row) : option Z :=
  match rows with
  | [] => None
  | r :: rows' => Some (fold_left Z.min (map rdate rows') (rdate r))
  end.

(** [strftime] of a Timestamp; NaT has none. *)
Definition strftime (d : option Z) : result unit :=
  match d with
  | None => Raised NaTHasNoStrftime
  | Some _ => Returned tt
  end.

(** Lines 80-81, and line 345 again. *)
Definition date_range (df : list row) : result unit :=
  and_then (strftime (min_date df)) (fun _ => strftime (max_date df)).

Definition script (columns : list metric) (file : list record)
  : result analysis :=
  let df := read_csv file in
  and_then (describe (numeric_cols columns df)) (fun _ =>   (* line 68 *)
  and_then (getitem columns key_cols) (fun _ =>             (* line 75 *)
  and_then (date_range df) (fun _ =>                        (* lines 80-81 *)
  let a := run columns file in                              (* lines 91-331 *)
  and_then (date_range df) (fun _ =>                        (* line 345 *)
  Returned a)))).

(** ** The rest of the script's data handling *)

(** [Series.unique]: the values in order of first appearance. *)
Fixpoint unique_from (seen : list string) (l : list string) : list string :=
  match l with
  | [] => []
  | x :: l' =>
      if isin x seen then unique_from seen l'
      else x :: unique_from (x :: seen) l'
  end.

Definition unique (l : list string) : list string := unique_from [] l.

(** Line 95. *)
Definition found_countries (df_countries : list row) : list string :=
  unique (map rloc df_countries).

(** Line 98: [set(countries_of_interest) - set(found_countries)].  A Python
    set has no order of its own; the list keeps that of the configuration. *)
Definition missing_countries (df_countries : list row) : list string :=
  filter (fun c => negb (isin c (found_countries df_countries)))
         countries_of_interest.

(** Line 71: [df.isnull().sum()], one column. *)
Definition isnull_sum (m : metric) (rows : list row) : nat :=
  List.length (filter isna (map (rget m) rows)).

(** Lines 157-158, one row:
    [np.where(total_cases > 0, total_deaths / total_cases * 100, 0)]. *)
Definition eda_death_rate (r : row) : float :=
  if ltb zero (rget total_cases r)
  then mul (div (rget total_deaths r) (rget total_cases r)) hundred
  else zero.

(** Python's [min(a, b)] and [max(a, b)]: the first argument unless the
    second is strictly smaller (greater). *)
Definition py_min (a b : float) : float := if ltb b a then b else a.
Definition py_max (a b : float) : float := if ltb a b then b else a.

Definition fsub : float -> float -> float := SFsub prec emax.
Definition fleb : float -> float -> bool := SFleb.

(** What lines 221-246 do for the pie chart. *)
Inductive pie :=
| PieChart (vaccinated unvaccinated : float) (* lines 233-240 *)
| InconsistentData                           (* line 242 *)
| InsufficientData                           (* line 244 *)
| NoLatestData.                              (* line 246 *)

Definition country_for_pie : string := "United States".

Definition pie_chart (snapshot : list row) : pie :=
  match filter (fun r => String.eqb (rloc r) country_for_pie) snapshot with
  | [] => NoLatestData
  | us :: _ =>
      let population_val := rget population us in
      let people_vaccinated_val := rget people_vaccinated us in
      if notna population_val && notna people_vaccinated_val
         && ltb zero population_val
      then
        let vaccinated_count := py_min people_vaccinated_val population_val in
        let vaccinated_count := py_max zero vaccinated_count in
        let unvaccinated_count := fsub population_val vaccinated_count in
        if fleb zero unvaccinated_count
        then PieChart vaccinated_count unvaccinated_count
        else InconsistentData
      else InsufficientData
  end.

(** Lines 196-248: the pie chart is reached under the guards of lines 196
    and 206. *)
Definition vaccination_pie (columns : list metric) (s : latest) : option pie :=
  if has people_vaccinated columns then
    match snap s with
    | _ :: _ =>
        if has population columns && has people_vaccinated columns
        then Some (pie_chart (snap s))
        else None
    | [] => None
    end
  else None.

(** ** Definitions used to state the properties *)

(** The order of non-missing floats as [SFcompare] decides it: by sign
    class, then exponent, then mantissa. *)
Definition order_key (x : float) : Z * Z * Z :=
  match x with
  | S754_infinity true => (-2, 0, 0)
  | S754_finite true m e => (-1, - e, - Zpos m)
  | S754_zero _ => (0, 0, 0)
  | S754_nan => (0, 0, 0)
  | S754_finite false m e => (1, e, Zpos m)
  | S754_infinity false => (2, 0, 0)
  end.

Definition lex_lt (a b : Z * Z * Z) : Prop :=
  let '(a1, a2, a3) := a in
  let '(b1, b2, b3) := b in
  a1 < b1 \/ (a1 = b1 /\ (a2 < b2 \/ (a2 = b2 /\ a3 < b3))).

(** [x == 0.0] *)
Definition is_zero (x : float) : bool := SFeqb x zero.

(** [(l, v)] is the first entry of [s] that holds its greatest non-missing
    value: the entries before it are missing or smaller, none is greater. *)
Definition first_max {L : Type} (s : series L) (l : L) (v : float) : Prop :=
  exists s1 s2,
    s = s1 ++ (l, v) :: s2 /\
    isna v = false /\
    (forall p, In p s1 -> isna (snd p) = true \/ ltb (snd p) v = true) /\
    (forall p, In p s2 -> isna (snd p) = true \/ ltb v (snd p) = false).

(** The last valid value of [xs], [a] when there is none. *)
Definition last_valid (xs : list float) (a : float) : float :=
  fold_left (fun acc x => if isna x then acc else x) xs a.

(** The rows of every location come in strictly ascending date order
    (the input assumption of the data model: a Series is ordered by date
    and its dates are unique). *)
Fixpoint dates_ascending (file : list record) : bool :=
  match file with
  | [] => true
  | r :: rest =>
      forallb
        (fun r' =>
           negb (String.eqb (location r) (location r')) || (date r <? date r'))
        rest
      && dates_ascending rest
  end.

Definition earlier (a b : row) : Prop := rloc a = rloc b -> rdate a < rdate b.

(** [v] is the value of metric [m] in the most recent record of [r]'s
    location, at a date not after [r]'s, that has one; or is missing when
    there is no such record. *)
Definition most_recent_valid (m : metric) (raw : list row) (r : row)
           (v : float) : Prop :=
  (exists src,
      In src raw /\ rloc src = rloc r /\ rdate src <= rdate r /\
      isna (rget m src) = false /\
      (forall o, In o raw -> rloc o = rloc r -> rdate o <= rdate r ->
                 isna (rget m o) = false -> rdate o <= rdate src) /\
      v = rget m src)
  \/
  ((forall o, In o raw -> rloc o = rloc r -> rdate o <= rdate r ->
              isna (rget m o) = true) /\
   isna v = true).

(** [r] is the first row of [g] that holds the greatest date of [g]. *)
Definition first_latest (g : list row) (r : row) : Prop :=
  exists g1 g2,
    g = g1 ++ r :: g2 /\
    (forall o, In o g1 -> rdate o < rdate r) /\
    (forall o, In o g2 -> rdate o <= rdate r).

(** A field of the snapshot as a Series over the locations, in the order
    the snapshot lists them. *)
Definition by_location (g : row -> float) (rows : list row) : series string :=
  map (fun r => (rloc r, g r)) rows.

Definition rate_of (num den : metric) (r : row) : float :=
  safe_rate (rget num r) (rget den r).

(** What each kind of query prints. *)
Definition raw_outcome (q : query) (m : metric) (columns : list metric)
           (snapshot : list row) (o : outcome) : Prop :=
  if has m columns && any_notna (column m snapshot)
  then exists k v,
      o = Insight q k v /\ first_max (by_location (rget m) snapshot) k v
  else o = Skipped q MissingOrAllNaN.

Definition rate_outcome (q : query) (num den : metric) (columns : list metric)
           (snapshot : list row) (o : outcome) : Prop :=
  if has num columns && has den columns
  then match snapshot with
       | [] => o = Skipped q AllNaN
       | _ :: _ =>
           exists k v,
           o = Insight q k v /\
           first_max (by_location (rate_of num den) snapshot) k v
       end
  else o = Skipped q ColumnsMissing.

Definition avg_outcome (columns : list metric) (dfc : list row) (o : outcome)
  : Prop :=
  if has new_cases columns
  then match max_date dfc with
       | None => o = Skipped HighestAvgNewCases MaxDateNotAvailable
       | Some md =>
           match last_month_df dfc md with
           | [] => o = Skipped HighestAvgNewCases NoDataInWindow
           | _ :: _ =>
               match avg_new_cases dfc md with
               | [] => o = Skipped HighestAvgNewCases NoValidMean
               | _ :: _ =>
                   exists k v,
                   o = Insight HighestAvgNewCases k v /\
                   first_max (avg_new_cases dfc md) k v
               end
           end
       end
  else o = Skipped HighestAvgNewCases ColumnsMissing.

(** The frame section 6 leaves: the snapshot rows with the rate columns it
    could compute. *)
Definition with_rates (columns : list metric) (s : latest) : latest :=
  mkLatest (snap s) (vax_percentage s)
    (if has total_deaths columns && has total_cases columns
     then Some (rate_column total_deaths total_cases (snap s))
     else death_rate s)
    (if has people_vaccinated columns && has population columns
     then Some (rate_column people_vaccinated population (snap s))
     else vax_rate s).

(** The safe-division policy for a rate [v] derived from [num] and [den]:
    0 on a missing, zero or negative denominator; never missing; not
    negative unless the numerator is. *)
Definition rate_policy (num den v : float) : Prop :=
  (isna den = true \/ is_zero den = true \/ is_negative den = true ->
   v = zero) /\
  isna v = false /\
  (is_negative num = false -> is_negative v = false).

(** A rate column against the snapshot it was derived from. *)
Definition rates_follow_policy (num den : metric) (snapshot : list row)
           (col : series nat) : Prop :=
  Forall2
    (fun r p => fst p = label r /\ rate_policy (rget num r) (rget den r) (snd p))
    snapshot col.

(** A float that is missing, a zero, or has its sign bit clear. *)
Definition sign_clear (x : float) : Prop :=
  match x with
  | S754_nan => True
  | S754_zero _ => True
  | S754_infinity s => s = false
  | S754_finite s _ _ => s = false
  end.

Definition all_columns : list metric :=
  [total_cases; new_cases; total_deaths; new_deaths; people_vaccinated;
   people_fully_vaccinated; population; total_deaths_per_million].

(** A record with the cells the examples use; the others are missing. *)
Definition sample (where_ : string) (day : Z) (cases deaths new_ : float)
  : record :=
  mkRecord where_ day cases new_ deaths nan nan nan (of_Z 1000) nan.

(** One record whose death count is negative, one whose quotient overflows. *)
Definition negative_deaths : list record :=
  [sample "Kenya" 1 (of_Z 1) (of_Z (-1)) nan].

Definition huge_deaths : list record :=
  [sample "Kenya" 1 (of_Z 1) (of_Z (2 ^ 1023)) nan].

(** The example of the data model: Kenya reports 100, nothing, 300. *)
Definition kenya_gap : list record :=
  [sample "Kenya" 1 (of_Z 100) (of_Z 1) (of_Z 10);
   sample "India" 1 (of_Z 5) nan nan;
   sample "France" 1 (of_Z 7) nan nan;
   sample "Kenya" 2 nan nan (of_Z 20);
   sample "India" 2 nan nan (of_Z 3);
   sample "Kenya" 3 (of_Z 300) (of_Z 30) nan].

(** Two records of one location on the same day. *)
Definition same_day : list record :=
  [sample "Kenya" 5 (of_Z 100) nan nan;
   sample "Kenya" 5 (of_Z 200) nan nan].

(** The rows of location [k] inside the window that ends at [md]. *)
Definition window_rows (dfc : list row) (md : Z) (k : string) : list row :=
  filter
    (fun r => String.eqb (rloc r) k && (md - 30 <=? rdate r) && (rdate r <=? md))
    dfc.

(** The claim that the most recent row is the last one holding the greatest
    date: no row of the same location and date comes after the chosen one. *)
Definition last_occurrence_wins (dfc snapshot : list row) : Prop :=
  forall r o,
    In r snapshot -> In o dfc -> rloc o = rloc r -> rdate o = rdate r ->
    (label o <= label r)%nat.

(** The filled per-country frame of a file (lines 92-106). *)
Definition cleaned (columns : list metric) (file : list record) : list row :=
  fill_missing columns (select_countries (read_csv file)).

(** The field each query ranks, as the list of its entries: [None] when the
    frame lacks a column the field needs.  The rates are the 0-substituted
    rates; the windowed field has one entry per location present in the
    window. *)
Definition entries (q : query) (columns : list metric) (dfc snapshot : list row)
  : option (list float) :=
  match q with
  | HighestTotalCases =>
      if has total_cases columns
      then Some (map (rget total_cases) snapshot) else None
  | HighestDeathRate =>
      if has total_deaths columns && has total_cases columns
      then Some (map (rate_of total_deaths total_cases) snapshot) else None
  | HighestVaccinationRate =>
      if has people_vaccinated columns && has population columns
      then Some (map (rate_of people_vaccinated population) snapshot) else None
  | HighestAvgNewCases =>
      if has new_cases columns
      then Some (match max_date dfc with
                 | Some md =>
                     map snd (group_mean new_cases (last_month_df dfc md))
                 | None => []
                 end)
      else None
  | HighestDeathsPerMillion =>
      if has total_deaths_per_million columns
      then Some (map (rget total_deaths_per_million) snapshot) else None
  end.

(** The field is absent, or missing in every entry. *)
Definition unavailable (q : query) (columns : list metric)
           (dfc snapshot : list row) : Prop :=
  match entries q columns dfc snapshot with
  | None => True
  | Some vs => Forall (fun v => isna v = true) vs
  end.

(** Section 6 printed a diagnostic for the query, or for all at once. *)
Definition skipped (q : query) (out : list outcome) : Prop :=
  In NoInsights out \/ exists why, In (Skipped q why) out.

Definition answered (q : query) (out : list outcome) : Prop :=
  exists k v, In (Insight q k v) out.

(** The Series a query takes its argmax of, over the locations in
    iteration order. *)
Definition ranked (q : query) (dfc snapshot : list row) : series string :=
  match q with
  | HighestTotalCases => by_location (rget total_cases) snapshot
  | HighestDeathRate => by_location (rate_of total_deaths total_cases) snapshot
  | HighestVaccinationRate =>
      by_location (rate_of people_vaccinated population) snapshot
  | HighestAvgNewCases =>
      match max_date dfc with
      | Some md => avg_new_cases dfc md
      | None => []
      end
  | HighestDeathsPerMillion =>
      by_location (rget total_deaths_per_million) snapshot
  end.


(** India's latest total_cases is missing all along. *)
Definition india_missing : list record :=
  [sample "India" 1 nan nan nan;
   sample "Kenya" 1 (of_Z 100) nan nan].

(** The line section 6 prints for a query, among its five lines. *)
Definition line (q : query) (o1 o2 o3 o4 o5 : outcome) : outcome :=
  match q with
  | HighestTotalCases => o1
  | HighestDeathRate => o2
  | HighestVaccinationRate => o3
  | HighestAvgNewCases => o4
  | HighestDeathsPerMillion => o5
  end.

Definition about (q : query) (o : outcome) : Prop :=
  (exists why, o = Skipped q why) \/ (exists k v, o = Insight q k v).

(** What C10 says of a query [q] that ranks the raw snapshot column [m]. *)
Definition missing_never_wins (q : query) (m : metric) (columns : list metric)
           (a : analysis) : Prop :=
  let snapshot := snap (LATEST_DF a) in
  (answered q (printed a) <->
   has m columns = true /\
   exists r, In r snapshot /\ isna (rget m r) = false) /\
  (forall r, In r snapshot -> isna (rget m r) = true ->
             forall v, ~ In (Insight q (rloc r) v) (printed a)) /\
  (forall k v, In (Insight q k v) (printed a) ->
               exists r, In r snapshot /\ rloc r = k /\ rget m r = v /\
                         isna v = false).

(** The two fates of a query: skipped because its field is unavailable, or
    answered once, with the first greatest entry of its field. *)
Definition fate (q : query) (out : list outcome) (U : Prop)
           (s : series string) : Prop :=
  (skipped q out /\ ~ answered q out /\ U)
  \/
  (exists k v,
      In (Insight q k v) out /\
      (forall k' v', In (Insight q k' v') out -> k' = k /\ v' = v) /\
      ~ skipped q out /\ ~ U /\ first_max s k v).

(** The frame section 6 starts from. *)
Definition before_insights (columns : list metric) (dfc : list row) : latest :=
  vaccination_analysis columns (initial_latest dfc).

Definition key_lt (a b : string) : Prop := String.compare a b = Lt.

Definition ascending (rows : list row) : Prop := StronglySorted earlier rows.

(** One group after the fill, as a Series over the labels of its rows. *)
Definition filled_group (m : metric) (g : string * list row) : series nat :=
  combine (map label (snd g)) (ffill (map (rget m) (snd g))).

Definition the_group (rows : list row) (k : string) : string * list row :=
  (k, group_of k rows).

(** Kenya's day 2 stands before its day 1 in the file. *)
Definition unsorted : list record :=
  [sample "Kenya" 2 (of_Z 200) nan nan;
   sample "Kenya" 1 nan nan nan].

(** Integers that float64 holds exactly. *)
Definition exact_int (z : Z) : bool := Z.abs z <? 2 ^ 53.

(** Every term of [zs] and every running total, from [s] on, is one. *)
Fixpoint sums_exact (s : Z) (zs : list Z) : bool :=
  match zs with
  | [] => true
  | z :: zs' => exact_int z && exact_int (s + z) && sums_exact (s + z) zs'
  end.

Definition total (zs : list Z) : Z := fold_left Z.add zs 0.

(** A mantissa with [k] zero bits appended, its width in bits, and the
    float64 of a positive integer below 2^53: the mantissa filled up to 53
    bits. *)
Definition shift (n : positive) (k : Z) : positive :=
  match k with
  | Zpos p => Pos.iter xO n p
  | _ => n
  end.

Definition width (n : positive) : Z := Zpos (digits2_pos n).

Definition canon (s : bool) (n : positive) : float :=
  S754_finite s (shift n (53 - width n)) (width n - 53).

(** The float64 values of 0.1, 0.2 and 0.3. *)
Definition one_tenth : float := S754_finite false 7205759403792794 (-56).
Definition two_tenths : float := S754_finite false 7205759403792794 (-55).
Definition three_tenths : float := S754_finite false 5404319552844595 (-54).

(** A file with every column but new_cases, and a file with rows of no
    configured location only. *)
Definition without_new_cases : list metric :=
  [total_cases; total_deaths; new_deaths; people_vaccinated;
   people_fully_vaccinated; population; total_deaths_per_million].

Definition france_only : list record :=
  [sample "France" 1 (of_Z 7) nan nan].

(** The claim of causality by date, for one metric of one file. *)
Definition filled_by_date (columns : list metric) (file : list record)
           (m : metric) : Prop :=
  Forall2
    (fun r r' =>
       label r' = label r /\ rloc r' = rloc r /\ rdate r' = rdate r /\
       most_recent_valid m (select_countries (read_csv file)) r (rget m r'))
    (select_countries (read_csv file)) (df_countries (run columns file)).

(** The per-country frame before the fill (line 92). *)
Definition selected (file : list record) : list row :=
  select_countries (read_csv file).

(** A row of the cleaned frame against the record of the file it comes
    from. *)
Definition same_record (rec : record) (r : row) : Prop :=
  location rec = rloc r /\ date rec = rdate r /\
  get population rec = rget population r /\
  get total_deaths_per_million rec = rget total_deaths_per_million r.

(** * Properties *)

(** ** The order of float64 values *)

Lemma ltb_order_key (x y : float) :
  isna x = false -> isna y = false ->
  (ltb x y = true <-> lex_lt (order_key x) (order_key y)).
Proof.
  intros Hx Hy.
  destruct x as [sx|sx| |sx mx ex], y as [sy|sy| |sy my ey];
    try discriminate; try destruct sx; try destruct sy;
    unfold ltb, SFltb, SFcompare, lex_lt, order_key;
    try (split; [discriminate | lia]);
    try (split; [reflexivity | lia]);
    try (split; [intros _; lia | reflexivity]).
  - rewrite Pos.compare_cont_spec. simpl.
    destruct (Z.compare_spec ex ey); destruct (Pos.compare_spec mx my);
      simpl; split; try discriminate; try reflexivity; try lia.
  - rewrite Pos.compare_cont_spec. simpl.
    destruct (Z.compare_spec ex ey); destruct (Pos.compare_spec mx my);
      simpl; split; try discriminate; try reflexivity; try lia.
Qed.

Lemma lex_lt_asym (a b : Z * Z * Z) : lex_lt a b -> lex_lt b a -> False.
Proof. destruct a as [[? ?] ?], b as [[? ?] ?]; simpl; lia. Qed.

Lemma lex_le_lt_trans (a b c : Z * Z * Z) :
  ~ lex_lt b a -> lex_lt b c -> lex_lt a c.
Proof.
  destruct a as [[? ?] ?], b as [[? ?] ?], c as [[? ?] ?]; simpl; lia.
Qed.

Lemma ltb_irrefl (x : float) : ltb x x = false.
Proof.
  destruct (isna x) eqn:Hx.
  - destruct x; try discriminate; reflexivity.
  - destruct (ltb x x) eqn:H; [|reflexivity].
    apply ltb_order_key in H; auto.
    exfalso; eapply lex_lt_asym; eauto.
Qed.

Lemma ltb_asym (x y : float) : ltb x y = true -> ltb y x = false.
Proof.
  intros H.
  assert (Hx : isna x = false) by (destruct x; auto; discriminate).
  assert (Hy : isna y = false)
    by (destruct y; auto; destruct x; try destruct s; discriminate).
  destruct (ltb y x) eqn:H'; [|reflexivity].
  apply ltb_order_key in H, H'; auto.
  exfalso; eapply lex_lt_asym; eauto.
Qed.

(** [a <= b < c] gives [a < c]. *)
Lemma ltb_le_lt_trans (a b c : float) :
  isna a = false -> ltb b a = false -> ltb b c = true -> ltb a c = true.
Proof.
  intros Ha Hba Hbc.
  assert (Hb : isna b = false) by (destruct b; auto; discriminate).
  assert (Hc : isna c = false)
    by (destruct c; auto; destruct b; try destruct s; discriminate).
  apply ltb_order_key; auto.
  apply lex_le_lt_trans with (order_key b).
  - intros H. apply ltb_order_key in H; auto. congruence.
  - apply ltb_order_key; auto.
Qed.

Lemma ltb_trans (a b c : float) :
  ltb a b = true -> ltb b c = true -> ltb a c = true.
Proof.
  intros Hab Hbc.
  apply ltb_le_lt_trans with b; auto.
  - destruct a; auto; discriminate.
  - apply ltb_asym; assumption.
Qed.


(** ** Integers in float64 *)

Lemma shift_value (n : positive) (k : Z) :
  0 <= k -> Zpos (shift n k) = Zpos n * 2 ^ k.
Proof.
  intros Hk. destruct k as [|p|p]; simpl shift.
  - rewrite Z.pow_0_r. lia.
  - change (Pos.iter xO n p) with (shift_pos p n).
    rewrite shift_pos_correct, Z.pow_pos_fold. lia.
  - lia.
Qed.

Lemma width_pos (n : positive) : 1 <= width n.
Proof. unfold width. lia. Qed.

Lemma shift_width (n : positive) (k : Z) :
  0 <= k -> width (shift n k) = width n + k.
Proof.
  intros Hk. destruct k as [|p|p]; simpl shift; [lia| |lia].
  unfold width.
  apply (Pos.iter_ind _ xO n
           (fun p a => Zpos (digits2_pos a) = Zpos (digits2_pos n) + Zpos p)).
  - simpl. lia.
  - intros q a IH. simpl digits2_pos. lia.
Qed.

Lemma shift_of_value (m n : positive) (k : Z) :
  0 <= k -> Zpos m = Zpos n * 2 ^ k -> m = shift n k.
Proof.
  intros Hk E. apply Pos2Z.inj. now rewrite shift_value.
Qed.

Lemma shift_shift (n : positive) (j k : Z) :
  0 <= j -> 0 <= k -> shift (shift n j) k = shift n (j + k).
Proof.
  intros Hj Hk. apply Pos2Z.inj.
  rewrite !shift_value, Z.pow_add_r by lia. lia.
Qed.

Lemma width_bound (n : positive) : Zpos n < 2 ^ 53 -> width n <= 53.
Proof.
  intros H. unfold width.
  destruct (Z_le_gt_dec (Zpos (digits2_pos n)) 53) as [L|G]; [exact L|exfalso].
  assert (S : forall q, digits2_pos q = Pos.size q)
    by (induction q as [q IH|q IH|]; simpl; [now rewrite IH..|reflexivity]).
  pose proof (Pos.size_le n) as B.
  apply Pos2Z.pos_le_pos in B. rewrite Pos2Z.inj_pow in B.
  rewrite (S n) in G.
  assert (2 ^ 54 <= 2 ^ Zpos (Pos.size n)) by (apply Z.pow_le_mono_r; lia).
  change (Zpos n~0) with (2 * Zpos n) in B.
  change (2 ^ 54) with (2 * 2 ^ 53) in H0. lia.
Qed.

Lemma iter_pos_iter {A : Type} (f : A -> A) (p : positive) :
  forall x, iter_pos f p x = Pos.iter f x p.
Proof.
  induction p as [p IH|p IH|]; intros x; simpl.
  - now rewrite !IH, !Pos.iter_swap.
  - now rewrite !IH.
  - reflexivity.
Qed.

Lemma shr_trailing_zeros (p : positive) :
  forall M,
    iter_pos shr_1 p
      {| shr_m := Zpos (Pos.iter xO M p); shr_r := false; shr_s := false |}
    = {| shr_m := Zpos M; shr_r := false; shr_s := false |}.
Proof.
  intros M. rewrite iter_pos_iter.
  induction p as [|p IH] using Pos.peano_ind.
  - reflexivity.
  - rewrite (Pos.iter_succ p _ xO), Pos.iter_succ_r. simpl shr_1. exact IH.
Qed.

Lemma fexp_full (e : Z) : -1074 <= e -> fexp prec emax (53 + e) = e.
Proof. intros H. unfold fexp, emin, prec, emax. lia. Qed.

(** Rounding a mantissa of 53 bits followed by [j] zero bits is exact. *)
Lemma round_aux_shifted (s : bool) (M : positive) (j e : Z) :
  width M = 53 -> 0 <= j -> -1074 <= e + j <= 971 ->
  binary_round_aux prec emax s (Zpos (shift M j)) e loc_Exact
  = S754_finite s M (e + j).
Proof.
  intros HM Hj He.
  assert (First : shr_fexp prec emax (Zpos (shift M j)) e loc_Exact
                  = ({| shr_m := Zpos M; shr_r := false; shr_s := false |}, e + j)).
  { unfold shr_fexp. simpl Zdigits2.
    change (Zpos (digits2_pos (shift M j))) with (width (shift M j)).
    rewrite shift_width, HM by exact Hj.
    replace (53 + j + e) with (53 + (e + j)) by lia.
    rewrite fexp_full by lia.
    replace (e + j - e) with j by lia.
    destruct j as [|p|p]; simpl; [now rewrite Z.add_0_r| |lia].
    now rewrite shr_trailing_zeros. }
  assert (Second : shr_fexp prec emax (Zpos M) (e + j) loc_Exact
                  = ({| shr_m := Zpos M; shr_r := false; shr_s := false |}, e + j)).
  { unfold shr_fexp. simpl Zdigits2.
    change (Zpos (digits2_pos M)) with (width M). rewrite HM.
    rewrite fexp_full by lia. now rewrite Z.sub_diag. }
  unfold binary_round_aux. rewrite First. simpl shr_m. simpl loc_of_shr_record.
  simpl round_nearest_even. rewrite Second. simpl shr_m.
  replace (e + j <=? emax - prec) with true; [reflexivity|].
  symmetry. apply Z.leb_le. unfold emax, prec. lia.
Qed.

(** Rounding an integer below 2^53, however its mantissa is aligned, gives
    its one float. *)
Lemma round_exact (s : bool) (m n : positive) (e : Z) :
  e <= 0 -> Zpos m = Zpos n * 2 ^ (- e) -> width n <= 53 ->
  binary_round prec emax s m e = canon s n.
Proof.
  intros He Hm Hn.
  pose proof (width_pos n) as Hd.
  assert (Em : m = shift n (- e)) by (apply shift_of_value; [lia|exact Hm]).
  assert (HM : width (shift n (53 - width n)) = 53)
    by (rewrite shift_width; lia).
  assert (Wm : width m = width n + - e)
    by (rewrite Em; apply shift_width; lia).
  unfold binary_round, canon.
  change (Zpos (digits2_pos m)) with (width m). rewrite Wm.
  replace (width n + - e + e) with (53 + (width n - 53)) by lia.
  rewrite fexp_full by lia.
  unfold shl_align.
  destruct (width n - 53 - e) as [|j|j] eqn:D.
  - replace m with (shift (shift n (53 - width n)) 0)
      by (rewrite shift_shift, Em by lia; f_equal; lia).
    rewrite round_aux_shifted by lia. f_equal. lia.
  - replace m with (shift (shift n (53 - width n)) (Zpos j))
      by (rewrite shift_shift, Em by lia; f_equal; lia).
    rewrite round_aux_shifted by lia. f_equal. lia.
  - change (Pos.iter xO m j) with (shift m (Zpos j)).
    replace (shift m (Zpos j)) with (shift (shift n (53 - width n)) 0)
      by (rewrite Em, !shift_shift by lia; f_equal; lia).
    rewrite round_aux_shifted by lia. f_equal. lia.
Qed.

Lemma exact_int_spec (z : Z) : exact_int z = true <-> Z.abs z < 2 ^ 53.
Proof. unfold exact_int. apply Z.ltb_lt. Qed.

Lemma of_Z_0 : of_Z 0 = zero.
Proof. reflexivity. Qed.

Lemma of_Z_canon (z : Z) :
  z <> 0 -> exact_int z = true ->
  of_Z z = canon (z <? 0) (Z.to_pos (Z.abs z)).
Proof.
  intros Hz Hb. apply exact_int_spec in Hb.
  destruct z as [|n|n]; [congruence| |]; unfold of_Z; simpl binary_normalize;
    (apply round_exact; [lia|simpl; lia|apply width_bound; simpl in *; lia]).
Qed.

(** The value a canonical integer float carries once aligned to [ez]. *)
Lemma aligned_value (s : bool) (n : positive) (ez : Z) :
  width n <= 53 -> ez <= width n - 53 ->
  cond_Zopp s
    (Zpos (fst (shl_align (shift n (53 - width n)) (width n - 53) ez)))
  = cond_Zopp s (Zpos n) * 2 ^ (- ez).
Proof.
  intros Hn He.
  assert (V : Zpos (fst (shl_align (shift n (53 - width n)) (width n - 53) ez))
              = Zpos n * 2 ^ (- ez)).
  { unfold shl_align.
    destruct (ez - (width n - 53)) as [|j|j] eqn:D; cbn [fst].
    - rewrite shift_value by lia. f_equal. f_equal. lia.
    - lia.
    - change (Pos.iter xO (shift n (53 - width n)) j)
        with (shift (shift n (53 - width n)) (Zpos j)).
      rewrite shift_shift, shift_value by lia. f_equal. f_equal. lia. }
  rewrite V. destruct s; unfold cond_Zopp; lia.
Qed.

Lemma normalize_exact (S e N : Z) :
  e <= 0 -> S = N * 2 ^ (- e) -> exact_int N = true ->
  binary_normalize prec emax S e false = of_Z N.
Proof.
  intros He HS HN.
  assert (P : 0 < 2 ^ (- e)) by (apply Z.pow_pos_nonneg; lia).
  destruct N as [|n|n].
  - subst S. reflexivity.
  - rewrite (of_Z_canon (Zpos n)) by (congruence || exact HN).
    destruct S as [|m|m]; try lia.
    simpl. apply round_exact; [exact He|exact HS|].
    apply width_bound. apply exact_int_spec in HN. simpl in HN. lia.
  - rewrite (of_Z_canon (Zneg n)) by (congruence || exact HN).
    destruct S as [|m|m]; try lia.
    simpl. apply round_exact; [exact He| |].
    + lia.
    + apply width_bound. apply exact_int_spec in HN. simpl in HN. lia.
Qed.

Lemma canon_value (z : Z) :
  z <> 0 -> cond_Zopp (z <? 0) (Zpos (Z.to_pos (Z.abs z))) = z.
Proof. intros H. destruct z; simpl; congruence. Qed.

Lemma width_exact (z : Z) :
  z <> 0 -> exact_int z = true -> width (Z.to_pos (Z.abs z)) <= 53.
Proof.
  intros Hz Hb. apply width_bound. apply exact_int_spec in Hb.
  destruct z; simpl in *; lia.
Qed.

(** Sums and differences of integers are exact while they stay below 2^53. *)
Lemma add_exact (a b : Z) :
  exact_int a = true -> exact_int b = true -> exact_int (a + b) = true ->
  add (of_Z a) (of_Z b) = of_Z (a + b).
Proof.
  intros Ha Hb Hab.
  destruct (Z.eq_dec a 0) as [->|Na].
  { destruct (Z.eq_dec b 0) as [->|Nb]; [reflexivity|].
    simpl Z.add. rewrite (of_Z_canon b) by assumption. reflexivity. }
  destruct (Z.eq_dec b 0) as [->|Nb].
  { rewrite Z.add_0_r, (of_Z_canon a) by assumption. reflexivity. }
  rewrite (of_Z_canon a), (of_Z_canon b) by assumption.
  pose proof (width_exact a Na Ha) as Wa. pose proof (width_exact b Nb Hb) as Wb.
  pose proof (width_pos (Z.to_pos (Z.abs a))).
  pose proof (width_pos (Z.to_pos (Z.abs b))).
  unfold canon, add, SFadd.
  apply normalize_exact; [lia| |exact Hab].
  rewrite !aligned_value, !canon_value by (assumption || lia). lia.
Qed.

Lemma sub_exact (a b : Z) :
  exact_int a = true -> exact_int b = true -> exact_int (a - b) = true ->
  sub (of_Z a) (of_Z b) = of_Z (a - b).
Proof.
  intros Ha Hb Hab.
  destruct (Z.eq_dec b 0) as [->|Nb].
  { rewrite Z.sub_0_r. destruct (Z.eq_dec a 0) as [->|Na]; [reflexivity|].
    rewrite (of_Z_canon a) by assumption. reflexivity. }
  destruct (Z.eq_dec a 0) as [->|Na].
  { simpl Z.sub. rewrite (of_Z_canon b), (of_Z_canon (- b)) by (assumption || lia).
    unfold canon, sub, SFsub, of_Z. simpl binary_normalize.
    rewrite Z.abs_opp.
    replace (- b <? 0) with (negb (b <? 0)); [reflexivity|].
    destruct b; [congruence|reflexivity|reflexivity]. }
  rewrite (of_Z_canon a), (of_Z_canon b) by assumption.
  pose proof (width_exact a Na Ha) as Wa. pose proof (width_exact b Nb Hb) as Wb.
  pose proof (width_pos (Z.to_pos (Z.abs a))).
  pose proof (width_pos (Z.to_pos (Z.abs b))).
  unfold canon, sub, SFsub.
  apply normalize_exact; [lia| |exact Hab].
  rewrite !aligned_value, !canon_value by (assumption || lia). lia.
Qed.

Lemma of_Z_notna (z : Z) : exact_int z = true -> notna (of_Z z) = true.
Proof.
  intros H. destruct (Z.eq_dec z 0) as [->|N]; [reflexivity|].
  now rewrite of_Z_canon.
Qed.

(** On such integers the compensation stays 0 and the running sum is the
    integer sum. *)
Lemma kahan_step_integers (s z : Z) :
  exact_int s = true -> exact_int z = true -> exact_int (s + z) = true ->
  kahan_step (of_Z s, zero) (of_Z z) = (of_Z (s + z), zero).
Proof.
  intros Hs Hz Hsz. unfold kahan_step.
  assert (Y : sub (of_Z z) zero = of_Z z).
  { change zero with (of_Z 0). rewrite sub_exact, Z.sub_0_r; auto.
    now rewrite Z.sub_0_r. }
  rewrite Y, add_exact by assumption.
  assert (D : s + z - s = z) by lia.
  rewrite sub_exact by (rewrite ?D; assumption). rewrite D.
  rewrite sub_exact by (rewrite ?Z.sub_diag; auto).
  rewrite Z.sub_diag. reflexivity.
Qed.

Lemma kahan_integers (zs : list Z) :
  forall s, exact_int s = true -> sums_exact s zs = true ->
    fold_left kahan_step (map of_Z zs) (of_Z s, zero)
    = (of_Z (fold_left Z.add zs s), zero).
Proof.
  induction zs as [|z zs IH]; intros s Hs H; [reflexivity|].
  cbn [sums_exact] in H. apply andb_prop in H. destruct H as [H Hrest].
  apply andb_prop in H. destruct H as [Hz Hsz].
  cbn [map fold_left]. rewrite kahan_step_integers by assumption.
  now apply IH.
Qed.

Lemma mean_integers (xs : list float) (zs : list Z) :
  filter notna xs = map of_Z zs -> zs <> [] -> sums_exact 0 zs = true ->
  mean xs = div (of_Z (total zs)) (of_Z (Z.of_nat (List.length zs))).
Proof.
  intros E Hne H. unfold mean. rewrite E.
  destruct (map of_Z zs) as [|y ys] eqn:Em.
  - destruct zs; [congruence|discriminate].
  - rewrite <- Em, length_map. unfold kahan_sum.
    pose proof (kahan_integers zs 0 eq_refl H) as K.
    change (of_Z 0) with zero in K. unfold total. now rewrite K.
Qed.

(** The mean looks at the valid values only. *)
Lemma mean_skips_missing (xs : list float) : mean xs = mean (filter notna xs).
Proof.
  unfold mean. replace (filter notna (filter notna xs)) with (filter notna xs);
    [reflexivity|].
  induction xs as [|x xs IH]; simpl; [reflexivity|].
  destruct (notna x) eqn:E; simpl; [rewrite E; f_equal|]; exact IH.
Qed.

Lemma mean_formula (xs : list float) :
  isna (mean xs) = false ->
  filter notna xs <> [] /\
  mean xs = div (kahan_sum (filter notna xs))
                (of_Z (Z.of_nat (List.length (filter notna xs)))).
Proof.
  unfold mean. destruct (filter notna xs) as [|y ys]; [discriminate|].
  intros _. split; [discriminate | reflexivity].
Qed.

(** ** [idxmax] *)

Section Idxmax.

Context {L : Type}.

Lemma idxmax_from_spec (s : series L) :
  forall best : L * float,
    isna (snd best) = false ->
    (idxmax_from best s = fst best /\
     forall p, In p s -> isna (snd p) = true \/ ltb (snd best) (snd p) = false)
    \/
    (exists v, first_max s (idxmax_from best s) v /\ ltb (snd best) v = true).
Proof.
  induction s as [|p s IH]; intros best Hbest; simpl.
  - left. split; [reflexivity | intros p []].
  - destruct (isna (snd p)) eqn:Hp.
    + destruct (IH best Hbest) as [[E H] | (v & (s1 & s2 & E & Hv & H1 & H2) & Hlt)].
      * left. split; [exact E|]. intros q [<-|Hq]; auto.
      * right. exists v. split; [|exact Hlt].
        exists (p :: s1), s2.
        split; [simpl; now rewrite E at 1|].
        split; [exact Hv|]. split; [|exact H2].
        intros q [<-|Hq]; auto.
    + destruct (ltb (snd best) (snd p)) eqn:Hlt.
      * right.
        destruct (IH p Hp) as [[E H] | (v & (s1 & s2 & E & Hv & H1 & H2) & Hlt')].
        -- exists (snd p). split; [|exact Hlt].
           exists [], s. rewrite E.
           split; [simpl; now destruct p|].
           split; [exact Hp|]. split; [intros q []|exact H].
        -- exists v. split; [|eapply ltb_trans; eauto].
           exists (p :: s1), s2.
           split; [simpl; now rewrite E at 1|].
           split; [exact Hv|]. split; [|exact H2].
           intros q [<-|Hq]; auto.
      * destruct (IH best Hbest) as [[E H] | (v & (s1 & s2 & E & Hv & H1 & H2) & Hlt')].
        -- left. split; [exact E|]. intros q [<-|Hq]; auto.
        -- right. exists v. split; [|exact Hlt'].
           exists (p :: s1), s2.
           split; [simpl; now rewrite E at 1|].
           split; [exact Hv|]. split; [|exact H2].
           intros q [<-|Hq]; auto.
           right. eapply ltb_le_lt_trans; eauto.
Qed.

(** [idxmax] returns the first occurrence of the greatest valid value. *)
Lemma idxmax_first_max (s : series L) (l : L) :
  idxmax s = Some l -> exists v, first_max s l v.
Proof.
  induction s as [|p s IH]; simpl; [discriminate|].
  destruct (isna (snd p)) eqn:Hp.
  - intros H. destruct (IH H) as (v & s1 & s2 & E & Hv & H1 & H2).
    exists v, (p :: s1), s2.
    split; [simpl; now rewrite E|].
    split; [exact Hv|]. split; [|exact H2].
    intros q [<-|Hq]; auto.
  - intros [= <-].
    destruct (idxmax_from_spec s p Hp)
      as [[E H] | (v & (s1 & s2 & E & Hv & H1 & H2) & Hlt)].
    + exists (snd p), [], s. rewrite E.
      split; [simpl; now destruct p|].
      split; [exact Hp|]. split; [intros q []|exact H].
    + exists v, (p :: s1), s2.
      split; [simpl; now rewrite E at 1|].
      split; [exact Hv|]. split; [|exact H2].
      intros q [<-|Hq]; auto.
Qed.

(** [idxmax] raises exactly on a Series with no valid value. *)
Lemma idxmax_defined (s : series L) :
  any_notna s = true -> exists l, idxmax s = Some l.
Proof.
  induction s as [|p s IH]; simpl; [discriminate|].
  unfold notna. destruct (isna (snd p)); simpl; eauto.
Qed.

Lemma idxmax_undefined (s : series L) :
  any_notna s = false -> idxmax s = None.
Proof.
  induction s as [|p s IH]; simpl; [reflexivity|].
  unfold notna. destruct (isna (snd p)); simpl; [exact IH | discriminate].
Qed.

End Idxmax.

(** ** Lists, labels and group keys *)

Lemma filter_keeps_keys_unique {X K : Type} (key : X -> K) (keep : X -> bool)
      (xs : list X) (Hd : NoDup (map key xs)) :
  NoDup (map key (filter keep xs)).
Proof.
  induction xs as [|x xs IH]; simpl in *; [constructor|].
  inversion Hd as [|? ? Hn Hd']; subst.
  destruct (keep x); simpl; auto.
  constructor; auto.
  intros Hin. apply Hn.
  apply in_map_iff in Hin. destruct Hin as (y & E & Hy).
  apply filter_In in Hy. apply in_map_iff. exists y. tauto.
Qed.

Lemma NoDup_map_eq {A B : Type} (f : A -> B) (l : list A) (x y : A) :
  NoDup (map f l) -> In x l -> In y l -> f x = f y -> x = y.
Proof.
  induction l as [|a l IH]; simpl; intros H Hx Hy E; [contradiction|].
  inversion H as [|? ? Hn Hd]; subst.
  destruct Hx as [<-|Hx], Hy as [<-|Hy]; auto.
  - exfalso. apply Hn. rewrite E. now apply in_map.
  - exfalso. apply Hn. rewrite <- E. now apply in_map.
Qed.

(** *** Row labels *)

Lemma range_index_labels (rs : list record) (start : nat) :
  map label (range_index start rs) = seq start (List.length rs).
Proof.
  revert start. induction rs as [|r rs IH]; intros start; simpl;
    [reflexivity | now rewrite IH].
Qed.

Lemma read_csv_labels_unique (file : list record) :
  NoDup (map label (read_csv file)).
Proof. unfold read_csv. rewrite range_index_labels. apply seq_NoDup. Qed.

Lemma select_countries_labels_unique (df : list row) :
  NoDup (map label df) -> NoDup (map label (select_countries df)).
Proof. apply filter_keeps_keys_unique. Qed.

(** *** The order of strings *)

Lemma ascii_compare_refl (a : ascii) : Ascii.compare a a = Eq.
Proof. unfold Ascii.compare. apply N.compare_refl. Qed.

Lemma string_compare_refl (s : string) : String.compare s s = Eq.
Proof.
  induction s as [|a s IH]; simpl; [reflexivity|].
  now rewrite ascii_compare_refl.
Qed.

Lemma string_compare_lt_trans (a b c : string) :
  String.compare a b = Lt -> String.compare b c = Lt -> String.compare a c = Lt.
Proof.
  revert b c. induction a as [|x a IH]; intros [|y b] [|z c]; simpl;
    try discriminate; auto.
  unfold Ascii.compare.
  destruct (N.compare_spec (N_of_ascii x) (N_of_ascii y)) as [E1|L1|G1];
    try discriminate;
    destruct (N.compare_spec (N_of_ascii y) (N_of_ascii z)) as [E2|L2|G2];
    try discriminate; intros H1 H2.
  - rewrite E1, E2, N.compare_refl. eauto.
  - rewrite E1. now apply N.compare_lt_iff in L2 as ->.
  - rewrite <- E2. now apply N.compare_lt_iff in L1 as ->.
  - assert (L : (N_of_ascii x < N_of_ascii z)%N) by lia.
    now apply N.compare_lt_iff in L as ->.
Qed.

(** *** Group keys *)

Lemma insert_key_In (k x : string) (ks : list string) :
  In x (insert_key k ks) <-> x = k \/ In x ks.
Proof.
  induction ks as [|k' ks IH]; simpl.
  - intuition.
  - destruct (String.compare k k') eqn:E; simpl.
    + apply String.compare_eq_iff in E. subst. intuition.
    + intuition.
    + rewrite IH. intuition.
Qed.

Lemma insert_key_sorted (k : string) (ks : list string) :
  StronglySorted key_lt ks -> StronglySorted key_lt (insert_key k ks).
Proof.
  induction ks as [|k' ks IH]; simpl; intros H.
  - repeat constructor.
  - inversion H as [|? ? Hs Hf]; subst.
    destruct (String.compare k k') eqn:E; auto.
    + constructor; auto. constructor; auto.
      rewrite Forall_forall in Hf |- *. intros x Hx.
      eapply string_compare_lt_trans; eauto. now apply Hf.
    + constructor; auto.
      rewrite Forall_forall in Hf |- *. intros x Hx.
      apply insert_key_In in Hx. destruct Hx as [->|Hx]; [|now apply Hf].
      unfold key_lt. rewrite String.compare_antisym, E. reflexivity.
Qed.

Lemma group_keys_In (rows : list row) (k : string) :
  In k (group_keys rows) <-> exists r, In r rows /\ rloc r = k.
Proof.
  induction rows as [|r rows IH]; simpl.
  - split; [contradiction | intros (? & [] & _)].
  - rewrite insert_key_In, IH. split.
    + intros [->|(x & Hx & E)]; eauto.
    + intros (x & [<-|Hx] & E); eauto.
Qed.

Lemma group_keys_sorted (rows : list row) :
  StronglySorted key_lt (group_keys rows).
Proof.
  induction rows as [|r rows IH]; simpl;
    [constructor | now apply insert_key_sorted].
Qed.

Lemma sorted_keys_NoDup (ks : list string) :
  StronglySorted key_lt ks -> NoDup ks.
Proof.
  induction 1 as [|k ks Hs IH Hf]; constructor; auto.
  intros Hin. rewrite Forall_forall in Hf. specialize (Hf k Hin).
  unfold key_lt in Hf. rewrite string_compare_refl in Hf. discriminate.
Qed.

Lemma group_keys_NoDup (rows : list row) : NoDup (group_keys rows).
Proof. apply sorted_keys_NoDup, group_keys_sorted. Qed.

Lemma group_of_In (k : string) (rows : list row) (r : row) :
  In r (group_of k rows) <-> In r rows /\ rloc r = k.
Proof.
  unfold group_of. rewrite filter_In, String.eqb_eq. tauto.
Qed.

Lemma group_keys_ext (rows rows' : list row) :
  map rloc rows = map rloc rows' -> group_keys rows = group_keys rows'.
Proof.
  revert rows'. induction rows as [|r rows IH]; intros [|r' rows']; simpl;
    try discriminate; auto.
  intros [= E1 E2]. now rewrite E1, (IH rows').
Qed.

(** A column of a group depends only on that column and the locations. *)
Lemma group_of_map_ext {B : Type} (f : row -> B) (k : string)
      (rows rows' : list row) :
  map rloc rows = map rloc rows' -> map f rows = map f rows' ->
  map f (group_of k rows) = map f (group_of k rows').
Proof.
  revert rows'. induction rows as [|r rows IH]; intros [|r' rows']; simpl;
    try discriminate; auto.
  intros [= E1 E2] [= F1 F2]. rewrite E1.
  destruct (String.eqb (rloc r') k); simpl; [rewrite F1; f_equal|]; auto.
Qed.

(** ** Forward fill *)

Lemma ffill_from_length (xs : list float) :
  forall a, List.length (ffill_from a xs) = List.length xs.
Proof. induction xs as [|x xs IH]; intros a; simpl; auto. Qed.

Lemma ffill_from_idem (xs : list float) :
  forall a, ffill_from a (ffill_from a xs) = ffill_from a xs.
Proof.
  induction xs as [|x xs IH]; intros a; simpl; [reflexivity|].
  destruct (isna x) eqn:Hx.
  - destruct (isna a) eqn:Ha; now rewrite IH.
  - rewrite Hx. now rewrite IH.
Qed.

Lemma ffill_idem (xs : list float) : ffill (ffill xs) = ffill xs.
Proof. apply ffill_from_idem. Qed.

(** *** Reading a Series by label *)

Lemma series_at_app_l (s1 s2 : series nat) (l : nat) :
  In l (map fst s1) -> series_at (s1 ++ s2) l = series_at s1 l.
Proof.
  unfold series_at. induction s1 as [|p s1 IH]; simpl; [contradiction|].
  intros [E|H].
  - subst. now rewrite Nat.eqb_refl.
  - destruct (Nat.eqb (fst p) l); auto.
Qed.

Lemma series_at_app_r (s1 s2 : series nat) (l : nat) :
  ~ In l (map fst s1) -> series_at (s1 ++ s2) l = series_at s2 l.
Proof.
  unfold series_at. induction s1 as [|p s1 IH]; simpl; [reflexivity|].
  intros H. destruct (Nat.eqb_spec (fst p) l); [tauto|].
  apply IH. tauto.
Qed.

Lemma map_fst_combine {A B : Type} (l : list A) (l' : list B) :
  List.length l = List.length l' -> map fst (combine l l') = l.
Proof.
  revert l'. induction l as [|a l IH]; intros [|b l']; simpl;
    try discriminate; auto.
  intros [= E]. now rewrite IH.
Qed.

Lemma series_at_combine (ls : list nat) (vs : list float) :
  NoDup ls -> List.length ls = List.length vs ->
  map (series_at (combine ls vs)) ls = vs.
Proof.
  revert vs. induction ls as [|l ls IH]; intros [|v vs] Hd; simpl;
    try discriminate; auto.
  intros [= E]. inversion Hd as [|? ? Hn Hd']; subst.
  unfold series_at at 1. simpl. rewrite Nat.eqb_refl. simpl. f_equal.
  rewrite <- (IH vs Hd' E) at 2.
  apply map_ext_in. intros x Hx.
  unfold series_at. simpl.
  destruct (Nat.eqb_spec l x); [subst; contradiction | reflexivity].
Qed.

(** *** The transform, group by group *)

Section Transform.

Variable m : metric.
Variable rows : list row.
Hypothesis labels_unique : NoDup (map label rows).

Lemma filled_group_labels (k : string) :
  map fst (filled_group m (the_group rows k)) = map label (group_of k rows).
Proof.
  unfold filled_group, the_group. simpl. apply map_fst_combine.
  unfold ffill. now rewrite ffill_from_length, !length_map.
Qed.

Lemma group_labels_disjoint (k k' : string) (l : nat) :
  In l (map label (group_of k rows)) ->
  In l (map label (group_of k' rows)) -> k = k'.
Proof.
  intros H H'.
  apply in_map_iff in H. destruct H as (r & E & Hr).
  apply in_map_iff in H'. destruct H' as (r' & E' & Hr').
  apply group_of_In in Hr, Hr'.
  destruct Hr as [Hr <-], Hr' as [Hr' <-].
  f_equal. apply (NoDup_map_eq label rows); auto. congruence.
Qed.

Lemma series_at_group (k : string) (ks : list string) :
  In k ks -> NoDup ks ->
  map (series_at (flat_map (filled_group m) (map (the_group rows) ks)))
      (map label (group_of k rows))
  = ffill (map (rget m) (group_of k rows)).
Proof.
  induction ks as [|k' ks IH]; simpl; [contradiction|].
  intros Hin Hd. inversion Hd as [|? ? Hn Hd']; subst.
  destruct (string_dec k' k) as [->|Hne].
  - transitivity (map (series_at (filled_group m (the_group rows k)))
                      (map label (group_of k rows))).
    + apply map_ext_in. intros l Hl. apply series_at_app_l.
      now rewrite filled_group_labels.
    + apply series_at_combine.
      * now apply filter_keeps_keys_unique.
      * unfold ffill. now rewrite ffill_from_length, !length_map.
  - destruct Hin as [E|Hin]; [contradiction|].
    rewrite <- (IH Hin Hd').
    apply map_ext_in. intros l Hl. apply series_at_app_r.
    rewrite filled_group_labels. intros Hl'.
    apply Hne. eapply group_labels_disjoint; eauto.
Qed.

(** Read back at the labels of a group, the transform gives the forward
    fill of that group's values. *)
Lemma transform_at_group (k : string) :
  map (series_at (transform_ffill m rows)) (map label (group_of k rows))
  = ffill (map (rget m) (group_of k rows)).
Proof.
  destruct (group_of k rows) as [|r g] eqn:E; [reflexivity|].
  rewrite <- E.
  apply series_at_group; [|apply group_keys_NoDup].
  apply group_keys_In. exists r.
  apply group_of_In. rewrite E. now left.
Qed.

End Transform.

Lemma transform_ext (m : metric) (rows rows' : list row) :
  map label rows = map label rows' ->
  map rloc rows = map rloc rows' ->
  map (rget m) rows = map (rget m) rows' ->
  transform_ffill m rows = transform_ffill m rows'.
Proof.
  intros El Ek Ev. unfold transform_ffill, groupby.
  rewrite (group_keys_ext rows rows' Ek).
  induction (group_keys rows') as [|k ks IH]; simpl; [reflexivity|].
  rewrite IH.
  rewrite (group_of_map_ext label k rows rows' Ek El).
  rewrite (group_of_map_ext (rget m) k rows rows' Ek Ev).
  reflexivity.
Qed.

(** *** Column assignment *)

Lemma rset_rset_same (m : metric) (v v' : float) (r : row) :
  rset m v (rset m v' r) = rset m v r.
Proof. destruct r as [l d]; destruct m; reflexivity. Qed.

Lemma rset_rset_comm (m m' : metric) (v v' : float) (r : row) :
  m <> m' -> rset m v (rset m' v' r) = rset m' v' (rset m v r).
Proof.
  intros H. destruct r as [l d]; destruct m, m';
    try reflexivity; contradiction.
Qed.

Lemma rget_rset_same (m : metric) (v : float) (r : row) :
  rget m (rset m v r) = v.
Proof. destruct m; reflexivity. Qed.

Lemma rget_rset_other (m m' : metric) (v : float) (r : row) :
  m <> m' -> rget m' (rset m v r) = rget m' r.
Proof. intros H. destruct m, m'; try reflexivity; contradiction. Qed.

Lemma rloc_rset (m : metric) (v : float) (r : row) : rloc (rset m v r) = rloc r.
Proof. destruct m; reflexivity. Qed.

Lemma rdate_rset (m : metric) (v : float) (r : row) :
  rdate (rset m v r) = rdate r.
Proof. destruct m; reflexivity. Qed.

Lemma assign_labels (m : metric) (s : series nat) (rows : list row) :
  map label (assign m s rows) = map label rows.
Proof. unfold assign. rewrite map_map. reflexivity. Qed.

Lemma assign_locs (m : metric) (s : series nat) (rows : list row) :
  map rloc (assign m s rows) = map rloc rows.
Proof.
  unfold assign. rewrite map_map. apply map_ext. intros; apply rloc_rset.
Qed.

Lemma assign_dates (m : metric) (s : series nat) (rows : list row) :
  map rdate (assign m s rows) = map rdate rows.
Proof.
  unfold assign. rewrite map_map. apply map_ext. intros; apply rdate_rset.
Qed.

Lemma assign_get_same (m : metric) (s : series nat) (rows : list row) :
  map (rget m) (assign m s rows) = map (series_at s) (map label rows).
Proof.
  unfold assign. rewrite !map_map. apply map_ext.
  intros; apply rget_rset_same.
Qed.

Lemma assign_get_other (m m' : metric) (s : series nat) (rows : list row) :
  m <> m' -> map (rget m') (assign m s rows) = map (rget m') rows.
Proof.
  intros H. unfold assign. rewrite map_map. apply map_ext.
  intros; now apply rget_rset_other.
Qed.

Lemma group_of_assign (k : string) (m : metric) (s : series nat)
      (rows : list row) :
  group_of k (assign m s rows) = assign m s (group_of k rows).
Proof.
  unfold group_of, assign.
  induction rows as [|r rows IH]; simpl; [reflexivity|].
  rewrite rloc_rset. destruct (String.eqb (rloc r) k); simpl; now rewrite IH.
Qed.

Lemma assign_assign_same (m : metric) (s s' : series nat) (rows : list row) :
  assign m s (assign m s' rows) = assign m s rows.
Proof.
  unfold assign. rewrite map_map. apply map_ext.
  intros r. simpl. apply rset_rset_same.
Qed.

Lemma assign_assign_comm (m m' : metric) (s s' : series nat)
      (rows : list row) :
  m <> m' -> assign m s (assign m' s' rows) = assign m' s' (assign m s rows).
Proof.
  intros H. unfold assign. rewrite !map_map. apply map_ext.
  intros r. simpl. now apply rset_rset_comm.
Qed.

(** On a frame filled for [m], the transform computes the same Series. *)
Lemma transform_fixed (m : metric) (rows : list row) :
  NoDup (map label rows) ->
  transform_ffill m (assign m (transform_ffill m rows) rows)
  = transform_ffill m rows.
Proof.
  intros Hd. set (s := transform_ffill m rows).
  unfold transform_ffill at 1. unfold groupby.
  rewrite (group_keys_ext _ rows) by apply assign_locs.
  subst s. unfold transform_ffill at 2. unfold groupby.
  rewrite !flat_map_concat_map, !map_map. f_equal.
  apply map_ext. intros k. simpl.
  rewrite group_of_assign, assign_labels, assign_get_same.
  rewrite transform_at_group by assumption.
  now rewrite ffill_idem.
Qed.

(** *** The fill loop *)

Lemma metric_eq_dec (a b : metric) : {a = b} + {a <> b}.
Proof. decide equality. Qed.

Lemma fill_metric_labels (columns : list metric) (rows : list row) (m : metric) :
  map label (fill_metric columns rows m) = map label rows.
Proof.
  unfold fill_metric. destruct (has m columns); auto using assign_labels.
Qed.

Lemma fill_metric_locs (columns : list metric) (rows : list row) (m : metric) :
  map rloc (fill_metric columns rows m) = map rloc rows.
Proof.
  unfold fill_metric. destruct (has m columns); auto using assign_locs.
Qed.

Lemma fill_metric_dates (columns : list metric) (rows : list row) (m : metric) :
  map rdate (fill_metric columns rows m) = map rdate rows.
Proof.
  unfold fill_metric. destruct (has m columns); auto using assign_dates.
Qed.

Lemma fill_metric_get_other (columns : list metric) (rows : list row)
      (m m' : metric) :
  m <> m' -> map (rget m') (fill_metric columns rows m) = map (rget m') rows.
Proof.
  intros H. unfold fill_metric.
  destruct (has m columns); auto using assign_get_other.
Qed.

Lemma fill_metric_idem (columns : list metric) (rows : list row) (m : metric) :
  NoDup (map label rows) ->
  fill_metric columns (fill_metric columns rows m) m
  = fill_metric columns rows m.
Proof.
  intros Hd. unfold fill_metric. destruct (has m columns); [|reflexivity].
  rewrite transform_fixed by assumption. apply assign_assign_same.
Qed.

Lemma fill_metric_comm (columns : list metric) (rows : list row)
      (m m' : metric) :
  fill_metric columns (fill_metric columns rows m') m
  = fill_metric columns (fill_metric columns rows m) m'.
Proof.
  destruct (metric_eq_dec m m') as [->|Hne]; [reflexivity|].
  unfold fill_metric.
  destruct (has m columns), (has m' columns); try reflexivity.
  rewrite (transform_ext m (assign m' _ rows) rows)
    by auto using assign_labels, assign_locs, assign_get_other.
  rewrite (transform_ext m' (assign m _ rows) rows)
    by auto using assign_labels, assign_locs, assign_get_other.
  now apply assign_assign_comm.
Qed.

Lemma fill_loop_labels (columns ms : list metric) (rows : list row) :
  map label (fold_left (fill_metric columns) ms rows) = map label rows.
Proof.
  revert rows. induction ms as [|m ms IH]; intros rows; simpl;
    [reflexivity | now rewrite IH, fill_metric_labels].
Qed.

Lemma fill_loop_locs (columns ms : list metric) (rows : list row) :
  map rloc (fold_left (fill_metric columns) ms rows) = map rloc rows.
Proof.
  revert rows. induction ms as [|m ms IH]; intros rows; simpl;
    [reflexivity | now rewrite IH, fill_metric_locs].
Qed.

Lemma fill_loop_dates (columns ms : list metric) (rows : list row) :
  map rdate (fold_left (fill_metric columns) ms rows) = map rdate rows.
Proof.
  revert rows. induction ms as [|m ms IH]; intros rows; simpl;
    [reflexivity | now rewrite IH, fill_metric_dates].
Qed.

Lemma fill_loop_get_other (columns ms : list metric) (rows : list row)
      (m : metric) :
  ~ In m ms ->
  map (rget m) (fold_left (fill_metric columns) ms rows) = map (rget m) rows.
Proof.
  revert rows. induction ms as [|m' ms IH]; intros rows Hn; simpl;
    [reflexivity|].
  simpl in Hn. rewrite IH by tauto.
  apply fill_metric_get_other. intros ->. tauto.
Qed.

Lemma fill_loop_comm (columns ms : list metric) (rows : list row) (m : metric) :
  fill_metric columns (fold_left (fill_metric columns) ms rows) m
  = fold_left (fill_metric columns) ms (fill_metric columns rows m).
Proof.
  revert rows. induction ms as [|m' ms IH]; intros rows; simpl;
    [reflexivity|].
  rewrite IH. f_equal. apply fill_metric_comm.
Qed.

Lemma fill_loop_idem (columns ms : list metric) (rows : list row) :
  NoDup (map label rows) ->
  fold_left (fill_metric columns) ms (fold_left (fill_metric columns) ms rows)
  = fold_left (fill_metric columns) ms rows.
Proof.
  revert rows. induction ms as [|m ms IH]; intros rows Hd; simpl;
    [reflexivity|].
  rewrite fill_loop_comm, fill_metric_idem by assumption.
  apply IH. now rewrite fill_metric_labels.
Qed.

(** ** What a filled cell holds *)

Lemma ffill_from_app (xs ys : list float) :
  forall a,
    ffill_from a (xs ++ ys)
    = ffill_from a xs ++ ffill_from (last_valid xs a) ys.
Proof.
  induction xs as [|x xs IH]; intros a; simpl; [reflexivity|].
  now rewrite IH.
Qed.

Lemma last_valid_snoc (xs : list float) (x a : float) :
  last_valid (xs ++ [x]) a = if isna x then last_valid xs a else x.
Proof. unfold last_valid. now rewrite fold_left_app. Qed.

Lemma middle_eq {A : Type} (l1 l1' l2 l2' : list A) (x x' : A) :
  List.length l1 = List.length l1' ->
  l1 ++ x :: l2 = l1' ++ x' :: l2' -> x = x'.
Proof.
  revert l1'. induction l1 as [|a l1 IH]; intros [|a' l1']; simpl;
    try discriminate.
  - intros _ [= E _]. exact E.
  - intros [= E] [= _ E']. eauto.
Qed.

Lemma group_of_app (k : string) (l1 l2 : list row) :
  group_of k (l1 ++ l2) = group_of k l1 ++ group_of k l2.
Proof. apply filter_app. Qed.

Lemma group_of_own (r : row) (l : list row) :
  group_of (rloc r) (r :: l) = r :: group_of (rloc r) l.
Proof. unfold group_of. simpl. now rewrite String.eqb_refl. Qed.

(** The filled cell of a row is the last valid value among the rows of its
    location up to and including it, in frame order. *)
Lemma filled_value (m : metric) (pre post : list row) (r : row) :
  NoDup (map label (pre ++ r :: post)) ->
  series_at (transform_ffill m (pre ++ r :: post)) (label r)
  = last_valid (map (rget m) (group_of (rloc r) pre ++ [r])) nan.
Proof.
  intros Hd.
  assert (H := transform_at_group m _ Hd (rloc r)).
  rewrite group_of_app, group_of_own in H.
  rewrite !map_app in H. simpl in H.
  unfold ffill in H. rewrite ffill_from_app in H. simpl in H.
  apply middle_eq in H.
  - rewrite H, map_app. simpl. rewrite last_valid_snoc.
    reflexivity.
  - now rewrite ffill_from_length, !length_map.
Qed.

Lemma last_valid_rows (m : metric) (h : list row) :
  forall a,
    (last_valid (map (rget m) h) a = a /\
     forall o, In o h -> isna (rget m o) = true)
    \/
    (exists h1 src h2,
        h = h1 ++ src :: h2 /\ isna (rget m src) = false /\
        (forall o, In o h2 -> isna (rget m o) = true) /\
        last_valid (map (rget m) h) a = rget m src).
Proof.
  induction h as [|x h IH]; intros a.
  - left. split; [reflexivity | intros o []].
  - change (last_valid (map (rget m) (x :: h)) a)
      with (last_valid (map (rget m) h) (if isna (rget m x) then a else rget m x)).
    destruct (IH (if isna (rget m x) then a else rget m x))
      as [[E H] | (h1 & src & h2 & E & Hs & H2 & Ev)].
    + destruct (isna (rget m x)) eqn:Hx.
      * left. split; [exact E|]. intros o [<-|Ho]; auto.
      * right. exists [], x, h. repeat split; auto.
    + right. exists (x :: h1), src, h2. subst h. repeat split; auto.
Qed.

(** *** Ascending dates *)

Lemma ascending_filter (p : row -> bool) (rows : list row) :
  ascending rows -> ascending (filter p rows).
Proof.
  induction 1 as [|r rows Hs IH Hf]; simpl; [constructor|].
  destruct (p r); auto. constructor; auto.
  rewrite Forall_forall in Hf |- *. intros x Hx.
  apply filter_In in Hx. now apply Hf.
Qed.

Lemma ascending_app (l1 l2 : list row) :
  ascending (l1 ++ l2) ->
  ascending l1 /\ ascending l2 /\
  forall a b, In a l1 -> In b l2 -> earlier a b.
Proof.
  induction l1 as [|x l1 IH]; simpl; intros H.
  - repeat split; auto; [constructor | intros a b []].
  - inversion H as [|? ? Hs Hf]; subst.
    destruct (IH Hs) as (H1 & H2 & H3).
    rewrite Forall_forall in Hf.
    repeat split; auto.
    + constructor; auto. rewrite Forall_forall. intros y Hy.
      apply Hf. apply in_or_app. now left.
    + intros a b [<-|Ha] Hb; auto.
      apply Hf. apply in_or_app. now right.
Qed.

Lemma range_index_ascending (file : list record) :
  forall start,
    dates_ascending file = true -> ascending (range_index start file).
Proof.
  induction file as [|r file IH]; intros start; simpl; [constructor|].
  intros H. apply andb_true_iff in H. destruct H as [H1 H2].
  constructor; [now apply IH|].
  rewrite forallb_forall in H1. rewrite Forall_forall. intros x Hx.
  assert (Hd : In (data x) file).
  { clear - Hx. revert start Hx.
    induction file as [|r' file IH]; intros start; simpl; [contradiction|].
    intros [<-|Hx]; [now left | right; eauto]. }
  specialize (H1 _ Hd). unfold earlier, rloc, rdate. simpl. intros E.
  apply orb_true_iff in H1. destruct H1 as [H1|H1].
  - apply negb_true_iff in H1. rewrite E, String.eqb_refl in H1. discriminate.
  - now apply Z.ltb_lt.
Qed.

Lemma select_countries_ascending (file : list record) :
  dates_ascending file = true ->
  ascending (select_countries (read_csv file)).
Proof.
  intros H. apply ascending_filter. now apply range_index_ascending.
Qed.

(** *** Causality of one fill *)

Lemma transform_most_recent (m : metric) (raw : list row) (r : row) :
  NoDup (map label raw) -> ascending raw -> In r raw ->
  most_recent_valid m raw r (series_at (transform_ffill m raw) (label r)).
Proof.
  intros Hd Hasc Hin.
  destruct (in_split _ _ Hin) as (pre & post & ->).
  rewrite filled_value by assumption.
  set (h := group_of (rloc r) pre ++ [r]).
  assert (Hh : h = group_of (rloc r) (pre ++ [r])).
  { subst h. rewrite group_of_app. f_equal.
    unfold group_of. simpl. now rewrite String.eqb_refl. }
  assert (Hsplit : pre ++ r :: post = (pre ++ [r]) ++ post)
    by now rewrite <- app_assoc.
  rewrite Hsplit in Hasc.
  destruct (ascending_app _ _ Hasc) as (Hasc1 & _ & Hcross).
  assert (Hasch : ascending h) by (rewrite Hh; now apply ascending_filter).
  (* the rows of the location at a date not after [r]'s are those of [h] *)
  assert (Hcover : forall o, In o (pre ++ r :: post) -> rloc o = rloc r ->
                             rdate o <= rdate r -> In o h).
  { intros o Ho Eo Hle. rewrite Hsplit in Ho.
    apply in_app_or in Ho. destruct Ho as [Ho|Ho].
    - rewrite Hh. apply group_of_In. auto.
    - exfalso.
      assert (Hr : In r (pre ++ [r])) by (apply in_or_app; right; now left).
      specialize (Hcross r o Hr Ho (eq_sym Eo)). lia. }
  assert (Hsub : forall o, In o h ->
                           In o (pre ++ r :: post) /\ rloc o = rloc r /\
                           rdate o <= rdate r).
  { intros o Ho. rewrite Hh in Ho. apply group_of_In in Ho.
    destruct Ho as [Ho Eo]. split; [rewrite Hsplit; apply in_or_app; now left|].
    split; [exact Eo|].
    apply in_app_or in Ho. destruct Ho as [Ho|[<-|[]]]; [|lia].
    destruct (ascending_app _ _ Hasc1) as (_ & _ & Hc).
    specialize (Hc o r Ho (or_introl eq_refl) Eo). lia. }
  destruct (last_valid_rows m h nan)
    as [[Ev Hall] | (h1 & src & h2 & Eh & Hs & H2 & Ev)].
  - right. split.
    + intros o Ho Eo Hle. apply Hall. now apply Hcover.
    + fold h. now rewrite Ev.
  - left. exists src.
    assert (Hsrc : In src h) by (rewrite Eh; apply in_or_app; right; now left).
    destruct (Hsub _ Hsrc) as (S1 & S2 & S3).
    repeat split; auto.
    intros o Ho Eo Hle Hv.
    assert (Hoh := Hcover o Ho Eo Hle).
    rewrite Eh in Hoh. apply in_app_or in Hoh.
    destruct Hoh as [Ho1|[<-|Ho2]]; [|lia|].
    + rewrite Eh in Hasch.
      destruct (ascending_app _ _ Hasch) as (_ & _ & Hc).
      specialize (Hc o src Ho1 (or_introl eq_refl)).
      unfold earlier in Hc. rewrite Eo, S2 in Hc. specialize (Hc eq_refl). lia.
    + rewrite (H2 _ Ho2) in Hv. discriminate.
Qed.

Lemma Forall2_columns {A B : Type} (P : A -> B -> Prop) (l : list A) :
  forall l' : list B,
    List.length l' = List.length l ->
    (forall i a b, nth_error l i = Some a -> nth_error l' i = Some b -> P a b) ->
    Forall2 P l l'.
Proof.
  induction l as [|a l IH]; intros [|b l']; simpl; try discriminate;
    [constructor|].
  intros [= E] H. constructor.
  - apply (H 0%nat); reflexivity.
  - apply IH; auto. intros i x y Hx Hy. apply (H (S i)); assumption.
Qed.

Lemma nth_error_map_eq {A B C : Type} (f : A -> C) (g : B -> C)
      (l : list A) (l' : list B) (i : nat) (a : A) (b : B) :
  map f l = map g l' -> nth_error l i = Some a -> nth_error l' i = Some b ->
  f a = g b.
Proof.
  intros E Ha Hb.
  apply (map_nth_error f) in Ha. apply (map_nth_error g) in Hb.
  rewrite E in Ha. congruence.
Qed.

(** ** The latest snapshot *)

Lemma idxmax_date_from_spec (g : list row) :
  forall best : row,
    (idxmax_date_from best g = label best /\
     forall o, In o g -> rdate o <= rdate best)
    \/
    (exists r, first_latest g r /\ idxmax_date_from best g = label r /\
               rdate best < rdate r).
Proof.
  induction g as [|x g IH]; intros best; simpl.
  - left. split; [reflexivity | intros o []].
  - destruct (Z.ltb_spec (rdate best) (rdate x)) as [Hlt|Hge].
    + right.
      destruct (IH x) as [[E H] | (r & (g1 & g2 & Eg & H1 & H2) & E & Hr)].
      * exists x. split; [|split; [exact E | exact Hlt]].
        exists [], g. split; [reflexivity|]. split; [intros o []|exact H].
      * exists r. split; [|split; [exact E | lia]].
        exists (x :: g1), g2. subst g. split; [reflexivity|].
        split; [|exact H2]. intros o [<-|Ho]; auto.
    + destruct (IH best) as [[E H] | (r & (g1 & g2 & Eg & H1 & H2) & E & Hr)].
      * left. split; [exact E|]. intros o [<-|Ho]; auto.
      * right. exists r. split; [|split; [exact E | exact Hr]].
        exists (x :: g1), g2. subst g. split; [reflexivity|].
        split; [|exact H2]. intros o [<-|Ho]; auto. lia.
Qed.

Lemma idxmax_date_spec (g : list row) :
  g <> [] -> exists r, idxmax_date g = Some (label r) /\ first_latest g r.
Proof.
  destruct g as [|x g]; [congruence|]. intros _. simpl.
  destruct (idxmax_date_from_spec g x)
    as [[E H] | (r & (g1 & g2 & Eg & H1 & H2) & E & Hr)].
  - exists x. split; [now rewrite E|].
    exists [], g. split; [reflexivity|]. split; [intros o []|exact H].
  - exists r. split; [now rewrite E|].
    exists (x :: g1), g2. subst g. split; [reflexivity|].
    split; [|exact H2]. intros o [<-|Ho]; auto.
Qed.

Lemma first_latest_In (g : list row) (r : row) : first_latest g r -> In r g.
Proof. intros (g1 & g2 & -> & _). apply in_or_app. right. now left. Qed.

Lemma first_latest_max (g : list row) (r o : row) :
  first_latest g r -> In o g -> rdate o <= rdate r.
Proof.
  intros (g1 & g2 & -> & H1 & H2) Ho.
  apply in_app_or in Ho. destruct Ho as [Ho|[<-|Ho]]; auto; try lia.
  specialize (H1 _ Ho). lia.
Qed.

Lemma traverse_Forall2 {A B : Type} (f : A -> option B) (P : A -> B -> Prop)
      (l : list A) :
  (forall a, In a l -> exists b, f a = Some b /\ P a b) ->
  exists bs, traverse f l = Some bs /\ Forall2 P l bs.
Proof.
  induction l as [|a l IH]; simpl; intros H.
  - exists []. split; [reflexivity | constructor].
  - destruct (H a (or_introl eq_refl)) as (b & E & Hb).
    destruct IH as (bs & E' & Hbs); [intros; apply H; now right|].
    exists (b :: bs). rewrite E, E'. split; [reflexivity | now constructor].
Qed.

Lemma Forall2_In_r {A B : Type} (P : A -> B -> Prop) (l : list A)
      (l' : list B) (b : B) :
  Forall2 P l l' -> In b l' -> exists a, In a l /\ P a b.
Proof.
  induction 1 as [|a b' l l' Hp H IH]; simpl; [contradiction|].
  intros [<-|Hin]; [eauto|].
  destruct (IH Hin) as (x & Hx & Hpx). eauto.
Qed.

Lemma loc1_found (rows : list row) (r : row) :
  NoDup (map label rows) -> In r rows -> loc1 rows (label r) = Some r.
Proof.
  intros Hd Hin. unfold loc1.
  destruct (find (fun x => Nat.eqb (label x) (label r)) rows) as [x|] eqn:E.
  - apply find_some in E. destruct E as [Hx E].
    apply Nat.eqb_eq in E. f_equal.
    apply (NoDup_map_eq label rows); auto.
  - apply (find_none _ _ E) in Hin. now rewrite Nat.eqb_refl in Hin.
Qed.

Lemma latest_df_unfold (dfc : list row) :
  dfc <> [] ->
  latest_df dfc
  = match traverse (fun g => idxmax_date (snd g)) (groupby dfc) with
    | Some labels =>
        match loc dfc labels with
        | Some snapshot => snapshot
        | None => []
        end
    | None => []
    end.
Proof. destruct dfc; [congruence | reflexivity]. Qed.

(** The snapshot holds, for each group key in order, the first row of the
    group with the greatest date. *)
Lemma latest_df_spec (dfc : list row) :
  NoDup (map label dfc) ->
  Forall2 (fun k r => first_latest (group_of k dfc) r)
          (group_keys dfc) (latest_df dfc).
Proof.
  intros Hd.
  assert (Hne : dfc = [] \/ dfc <> [])
    by (destruct dfc; [now left | right; discriminate]).
  destruct Hne as [->|Hne]; [constructor|].
  rewrite latest_df_unfold by assumption.
  assert (Hg : forall g, In g (groupby dfc) ->
                         exists l, idxmax_date (snd g) = Some l /\
                                   exists r, label r = l /\
                                             first_latest (group_of (fst g) dfc) r).
  { intros g Hin. unfold groupby in Hin. apply in_map_iff in Hin.
    destruct Hin as (k & <- & Hk). simpl.
    apply group_keys_In in Hk. destruct Hk as (r & Hr & Ek).
    destruct (idxmax_date_spec (group_of k dfc)) as (x & E & Hx).
    - intros E. assert (H : In r (group_of k dfc)) by now apply group_of_In.
      rewrite E in H. contradiction.
    - eauto. }
  destruct (traverse_Forall2 _ _ _ Hg) as (labels & -> & Hl).
  assert (Hr : forall l, In l labels -> exists r, loc1 dfc l = Some r /\ label r = l /\ In r dfc).
  { intros l Hin.
    destruct (Forall2_In_r _ _ _ l Hl Hin) as (g & Hgin & r & E & Hfl).
    exists r. subst l. split; [|split; [reflexivity|]].
    - apply loc1_found; auto.
      apply first_latest_In in Hfl. now apply group_of_In in Hfl.
    - apply first_latest_In in Hfl. now apply group_of_In in Hfl. }
  unfold loc.
  destruct (traverse_Forall2 (loc1 dfc) (fun l r => label r = l /\ In r dfc)
              labels) as (snapshot & -> & Hs).
  { intros l Hin. destruct (Hr l Hin) as (r & E & H1 & H2). eauto. }
  unfold groupby in Hl.
  clear Hg Hr. revert labels snapshot Hl Hs.
  induction (group_keys dfc) as [|k ks IH]; intros labels snapshot Hl Hs.
  - inversion Hl; subst. inversion Hs; subst. constructor.
  - simpl in Hl. inversion Hl as [|? l ? labels' (r & Er & Hfl) Hl']; subst.
    inversion Hs as [|? x ? snapshot' [Ex Hx] Hs']; subst.
    constructor; [|now apply IH with labels'].
    simpl in Hfl.
    assert (x = r); [|now subst].
    apply (NoDup_map_eq label dfc); auto.
    apply first_latest_In in Hfl. now apply group_of_In in Hfl.
Qed.

Lemma latest_df_locs (dfc : list row) :
  NoDup (map label dfc) -> map rloc (latest_df dfc) = group_keys dfc.
Proof.
  intros Hd. assert (H := latest_df_spec dfc Hd).
  induction H as [|k r ks rs Hfl H IH]; simpl; [reflexivity|].
  rewrite IH. f_equal.
  apply first_latest_In in Hfl. now apply group_of_In in Hfl.
Qed.

Lemma latest_df_In (dfc : list row) (r : row) :
  NoDup (map label dfc) -> In r (latest_df dfc) ->
  In r dfc /\ first_latest (group_of (rloc r) dfc) r.
Proof.
  intros Hd Hin. assert (H := latest_df_spec dfc Hd).
  induction H as [|k x ks rs Hfl H IH]; simpl in Hin; [contradiction|].
  destruct Hin as [->|Hin]; auto.
  assert (Hr := first_latest_In _ _ Hfl). apply group_of_In in Hr.
  destruct Hr as [Hr <-]. auto.
Qed.

Lemma NoDup_map_transfer {A B C : Type} (f : A -> B) (g : A -> C) (l : list A) :
  (forall x y, In x l -> In y l -> g x = g y -> f x = f y) ->
  NoDup (map f l) -> NoDup (map g l).
Proof.
  induction l as [|a l IH]; simpl; intros H Hd; [constructor|].
  inversion Hd as [|? ? Hn Hd']; subst.
  constructor; [|apply IH; auto].
  intros Hin. apply Hn. apply in_map_iff in Hin.
  destruct Hin as (x & E & Hx). apply in_map_iff. exists x. split; auto.
Qed.

Lemma latest_df_locs_unique (dfc : list row) :
  NoDup (map label dfc) -> NoDup (map rloc (latest_df dfc)).
Proof. intros Hd. rewrite latest_df_locs by assumption. apply group_keys_NoDup. Qed.

Lemma latest_df_labels_unique (dfc : list row) :
  NoDup (map label dfc) -> NoDup (map label (latest_df dfc)).
Proof.
  intros Hd.
  apply (NoDup_map_transfer rloc label); [|now apply latest_df_locs_unique].
  intros x y Hx Hy E.
  apply latest_df_In in Hx, Hy; auto.
  f_equal. apply (NoDup_map_eq label dfc); tauto.
Qed.

Lemma latest_df_nil (dfc : list row) :
  NoDup (map label dfc) -> (latest_df dfc = [] <-> dfc = []).
Proof.
  intros Hd. split; [|now intros ->].
  intros E. assert (H := latest_df_locs dfc Hd). rewrite E in H. simpl in H.
  destruct dfc as [|r dfc]; [reflexivity|].
  assert (Hin : In (rloc r) (group_keys (r :: dfc))).
  { apply group_keys_In. exists r. split; [now left | reflexivity]. }
  rewrite <- H in Hin. contradiction.
Qed.

(** ** Running section 6 *)

Lemma bind_read {A : Type} (k : latest -> M A) (s : latest) :
  bind read k s = k s s.
Proof. unfold bind, read. destruct (k s s) as [[? ?] ?]. reflexivity. Qed.

Lemma bind_call {A B : Type} (a : A) (k : A -> M B) (s : latest) :
  bind (call (Some a)) k s = k a s.
Proof. unfold bind, call. destruct (k a s) as [[? ?] ?]. reflexivity. Qed.

Lemma bind_write {A : Type} (s' : latest) (k : unit -> M A) (s : latest) :
  bind (write s') k s = k tt s'.
Proof. unfold bind, write. destruct (k tt s') as [[? ?] ?]. reflexivity. Qed.

Lemma bind_run {A B : Type} (c : M A) (k : A -> M B) (s s1 s2 : latest)
      (out1 out2 : list outcome) (a : A) (r : option B) :
  c s = (s1, out1, Some a) -> k a s1 = (s2, out2, r) ->
  bind c k s = (s2, out1 ++ out2, r).
Proof. intros E1 E2. unfold bind. now rewrite E1, E2. Qed.

(** *** Series over rows *)

Section SeriesOfRows.

Context {L : Type}.
Variable f : row -> L.
Variable g : row -> float.

Lemma first_max_rows (rows : list row) (l : L) (v : float) :
  first_max (map (fun r => (f r, g r)) rows) l v ->
  exists rows1 r rows2,
    rows = rows1 ++ r :: rows2 /\ f r = l /\ g r = v /\ isna v = false /\
    (forall o, In o rows1 -> isna (g o) = true \/ ltb (g o) v = true) /\
    (forall o, In o rows2 -> isna (g o) = true \/ ltb v (g o) = false).
Proof.
  intros (s1 & s2 & E & Hv & H1 & H2).
  apply map_eq_app in E. destruct E as (rows1 & rest & -> & <- & E).
  apply map_eq_cons in E. destruct E as (r & rows2 & -> & [= <- <-] & <-).
  exists rows1, r, rows2. repeat split; auto.
  - intros o Ho. apply (H1 (f o, g o)).
    apply in_map_iff. now exists o.
  - intros o Ho. apply (H2 (f o, g o)).
    apply in_map_iff. now exists o.
Qed.

Lemma rows_first_max (rows1 rows2 : list row) (r : row) :
  isna (g r) = false ->
  (forall o, In o rows1 -> isna (g o) = true \/ ltb (g o) (g r) = true) ->
  (forall o, In o rows2 -> isna (g o) = true \/ ltb (g r) (g o) = false) ->
  first_max (map (fun r => (f r, g r)) (rows1 ++ r :: rows2)) (f r) (g r).
Proof.
  intros Hv H1 H2.
  exists (map (fun r => (f r, g r)) rows1), (map (fun r => (f r, g r)) rows2).
  rewrite map_app. simpl. repeat split; auto.
  - intros p Hp. apply in_map_iff in Hp. destruct Hp as (o & <- & Ho).
    simpl. auto.
  - intros p Hp. apply in_map_iff in Hp. destruct Hp as (o & <- & Ho).
    simpl. auto.
Qed.

End SeriesOfRows.

Lemma cell_found (g : row -> float) (rows : list row) (r : row) :
  NoDup (map label rows) -> In r rows ->
  cell (map (fun r => (label r, g r)) rows) (label r) = Some (g r).
Proof.
  intros Hd Hin. unfold cell.
  destruct (find (fun p => Nat.eqb (fst p) (label r))
              (map (fun r => (label r, g r)) rows)) as [p|] eqn:E.
  - apply find_some in E. destruct E as [Hp E]. apply Nat.eqb_eq in E.
    apply in_map_iff in Hp. destruct Hp as (x & <- & Hx). simpl in *.
    do 2 f_equal. apply (NoDup_map_eq label rows); auto.
  - exfalso.
    assert (H : In (label r, g r) (map (fun r => (label r, g r)) rows))
      by (apply in_map_iff; now exists r).
    apply (find_none _ _ E) in H. simpl in H.
    now rewrite Nat.eqb_refl in H.
Qed.

(** [Series.max] is the value [idxmax] points at. *)
Lemma series_max_first_max {L : Type} (s : series L) (l : L) (v : float) :
  first_max s l v -> series_max s = v.
Proof.
  intros (s1 & s2 & -> & Hv & H1 & H2). unfold series_max.
  rewrite fold_left_app. simpl.
  set (step := fun (acc : float) (p : L * float) =>
                 if isna (snd p) then acc
                 else if isna acc then snd p
                      else if ltb acc (snd p) then snd p else acc).
  assert (Hacc : forall a, isna a = true \/ ltb a v = true ->
                           isna (fold_left step s1 a) = true \/
                           ltb (fold_left step s1 a) v = true).
  { induction s1 as [|p s1 IH]; intros a Ha; simpl; [exact Ha|].
    apply IH; [intros; apply H1; now right|].
    unfold step. destruct (isna (snd p)) eqn:Hnp; [exact Ha|].
    assert (Hp : ltb (snd p) v = true)
      by (destruct (H1 p (or_introl eq_refl)); congruence).
    destruct (isna a) eqn:Hna; [right; exact Hp|].
    destruct (ltb a (snd p)); [right; exact Hp|].
    destruct Ha as [Ha|Ha]; [discriminate | right; exact Ha]. }
  rewrite Hv.
  assert (Hmid : (if isna (fold_left step s1 nan) then v
                  else if ltb (fold_left step s1 nan) v then v
                       else fold_left step s1 nan) = v).
  { destruct (Hacc nan (or_introl eq_refl)) as [-> | Hlt]; [reflexivity|].
    rewrite Hlt. destruct (isna (fold_left step s1 nan)); reflexivity. }
  fold step. rewrite Hmid.
  clear - Hv H2. induction s2 as [|p s2 IH]; simpl; [reflexivity|].
  assert (E : step v p = v).
  { unfold step. destruct (H2 p (or_introl eq_refl)) as [Hp|Hp].
    - now rewrite Hp.
    - rewrite Hv, Hp. now destruct (isna (snd p)). }
  rewrite E. apply IH. intros; apply H2; now right.
Qed.

Lemma any_notna_column (g : row -> float) (rows : list row) :
  any_notna (map (fun r => (label r, g r)) rows)
  = existsb (fun r => notna (g r)) rows.
Proof.
  unfold any_notna. induction rows as [|r rows IH]; simpl;
    [reflexivity | now rewrite IH].
Qed.

(** *** The safe-division policy *)

Lemma safe_rate_notna (num den : float) : isna (safe_rate num den) = false.
Proof.
  unfold safe_rate, fillna.
  destruct (isna (if ltb zero (if isna den then zero else den)
                  then mul (div (if isna num then zero else num) den) hundred
                  else zero)) eqn:E; [reflexivity | exact E].
Qed.

Lemma safe_rate_guard (num den : float) :
  ltb zero (fillna zero den) = false -> safe_rate num den = zero.
Proof. intros H. unfold safe_rate. now rewrite H. Qed.

(** *** The queries, one by one *)

Lemma raw_query_run (q : query) (m : metric) (columns : list metric)
      (s : latest) :
  NoDup (map label (snap s)) ->
  exists o,
    raw_query q m columns s = (s, [o], Some tt) /\
    raw_outcome q m columns (snap s) o.
Proof.
  intros Hd. unfold raw_query, raw_outcome. rewrite bind_read.
  destruct (has m columns && any_notna (column m (snap s))) eqn:C.
  - apply andb_true_iff in C. destruct C as [_ C].
    destruct (idxmax_defined _ C) as (l & El).
    destruct (idxmax_first_max _ _ El) as (v & Hfm).
    destruct (first_max_rows label (rget m) _ _ _ Hfm)
      as (rows1 & r & rows2 & E & <- & <- & Hv & H1 & H2).
    assert (Hin : In r (snap s))
      by (rewrite E; apply in_or_app; right; now left).
    rewrite El, bind_call, (loc1_found _ _ Hd Hin), bind_call.
    exists (Insight q (rloc r) (rget m r)). split; [reflexivity|].
    exists (rloc r), (rget m r). split; [reflexivity|].
    unfold by_location. rewrite E.
    now apply (rows_first_max rloc (rget m)).
  - exists (Skipped q MissingOrAllNaN). split; reflexivity.
Qed.

Lemma rate_insight (q : query) (num den : metric) (s s' : latest) :
  NoDup (map label (snap s)) -> snap s <> [] ->
  exists k v,
    (l <- call (idxmax (rate_column num den (snap s))) ;;
     top <- call (loc1 (snap s) l) ;;
     x <- call (cell (rate_column num den (snap s)) l) ;;
     print (Insight q (rloc top) x)) s'
    = (s', [Insight q k v], Some tt) /\
    first_max (by_location (rate_of num den) (snap s)) k v.
Proof.
  intros Hd Hne.
  assert (C : any_notna (rate_column num den (snap s)) = true).
  { unfold rate_column. rewrite any_notna_column.
    destruct (snap s) as [|r rows]; [congruence|]. simpl.
    unfold notna. now rewrite safe_rate_notna. }
  destruct (idxmax_defined _ C) as (l & El).
  destruct (idxmax_first_max _ _ El) as (v & Hfm).
  destruct (first_max_rows label (rate_of num den) _ _ _ Hfm)
    as (rows1 & r & rows2 & E & <- & <- & Hv & H1 & H2).
  assert (Hin : In r (snap s))
    by (rewrite E; apply in_or_app; right; now left).
  rewrite El, bind_call, (loc1_found _ _ Hd Hin), bind_call.
  change (rate_column num den (snap s))
    with (map (fun r => (label r, rate_of num den r)) (snap s)).
  rewrite (cell_found (rate_of num den) _ _ Hd Hin), bind_call.
  exists (rloc r), (rate_of num den r). split; [reflexivity|].
  unfold by_location. rewrite E.
  now apply (rows_first_max rloc (rate_of num den)).
Qed.

Lemma rate_column_any (num den : metric) (rows : list row) :
  any_notna (rate_column num den rows)
  = match rows with [] => false | _ :: _ => true end.
Proof.
  unfold rate_column. rewrite any_notna_column.
  destruct rows as [|r rows]; [reflexivity|]. simpl.
  unfold notna. now rewrite safe_rate_notna.
Qed.

Lemma death_rate_query_run (columns : list metric) (s : latest) :
  NoDup (map label (snap s)) ->
  exists o,
    death_rate_query columns s
    = (mkLatest (snap s) (vax_percentage s)
         (if has total_deaths columns && has total_cases columns
          then Some (rate_column total_deaths total_cases (snap s))
          else death_rate s)
         (vax_rate s), [o], Some tt) /\
    rate_outcome HighestDeathRate total_deaths total_cases columns (snap s) o.
Proof.
  intros Hd. unfold death_rate_query, rate_outcome. rewrite bind_read.
  destruct (has total_deaths columns && has total_cases columns).
  - rewrite bind_write, rate_column_any.
    assert (Hins := rate_insight HighestDeathRate total_deaths total_cases s
                      (mkLatest (snap s) (vax_percentage s)
                         (Some (rate_column total_deaths total_cases (snap s)))
                         (vax_rate s)) Hd).
    destruct (snap s) as [|r rows].
    + exists (Skipped HighestDeathRate AllNaN). split; reflexivity.
    + destruct Hins as (k & v & Er & Hfm); [discriminate|].
      rewrite Er. exists (Insight HighestDeathRate k v).
      split; [reflexivity | eauto].
  - exists (Skipped HighestDeathRate ColumnsMissing).
    split; [now destruct s | reflexivity].
Qed.

Lemma vax_rate_query_run (columns : list metric) (s : latest) :
  NoDup (map label (snap s)) ->
  exists o,
    vax_rate_query columns s
    = (mkLatest (snap s) (vax_percentage s) (death_rate s)
         (if has people_vaccinated columns && has population columns
          then Some (rate_column people_vaccinated population (snap s))
          else vax_rate s), [o], Some tt) /\
    rate_outcome HighestVaccinationRate people_vaccinated population columns
                 (snap s) o.
Proof.
  intros Hd. unfold vax_rate_query, rate_outcome. rewrite bind_read.
  destruct (has people_vaccinated columns && has population columns).
  - rewrite bind_write, rate_column_any.
    assert (Hins := rate_insight HighestVaccinationRate people_vaccinated
                      population s
                      (mkLatest (snap s) (vax_percentage s) (death_rate s)
                         (Some (rate_column people_vaccinated population
                                  (snap s))))
                      Hd).
    destruct (snap s) as [|r rows].
    + exists (Skipped HighestVaccinationRate AllNaN). split; reflexivity.
    + destruct Hins as (k & v & Er & Hfm); [discriminate|].
      rewrite Er. exists (Insight HighestVaccinationRate k v).
      split; [reflexivity | eauto].
  - exists (Skipped HighestVaccinationRate ColumnsMissing).
    split; [now destruct s | reflexivity].
Qed.

Lemma dropna_notna {L : Type} (s : series L) (p : L * float) :
  In p (dropna s) -> isna (snd p) = false.
Proof.
  unfold dropna. intros H. apply filter_In in H. destruct H as [_ H].
  unfold notna in H. now apply negb_true_iff.
Qed.

Lemma avg_new_cases_query_run (columns : list metric) (dfc : list row)
      (s : latest) :
  exists o,
    avg_new_cases_query columns dfc s = (s, [o], Some tt) /\
    avg_outcome columns dfc o.
Proof.
  unfold avg_new_cases_query, avg_outcome.
  destruct (has new_cases columns); [|eexists; split; reflexivity].
  destruct (max_date dfc) as [md|]; [|eexists; split; reflexivity].
  destruct (last_month_df dfc md) as [|r0 lm]; [eexists; split; reflexivity|].
  destruct (avg_new_cases dfc md) as [|p avg] eqn:Ea;
    [eexists; split; reflexivity|].
  assert (C : any_notna (p :: avg) = true).
  { simpl. unfold notna.
    rewrite (dropna_notna (group_mean new_cases (last_month_df dfc md)) p);
      [reflexivity|].
    unfold avg_new_cases in Ea. rewrite Ea. now left. }
  destruct (idxmax_defined _ C) as (k & Ek).
  destruct (idxmax_first_max _ _ Ek) as (v & Hfm).
  rewrite Ek, bind_call, (series_max_first_max _ _ _ Hfm).
  exists (Insight HighestAvgNewCases k v). split; [reflexivity | eauto].
Qed.

(** Section 6 never raises. On an empty snapshot it prints line 327; on any
    other it prints one line per query and leaves the rate columns. *)
Lemma key_insights_run (columns : list metric) (dfc : list row) (s : latest) :
  NoDup (map label (snap s)) ->
  match snap s with
  | [] => key_insights columns dfc s = (s, [NoInsights], Some tt)
  | _ :: _ =>
      exists o1 o2 o3 o4 o5,
      key_insights columns dfc s
      = (with_rates columns s, [o1; o2; o3; o4; o5], Some tt) /\
      raw_outcome HighestTotalCases total_cases columns (snap s) o1 /\
      rate_outcome HighestDeathRate total_deaths total_cases columns
                   (snap s) o2 /\
      rate_outcome HighestVaccinationRate people_vaccinated population
                   columns (snap s) o3 /\
      avg_outcome columns dfc o4 /\
      raw_outcome HighestDeathsPerMillion total_deaths_per_million columns
                  (snap s) o5
  end.
Proof.
  intros Hd.
  destruct (raw_query_run HighestTotalCases total_cases columns s Hd)
    as (o1 & E1 & S1).
  destruct (death_rate_query_run columns s Hd) as (o2 & E2 & S2).
  set (s2 := mkLatest (snap s) (vax_percentage s)
               (if has total_deaths columns && has total_cases columns
                then Some (rate_column total_deaths total_cases (snap s))
                else death_rate s)
               (vax_rate s)) in *.
  destruct (vax_rate_query_run columns s2 Hd) as (o3 & E3 & S3).
  change (snap s2) with (snap s) in *.
  change (death_rate s2) with
    (if has total_deaths columns && has total_cases columns
     then Some (rate_column total_deaths total_cases (snap s))
     else death_rate s) in *.
  change (vax_rate s2) with (vax_rate s) in *.
  change (vax_percentage s2) with (vax_percentage s) in *.
  fold (with_rates columns s) in E3.
  destruct (avg_new_cases_query_run columns dfc (with_rates columns s))
    as (o4 & E4 & S4).
  destruct (raw_query_run HighestDeathsPerMillion total_deaths_per_million
              columns (with_rates columns s) Hd) as (o5 & E5 & S5).
  change (snap (with_rates columns s)) with (snap s) in S5.
  assert (Hbody :
    (raw_query HighestTotalCases total_cases columns ;;
     death_rate_query columns ;;
     vax_rate_query columns ;;
     avg_new_cases_query columns dfc ;;
     raw_query HighestDeathsPerMillion total_deaths_per_million columns) s
    = (with_rates columns s, [o1; o2; o3; o4; o5], Some tt)).
  { eapply (bind_run _ _ s s _ [o1] [o2; o3; o4; o5]); [exact E1|].
    eapply (bind_run _ _ s s2 _ [o2] [o3; o4; o5]); [exact E2|].
    eapply (bind_run _ _ s2 _ _ [o3] [o4; o5]); [exact E3|].
    eapply (bind_run _ _ _ _ _ [o4] [o5]); [exact E4|].
    exact E5. }
  unfold key_insights, try_except. rewrite bind_read.
  destruct (snap s) as [|r rows]; [reflexivity|].
  exists o1, o2, o3, o4, o5. rewrite Hbody. auto 10.
Qed.

(** ** The pipeline *)

Lemma run_df_countries (columns : list metric) (file : list record) :
  df_countries (run columns file) = cleaned columns file.
Proof.
  unfold run, cleaned.
  destruct (key_insights _ _ _) as [[s out] r]. reflexivity.
Qed.

Lemma cleaned_labels_unique (columns : list metric) (file : list record) :
  NoDup (map label (cleaned columns file)).
Proof.
  unfold cleaned, fill_missing. rewrite fill_loop_labels.
  apply select_countries_labels_unique, read_csv_labels_unique.
Qed.

Lemma before_insights_snap (columns : list metric) (dfc : list row) :
  snap (before_insights columns dfc) = latest_df dfc.
Proof.
  unfold before_insights, vaccination_analysis, initial_latest. simpl.
  destruct (has people_vaccinated columns); [|reflexivity].
  destruct (latest_df dfc); [reflexivity|].
  now destruct (has population columns && true).
Qed.

Lemma before_insights_rates (columns : list metric) (dfc : list row) :
  death_rate (before_insights columns dfc) = None /\
  vax_rate (before_insights columns dfc) = None.
Proof.
  unfold before_insights, vaccination_analysis, initial_latest. simpl.
  destruct (has people_vaccinated columns); [|auto].
  destruct (latest_df dfc); [auto|].
  now destruct (has population columns && true).
Qed.

Lemma run_unfold (columns : list metric) (file : list record) :
  let dfc := cleaned columns file in
  match latest_df dfc with
  | [] =>
      run columns file = mkAnalysis dfc (before_insights columns dfc) [NoInsights]
  | _ :: _ =>
      exists o1 o2 o3 o4 o5,
      run columns file
      = mkAnalysis dfc (with_rates columns (before_insights columns dfc))
                   [o1; o2; o3; o4; o5] /\
      raw_outcome HighestTotalCases total_cases columns (latest_df dfc) o1 /\
      rate_outcome HighestDeathRate total_deaths total_cases columns
                   (latest_df dfc) o2 /\
      rate_outcome HighestVaccinationRate people_vaccinated population
                   columns (latest_df dfc) o3 /\
      avg_outcome columns dfc o4 /\
      raw_outcome HighestDeathsPerMillion total_deaths_per_million columns
                  (latest_df dfc) o5
  end.
Proof.
  intros dfc.
  assert (Es : snap (before_insights columns dfc) = latest_df dfc)
    by apply before_insights_snap.
  assert (Hd : NoDup (map label (snap (before_insights columns dfc)))).
  { rewrite Es. apply latest_df_labels_unique, cleaned_labels_unique. }
  assert (H := key_insights_run columns dfc (before_insights columns dfc) Hd).
  unfold run. fold (cleaned columns file). fold dfc.
  fold (before_insights columns dfc).
  rewrite Es in H.
  destruct (latest_df dfc) as [|r rows].
  - now rewrite H.
  - destruct H as (o1 & o2 & o3 & o4 & o5 & E & H).
    exists o1, o2, o3, o4, o5. now rewrite E.
Qed.

Lemma run_snap (columns : list metric) (file : list record) :
  snap (LATEST_DF (run columns file)) = latest_df (cleaned columns file).
Proof.
  assert (H := run_unfold columns file). simpl in H.
  destruct (latest_df (cleaned columns file)) as [|r rows] eqn:E.
  - rewrite H. simpl. now rewrite before_insights_snap.
  - destruct H as (o1 & o2 & o3 & o4 & o5 & -> & _). simpl.
    now rewrite before_insights_snap.
Qed.

(** ** Safe division (C1) *)

Lemma hundred_eq : hundred = S754_finite false 7036874417766400 (-46).
Proof. reflexivity. Qed.

Lemma is_negative_sign_clear (x : float) :
  sign_clear x -> is_negative x = false.
Proof.
  destruct x as [s|s| |s m e]; simpl; intros H; subst; try reflexivity;
    now destruct s.
Qed.

Lemma sign_clear_is_negative (x : float) :
  is_negative x = false -> sign_clear x.
Proof.
  destruct x as [s|s| |s m e]; simpl; auto; destruct s; auto; discriminate.
Qed.

Lemma binary_round_aux_sign (m e : Z) (l : SpecFloat.location) :
  sign_clear (binary_round_aux prec emax false m e l).
Proof.
  unfold binary_round_aux.
  destruct (shr_fexp prec emax m e l) as [mrs e'].
  destruct (shr_fexp prec emax _ e' loc_Exact) as [mrs' e''].
  destruct (shr_m mrs'); simpl; auto.
  destruct (e'' <=? 971); simpl; auto.
Qed.

Lemma div_sign_clear (x y : float) :
  sign_clear x -> ltb zero y = true -> sign_clear (div x y).
Proof.
  intros Hx Hy.
  destruct y as [sy|sy| |sy my ey]; try destruct sy; try discriminate;
    destruct x as [sx|sx| |sx mx ex]; simpl in Hx; subst; simpl; auto.
  unfold div, SFdiv.
  destruct (SFdiv_core_binary prec emax (Zpos mx) ex (Zpos my) ey)
    as [[mz ez] lz].
  apply binary_round_aux_sign.
Qed.

Lemma mul_hundred_sign_clear (x : float) :
  sign_clear x -> sign_clear (mul x hundred).
Proof.
  rewrite hundred_eq.
  destruct x as [sx|sx| |sx mx ex]; simpl; intros H; subst; auto.
  apply binary_round_aux_sign.
Qed.

Lemma safe_rate_policy (num den : float) :
  rate_policy num den (safe_rate num den).
Proof.
  unfold rate_policy. split; [|split].
  - intros H. apply safe_rate_guard.
    destruct den as [s|s| |s m e]; try destruct s; simpl in *;
      try reflexivity; destruct H as [H|[H|H]]; discriminate.
  - apply safe_rate_notna.
  - intros H. apply is_negative_sign_clear.
    unfold safe_rate.
    destruct (ltb zero (fillna zero den)) eqn:G; [|exact I].
    assert (Hden : fillna zero den = den).
    { unfold fillna. destruct (isna den) eqn:E; [|reflexivity].
      unfold fillna in G. rewrite E in G. discriminate. }
    rewrite Hden in G.
    assert (Hn : sign_clear (fillna zero num)).
    { unfold fillna. destruct (isna num); [exact I|].
      now apply sign_clear_is_negative. }
    assert (Hr := mul_hundred_sign_clear _ (div_sign_clear _ _ Hn G)).
    unfold fillna. destruct (isna _); [exact I | exact Hr].
Qed.

Lemma rate_column_policy (num den : metric) (rows : list row) :
  rates_follow_policy num den rows (rate_column num den rows).
Proof.
  unfold rates_follow_policy, rate_column.
  induction rows as [|r rows IH]; simpl; constructor; auto.
  split; [reflexivity | apply safe_rate_policy].
Qed.

Lemma run_rate_columns (columns : list metric) (file : list record) :
  let s := LATEST_DF (run columns file) in
  (forall col, death_rate s = Some col ->
               col = rate_column total_deaths total_cases (snap s)) /\
  (forall col, vax_rate s = Some col ->
               col = rate_column people_vaccinated population (snap s)).
Proof.
  assert (H := run_unfold columns file). simpl in H. simpl.
  destruct (before_insights_rates columns (cleaned columns file)) as [Rd Rv].
  destruct (latest_df (cleaned columns file)) as [|r rows] eqn:E.
  - rewrite H. simpl. rewrite Rd, Rv. split; discriminate.
  - destruct H as (o1 & o2 & o3 & o4 & o5 & -> & _). simpl.
    rewrite Rd, Rv.
    split; intros col.
    + destruct (has total_deaths columns && has total_cases columns);
        [congruence | discriminate].
    + destruct (has people_vaccinated columns && has population columns);
        [congruence | discriminate].
Qed.

(** C1 (as amended). For every run and every row of the snapshot, the
    death rate (from total_deaths and total_cases) and the vaccination rate
    (from people_vaccinated and population) that section 6 attaches are 0
    when the denominator is missing, zero or negative, are never missing
    (NaN), and are not negative whenever the numerator is missing or not
    negative. *)
Theorem snapshot_rates_safe_division (columns : list metric)
        (file : list record) :
  let s := LATEST_DF (run columns file) in
  (forall col, death_rate s = Some col ->
               rates_follow_policy total_deaths total_cases (snap s) col) /\
  (forall col, vax_rate s = Some col ->
               rates_follow_policy people_vaccinated population (snap s) col).
Proof.
  destruct (run_rate_columns columns file) as [Hd Hv]. simpl in *.
  split; intros col E.
  - rewrite (Hd col E). apply rate_column_policy.
  - rewrite (Hv col E). apply rate_column_policy.
Qed.

(** The snapshot of the example file has a death rate for India (label 4,
    no deaths reported: 0) and for Kenya (label 5: 30 of 300 is 10). *)
Lemma snapshot_rates_safe_division_witness :
  rates_follow_policy total_deaths total_cases
    (snap (LATEST_DF (run all_columns kenya_gap)))
    [(4%nat, zero); (5%nat, of_Z 10)].
Proof.
  apply (proj1 (snapshot_rates_safe_division all_columns kenya_gap)).
  vm_compute. reflexivity.
Defined.

(** C1 (as stated) fails: a negative death count gives a negative rate, and
    a quotient too large for a float64 gives an infinite one. *)
Lemma snapshot_rate_negative_or_infinite :
  death_rate (LATEST_DF (run all_columns negative_deaths))
  = Some [(0%nat, of_Z (-100))] /\
  is_negative (of_Z (-100)) = true /\
  death_rate (LATEST_DF (run all_columns huge_deaths))
  = Some [(0%nat, S754_infinity false)] /\
  is_inf (S754_infinity false) = true.
Proof. vm_compute. repeat split; reflexivity. Qed.

(** ** Forward fill (C2, C6) *)

Lemma In_split_unique {A : Type} (x : A) (l : list A) :
  NoDup l -> In x l ->
  exists pre post, l = pre ++ x :: post /\ ~ In x pre /\ ~ In x post.
Proof.
  intros Hd Hin. destruct (in_split _ _ Hin) as (pre & post & ->).
  exists pre, post. split; [reflexivity|].
  apply NoDup_remove_2 in Hd.
  split; intros H; apply Hd; apply in_or_app; [now left | now right].
Qed.

Lemma key_metrics_NoDup : NoDup key_metrics.
Proof.
  unfold key_metrics.
  repeat (constructor; [simpl; intuition discriminate|]). constructor.
Qed.

(** The column the loop leaves for a key metric is the transform of the
    raw column: the other turns of the loop do not touch it. *)
Lemma fill_missing_column (columns : list metric) (raw : list row)
      (m : metric) :
  In m key_metrics -> has m columns = true ->
  map (rget m) (fill_missing columns raw)
  = map (series_at (transform_ffill m raw)) (map label raw).
Proof.
  intros Hin Hhas.
  destruct (In_split_unique m key_metrics key_metrics_NoDup Hin)
    as (pre & post & E & Hpre & Hpost).
  unfold fill_missing. rewrite E, fold_left_app. simpl.
  rewrite fill_loop_get_other by assumption.
  unfold fill_metric at 1. rewrite Hhas.
  rewrite assign_get_same, fill_loop_labels.
  rewrite (transform_ext m _ raw);
    auto using fill_loop_labels, fill_loop_locs, fill_loop_get_other.
Qed.

(** Whatever the order of the file, the fill follows it: a filled cell holds
    the last valid value among the rows of its location that stand at or
    before it in the frame. *)
Lemma fill_follows_frame_order (columns : list metric) (file : list record)
      (m : metric) (pre post : list row) (r : row) :
  In m key_metrics -> has m columns = true ->
  select_countries (read_csv file) = pre ++ r :: post ->
  exists r',
    nth_error (cleaned columns file) (List.length pre) = Some r' /\
    rget m r'
    = last_valid (map (rget m) (group_of (rloc r) pre ++ [r])) nan.
Proof.
  intros Hin Hhas E.
  assert (Hd : NoDup (map label (pre ++ r :: post))).
  { rewrite <- E.
    apply select_countries_labels_unique, read_csv_labels_unique. }
  assert (Hv := fill_missing_column columns (pre ++ r :: post) m Hin Hhas).
  unfold cleaned. rewrite E. rewrite map_map in Hv.
  assert (Hr : nth_error (pre ++ r :: post) (List.length pre) = Some r)
    by (rewrite nth_error_app2, Nat.sub_diag by lia; reflexivity).
  destruct (nth_error (fill_missing columns (pre ++ r :: post))
              (List.length pre)) as [r'|] eqn:Hr'.
  - exists r'. split; [reflexivity|].
    rewrite (nth_error_map_eq (rget m) _ _ _ _ r' r Hv Hr' Hr).
    now apply filled_value.
  - exfalso. apply nth_error_None in Hr'.
    assert (Hl : List.length (fill_missing columns (pre ++ r :: post))
                 = List.length (pre ++ r :: post)).
    { rewrite <- (length_map label). unfold fill_missing.
      rewrite fill_loop_labels. apply length_map. }
    rewrite Hl, length_app in Hr'. simpl in Hr'. lia.
Qed.

(** So in a file that lists a later day first, the earlier day is filled
    from the later one. *)
Example fill_follows_row_order_example :
  map (fun r => (rdate r, rget total_cases r)) (cleaned all_columns unsorted)
  = [(2, of_Z 200); (1, of_Z 200)].
Proof. reflexivity. Qed.

(** The file lists Kenya's day 2, with total_cases 200, before Kenya's
    day 1, with none.  No record of Kenya has a value at a date up to day 1,
    and yet the fill gives day 1 the 200 of day 2: the filled values are not
    the most recent values by date. *)
Lemma forward_fill_takes_later_value :
  In total_cases key_metrics /\ has total_cases all_columns = true /\
  map (fun r => (rdate r, rget total_cases r)) (selected unsorted)
  = [(2, of_Z 200); (1, nan)] /\
  map (fun r => (rdate r, rget total_cases r))
      (df_countries (run all_columns unsorted))
  = [(2, of_Z 200); (1, of_Z 200)] /\
  ~ filled_by_date all_columns unsorted total_cases.
Proof.
  split; [simpl; auto|]. split; [reflexivity|].
  split; [reflexivity|]. split; [reflexivity|].
  unfold filled_by_date. intros H.
  inversion H as [|r1 r1' raw1 out1 _ H2 E1 E2]. subst.
  inversion H2 as [|r2 r2' raw2 out2 (_ & _ & _ & Hv) _ E3 E4]. subst.
  destruct Hv as [(src & Hsrc & _ & Hle & Hna & _)|(_ & Hna)].
  - destruct Hsrc as [<-|[<-|[]]].
    + vm_compute in Hle. now apply Hle.
    + discriminate Hna.
  - discriminate Hna.
Qed.

(** C2, for dates in ascending order.  Take a file in which the records of
    every location come in strictly ascending date order (the data model's
    Series), a key metric [m] the file has, and any record [r] of the
    per-country frame.  The filled frame has the same rows in the same
    order, and the filled value of [r] is the raw value of the record of
    [r]'s location that has the greatest date among those with a
    non-missing value and a date not after [r]'s; when there is no such
    record the filled value stays missing.  So the fill takes nothing from
    a later date or from another location. *)
Theorem forward_fill_causality (columns : list metric) (file : list record)
        (m : metric) :
  dates_ascending file = true ->
  In m key_metrics ->
  has m columns = true ->
  filled_by_date columns file m.
Proof.
  intros Hasc Hin Hhas. unfold filled_by_date.
  set (raw := select_countries (read_csv file)).
  rewrite run_df_countries. unfold cleaned. fold raw.
  assert (Hd : NoDup (map label raw))
    by apply select_countries_labels_unique, read_csv_labels_unique.
  assert (Hl : map label (fill_missing columns raw) = map label raw)
    by apply fill_loop_labels.
  assert (Hk : map rloc (fill_missing columns raw) = map rloc raw)
    by apply fill_loop_locs.
  assert (Ht : map rdate (fill_missing columns raw) = map rdate raw)
    by apply fill_loop_dates.
  assert (Hv := fill_missing_column columns raw m Hin Hhas).
  rewrite map_map in Hv.
  apply Forall2_columns.
  - rewrite <- (length_map label), Hl. apply length_map.
  - intros i r r' Hr Hr'.
    split; [exact (nth_error_map_eq label label _ _ i r' r Hl Hr' Hr)|].
    split; [exact (nth_error_map_eq rloc rloc _ _ i r' r Hk Hr' Hr)|].
    split; [exact (nth_error_map_eq rdate rdate _ _ i r' r Ht Hr' Hr)|].
    assert (E : rget m r' = series_at (transform_ffill m raw) (label r))
      by exact (nth_error_map_eq (rget m) _ _ _ i r' r Hv Hr' Hr).
    rewrite E. apply transform_most_recent; auto.
    + now apply select_countries_ascending.
    + eapply nth_error_In; eauto.
Qed.

(** On the example file Kenya's total_cases 100, missing, 300 become
    100, 100, 300, and nothing flows into India's rows. *)
Lemma forward_fill_causality_witness :
  filled_by_date all_columns kenya_gap total_cases.
Proof.
  apply (forward_fill_causality all_columns kenya_gap total_cases).
  - reflexivity.
  - simpl. auto.
  - reflexivity.
Defined.

Lemma fill_loop_absorb (columns ms : list metric) (rows : list row)
      (m : metric) :
  NoDup (map label rows) -> In m ms ->
  fill_metric columns (fold_left (fill_metric columns) ms rows) m
  = fold_left (fill_metric columns) ms rows.
Proof.
  revert rows. induction ms as [|m' ms IH]; intros rows Hd Hin; simpl;
    [contradiction|].
  destruct (metric_eq_dec m' m) as [->|Hne].
  - rewrite fill_loop_comm, fill_metric_idem by assumption. reflexivity.
  - destruct Hin as [E|Hin]; [contradiction|].
    apply IH; [now rewrite fill_metric_labels | assumption].
Qed.

(** C6. Filling the filled per-country frame again changes nothing: the
    whole loop over the key metrics returns its input, and so does the
    per-location forward fill of each key metric alone. *)
Theorem forward_fill_idempotent (columns : list metric) (file : list record) :
  let filled := df_countries (run columns file) in
  fill_missing columns filled = filled /\
  forall m, In m key_metrics -> fill_metric columns filled m = filled.
Proof.
  simpl. rewrite run_df_countries. unfold cleaned.
  assert (Hd : NoDup (map label (select_countries (read_csv file))))
    by apply select_countries_labels_unique, read_csv_labels_unique.
  split.
  - now apply fill_loop_idem.
  - intros m Hin. now apply fill_loop_absorb.
Qed.

(** Filling total_cases once more on the filled example frame returns it. *)
Lemma forward_fill_idempotent_witness :
  fill_metric all_columns (df_countries (run all_columns kenya_gap))
              total_cases
  = df_countries (run all_columns kenya_gap).
Proof.
  apply (proj2 (forward_fill_idempotent all_columns kenya_gap) total_cases).
  simpl. auto.
Defined.

(** ** The snapshot (C3, C8) *)

Lemma group_of_unique (k : string) (rows : list row) (r : row) :
  NoDup (map rloc rows) -> In r rows -> rloc r = k -> group_of k rows = [r].
Proof.
  induction rows as [|x rows IH]; simpl; intros Hd Hin E; [contradiction|].
  inversion Hd as [|? ? Hn Hd']; subst.
  destruct Hin as [->|Hin].
  - rewrite String.eqb_refl. f_equal.
    destruct (group_of (rloc r) rows) as [|y g] eqn:Eg; [reflexivity|].
    exfalso. apply Hn.
    assert (Hy : In y (group_of (rloc r) rows)) by (rewrite Eg; now left).
    apply group_of_In in Hy. destruct Hy as [Hy <-]. now apply in_map.
  - destruct (String.eqb_spec (rloc x) (rloc r)) as [Ex|Ex].
    + exfalso. apply Hn. rewrite Ex. now apply in_map.
    + now apply IH.
Qed.

Lemma group_of_absent (k : string) (rows : list row) :
  ~ In k (map rloc rows) -> group_of k rows = [].
Proof.
  intros Hn. destruct (group_of k rows) as [|y g] eqn:Eg; [reflexivity|].
  exfalso. apply Hn.
  assert (Hy : In y (group_of k rows)) by (rewrite Eg; now left).
  apply group_of_In in Hy. destruct Hy as [Hy <-]. now apply in_map.
Qed.

(** C3. For every location that has records in the filled per-country
    frame, the snapshot holds exactly one row of that location; it is one of
    the location's records, and no record of the location has a later date.
    A location without records has no row in the snapshot. *)
Theorem snapshot_correct (columns : list metric) (file : list record)
        (k : string) :
  let dfc := df_countries (run columns file) in
  let snapshot := snap (LATEST_DF (run columns file)) in
  ((exists r, In r dfc /\ rloc r = k) ->
   exists r,
     group_of k snapshot = [r] /\ In r dfc /\ rloc r = k /\
     forall o, In o dfc -> rloc o = k -> rdate o <= rdate r) /\
  ((forall r, In r dfc -> rloc r <> k) -> group_of k snapshot = []).
Proof.
  simpl. rewrite run_df_countries, run_snap.
  set (dfc := cleaned columns file).
  assert (Hd : NoDup (map label dfc)) by apply cleaned_labels_unique.
  assert (Hlocs := latest_df_locs dfc Hd).
  split.
  - intros Hk. apply group_keys_In in Hk. rewrite <- Hlocs in Hk.
    apply in_map_iff in Hk. destruct Hk as (r & Er & Hr).
    exists r. destruct (latest_df_In dfc r Hd Hr) as [Hin Hfl].
    split; [|split; [exact Hin | split; [exact Er|]]].
    + apply group_of_unique; auto. now apply latest_df_locs_unique.
    + intros o Ho Eo. apply (first_latest_max _ _ _ Hfl).
      apply group_of_In. split; [exact Ho | congruence].
  - intros Hnone. apply group_of_absent. rewrite Hlocs.
    intros Hk. apply group_keys_In in Hk. destruct Hk as (r & Hr & Er).
    now apply (Hnone r).
Qed.

Lemma snapshot_correct_witness :
  exists r,
    group_of "Kenya" (snap (LATEST_DF (run all_columns kenya_gap))) = [r] /\
    In r (df_countries (run all_columns kenya_gap)) /\
    rloc r = "Kenya"%string /\
    forall o, In o (df_countries (run all_columns kenya_gap)) ->
              rloc o = "Kenya"%string -> rdate o <= rdate r.
Proof.
  apply (proj1 (snapshot_correct all_columns kenya_gap "Kenya")).
  exists (mkRow 0 (sample "Kenya" 1 (of_Z 100) (of_Z 1) (of_Z 10))).
  split; [|reflexivity].
  vm_compute. left. reflexivity.
Defined.

(** C8 (as amended). The snapshot row of a location is the first of the
    location's records, in input order, that holds the greatest date: every
    record of the location before it has a strictly earlier date, none after
    it has a later one.  When several records share the greatest date, the
    first occurrence wins. *)
Theorem snapshot_first_occurrence_wins (columns : list metric)
        (file : list record) (r : row) :
  In r (snap (LATEST_DF (run columns file))) ->
  first_latest (group_of (rloc r) (df_countries (run columns file))) r.
Proof.
  rewrite run_df_countries, run_snap. intros Hin.
  apply latest_df_In; [apply cleaned_labels_unique | exact Hin].
Qed.

Lemma snapshot_first_occurrence_wins_witness :
  first_latest
    (group_of "Kenya" (df_countries (run all_columns same_day)))
    (mkRow 0 (sample "Kenya" 5 (of_Z 100) nan nan)).
Proof.
  apply (snapshot_first_occurrence_wins all_columns same_day
           (mkRow 0 (sample "Kenya" 5 (of_Z 100) nan nan))).
  vm_compute. left. reflexivity.
Defined.

(** C8 (as stated) fails: of two Kenya records on day 5 the snapshot keeps
    the first (label 0), not the last (label 1). *)
Lemma snapshot_last_occurrence_fails :
  ~ last_occurrence_wins (df_countries (run all_columns same_day))
      (snap (LATEST_DF (run all_columns same_day))).
Proof.
  intros H.
  specialize (H (mkRow 0 (sample "Kenya" 5 (of_Z 100) nan nan))
                (mkRow 1 (sample "Kenya" 5 (of_Z 200) nan nan))).
  assert (Hle : (1 <= 0)%nat).
  { apply H; vm_compute; auto. }
  lia.
Qed.

(** ** The windowed average (C4) *)

Lemma fold_max_ge (zs : list Z) :
  forall a, a <= fold_left Z.max zs a /\
            forall z, In z zs -> z <= fold_left Z.max zs a.
Proof.
  induction zs as [|x zs IH]; intros a; simpl.
  - split; [lia | intros z []].
  - destruct (IH (Z.max a x)) as [H1 H2]. split; [lia|].
    intros z [<-|Hz]; [lia | auto].
Qed.

Lemma fold_max_In (zs : list Z) :
  forall a, fold_left Z.max zs a = a \/ In (fold_left Z.max zs a) zs.
Proof.
  induction zs as [|x zs IH]; intros a; simpl; [now left|].
  destruct (IH (Z.max a x)) as [E|Hin]; [|now right; right].
  rewrite E. destruct (Z.max_spec a x) as [[_ ->]|[_ ->]]; auto.
Qed.

Lemma max_date_spec (rows : list row) (md : Z) :
  max_date rows = Some md ->
  (exists r, In r rows /\ rdate r = md) /\
  (forall r, In r rows -> rdate r <= md).
Proof.
  destruct rows as [|r0 rows]; simpl; [discriminate|]. intros [= <-].
  destruct (fold_max_ge (map rdate rows) (rdate r0)) as [H1 H2]. split.
  - destruct (fold_max_In (map rdate rows) (rdate r0)) as [E|Hin].
    + exists r0. split; [now left | now rewrite E].
    + apply in_map_iff in Hin. destruct Hin as (r & E & Hr).
      exists r. split; [now right | exact E].
  - intros r [<-|Hr]; [exact H1|]. apply H2. now apply in_map.
Qed.

Lemma window_rows_group (dfc : list row) (md : Z) (k : string) :
  (forall r, In r dfc -> rdate r <= md) ->
  group_of k (last_month_df dfc md) = window_rows dfc md k.
Proof.
  intros Hmax. unfold group_of, last_month_df, window_rows.
  induction dfc as [|r dfc IH]; simpl; [reflexivity|].
  assert (Hr : (rdate r <=? md) = true)
    by (apply Z.leb_le, Hmax; now left).
  rewrite Hr, andb_true_r.
  destruct (md - 30 <=? rdate r); simpl.
  - destruct (String.eqb (rloc r) k); simpl;
      rewrite IH; auto; intros; apply Hmax; now right.
  - rewrite andb_false_r. apply IH. intros; apply Hmax; now right.
Qed.

Lemma group_mean_keys (m : metric) (rows : list row) :
  map fst (group_mean m rows) = group_keys rows.
Proof.
  unfold group_mean, groupby. rewrite !map_map. simpl. apply map_id.
Qed.

Lemma group_mean_In (m : metric) (rows : list row) (k : string) (v : float) :
  In (k, v) (group_mean m rows) <->
  In k (group_keys rows) /\ v = mean (map (rget m) (group_of k rows)).
Proof.
  unfold group_mean, groupby. rewrite map_map. simpl. rewrite in_map_iff.
  split.
  - intros (k' & [= <- <-] & Hk). auto.
  - intros (Hk & ->). now exists k.
Qed.

Lemma avg_new_cases_value (dfc : list row) (md : Z) (k : string) (v : float) :
  (forall r, In r dfc -> rdate r <= md) ->
  (In (k, v) (avg_new_cases dfc md) <->
   v = mean (map (rget new_cases) (window_rows dfc md k)) /\ isna v = false).
Proof.
  intros Hmax. unfold avg_new_cases, dropna.
  rewrite filter_In, group_mean_In, window_rows_group by assumption.
  simpl. unfold notna. rewrite negb_true_iff. split; [tauto|].
  intros [E Hv]. split; [split; [|exact E] | exact Hv].
  rewrite <- (window_rows_group dfc md k Hmax) in E.
  destruct (group_of k (last_month_df dfc md)) as [|r g] eqn:Eg.
  - rewrite E in Hv. discriminate.
  - apply group_keys_In. exists r.
    apply group_of_In. rewrite Eg. now left.
Qed.

(** C4. Let [md] be the greatest date of the whole filled per-country
    frame.  The windowed mapping has one entry per location at most; a
    location maps to [v] exactly when [v] is the mean of new_cases over that
    location's records dated from [md - 30] to [md] and that mean exists; a
    location with no record in the window has no entry.  The mean is taken
    over the non-missing values alone: it is their compensated sum divided
    by their number, and when they are integers whose running totals stay
    below 2^53, as counts of cases are, it is the float64 quotient of their
    exact sum by their number.  So 10 and 20 give 15, with or without a
    missing value between them; and 0.1, 0.2 and 0.3 give
    0.19999999999999998, the quotient of the compensated sum, where adding
    from left to right would give 0.20000000000000004. *)
Theorem windowed_average (columns : list metric) (file : list record)
        (md : Z) :
  let dfc := df_countries (run columns file) in
  let values k := map (rget new_cases) (window_rows dfc md k) in
  max_date dfc = Some md ->
  (exists r, In r dfc /\ rdate r = md) /\
  (forall r, In r dfc -> rdate r <= md) /\
  NoDup (map fst (avg_new_cases dfc md)) /\
  (forall k v,
      In (k, v) (avg_new_cases dfc md) <->
      v = mean (values k) /\ isna v = false) /\
  (forall k, window_rows dfc md k = [] ->
             ~ In k (map fst (avg_new_cases dfc md))) /\
  (forall k v,
      In (k, v) (avg_new_cases dfc md) ->
      filter notna (values k) <> [] /\
      v = div (kahan_sum (filter notna (values k)))
              (of_Z (Z.of_nat (List.length (filter notna (values k)))))) /\
  (forall k v zs,
      In (k, v) (avg_new_cases dfc md) ->
      filter notna (values k) = map of_Z zs ->
      sums_exact 0 zs = true ->
      v = div (of_Z (total zs)) (of_Z (Z.of_nat (List.length zs)))) /\
  mean [of_Z 10; of_Z 20] = of_Z 15 /\
  mean [of_Z 10; nan; of_Z 20] = of_Z 15 /\
  mean [one_tenth; two_tenths; three_tenths]
  = S754_finite false 7205759403792793 (-55).
Proof.
  intros dfc values Hmd.
  destruct (max_date_spec dfc md Hmd) as [Hex Hmax].
  assert (Hentry := fun k v => avg_new_cases_value dfc md k v Hmax).
  split; [exact Hex|]. split; [exact Hmax|].
  split; [|split; [exact Hentry|split; [|split; [|split]]]].
  - unfold avg_new_cases, dropna. apply filter_keeps_keys_unique.
    rewrite group_mean_keys. apply group_keys_NoDup.
  - intros k Hk Hin. apply in_map_iff in Hin.
    destruct Hin as ([k' v] & E & Hin). simpl in E. subst k'.
    apply Hentry in Hin. destruct Hin as [E Hv].
    rewrite Hk in E. rewrite E in Hv. discriminate.
  - intros k v Hin. apply Hentry in Hin. destruct Hin as [E Hv].
    fold (values k) in E. rewrite E in Hv |- *. now apply mean_formula.
  - intros k v zs Hin Ez Hz. apply Hentry in Hin. destruct Hin as [E Hv].
    fold (values k) in E. rewrite E in Hv |- *.
    apply mean_integers; [exact Ez | | exact Hz].
    intros ->. apply mean_formula in Hv. now destruct Hv.
  - repeat split; reflexivity.
Qed.

(** In the example file the greatest date is day 3; Kenya's new_cases in
    the window are 10, 20, 20 after the fill: Kenya's entry is 50 / 3, and
    India's, from the one value 3, is 3. *)
Lemma windowed_average_witness :
  max_date (df_countries (run all_columns kenya_gap)) = Some 3 /\
  (forall k v,
      In (k, v) (avg_new_cases (df_countries (run all_columns kenya_gap)) 3) <->
      v = mean (map (rget new_cases)
                    (window_rows (df_countries (run all_columns kenya_gap)) 3 k))
      /\ isna v = false) /\
  (forall v,
      In ("Kenya"%string, v)
         (avg_new_cases (df_countries (run all_columns kenya_gap)) 3) ->
      v = div (of_Z 50) (of_Z 3)) /\
  avg_new_cases (df_countries (run all_columns kenya_gap)) 3
  = [("India"%string, of_Z 3); ("Kenya"%string, div (of_Z 50) (of_Z 3))].
Proof.
  assert (H : max_date (df_countries (run all_columns kenya_gap)) = Some 3)
    by (vm_compute; reflexivity).
  split; [exact H|].
  pose proof (windowed_average all_columns kenya_gap 3 H) as W.
  split; [apply W|]. split; [|vm_compute; reflexivity].
  intros v Hin.
  exact (proj1 (proj2 (proj2 (proj2 (proj2 (proj2 (proj2 W))))))
           "Kenya"%string v [10; 20; 20] Hin eq_refl eq_refl).
Defined.

(** ** Empty input (C5) *)

Lemma select_countries_none (df : list row) :
  (forall r, In r df -> isin (rloc r) countries_of_interest = false) ->
  select_countries df = [].
Proof.
  unfold select_countries.
  induction df as [|r df IH]; simpl; intros H; [reflexivity|].
  rewrite (H r) by now left. apply IH. intros; apply H; now right.
Qed.

Lemma read_csv_data (file : list record) (r : row) :
  In r (read_csv file) -> In (data r) file.
Proof.
  unfold read_csv. generalize 0%nat.
  induction file as [|x file IH]; intros start; simpl; [contradiction|].
  intros [<-|H]; [now left | right; eauto].
Qed.

Lemma fill_missing_nil (columns : list metric) : fill_missing columns [] = [].
Proof.
  unfold fill_missing, key_metrics, fill_metric. simpl.
  repeat match goal with
         | |- context [has ?m columns] => destruct (has m columns); simpl
         end; reflexivity.
Qed.

(** From line 91 on, a frame without a record of a configured location,
    and so the empty one, leaves every stage empty. *)
Lemma nothing_selected (columns : list metric) (file : list record) :
  (forall r, In r file -> isin (location r) countries_of_interest = false) ->
  df_countries (run columns file) = [] /\
  snap (LATEST_DF (run columns file)) = [] /\
  printed (run columns file) = [NoInsights].
Proof.
  intros H.
  assert (E : cleaned columns file = []).
  { unfold cleaned. rewrite select_countries_none; [apply fill_missing_nil|].
    intros r Hr. apply (H (data r)). now apply read_csv_data. }
  assert (Hrun := run_unfold columns file). simpl in Hrun.
  rewrite E in Hrun. simpl in Hrun. rewrite Hrun. simpl.
  rewrite before_insights_snap. auto.
Qed.

(** Section 2 lets a dataset through when it has a row and the six key
    columns. *)
Lemma script_returns (columns : list metric) (file : list record) :
  file <> [] ->
  (forall m, In m key_cols -> has m columns = true) ->
  script columns file = Returned (run columns file).
Proof.
  intros Hfile Hcols. unfold script.
  assert (Hdf : exists r df, read_csv file = r :: df).
  { destruct file as [|x file]; [congruence|]. unfold read_csv. simpl. eauto. }
  destruct Hdf as (r & df & ->).
  assert (Hc : exists m ms, columns = m :: ms).
  { destruct columns as [|m ms]; [|eauto].
    specialize (Hcols total_cases (or_introl eq_refl)). discriminate. }
  destruct Hc as (m & ms & Ec).
  replace (describe (numeric_cols columns (r :: df))) with (Returned tt)
    by (rewrite Ec; reflexivity).
  replace (getitem columns key_cols) with (Returned tt); [reflexivity|].
  unfold getitem.
  replace (filter (fun m0 => negb (has m0 columns)) key_cols) with (@nil metric);
    [reflexivity|].
  symmetry. unfold key_cols. simpl.
  rewrite !Hcols by (unfold key_cols; simpl; tauto). reflexivity.
Qed.

(** Without a row, or without one of the six key columns, section 2 raises
    and nothing is returned. *)
Lemma script_raises (columns : list metric) (file : list record) :
  file = [] \/ (exists m, In m key_cols /\ has m columns = false) ->
  exists e, script columns file = Raised e.
Proof.
  intros [->|(m & Hm & Habs)]; unfold script.
  - simpl. eauto.
  - destruct (describe (numeric_cols columns (read_csv file))) as [[]|e];
      simpl; [|eauto].
    unfold getitem.
    destruct (filter (fun m0 => negb (has m0 columns)) key_cols)
      as [|m' ms] eqn:E; simpl; [|eauto].
    exfalso.
    assert (Hin : In m (filter (fun m0 => negb (has m0 columns)) key_cols))
      by (apply filter_In; split; [exact Hm | now rewrite Habs]).
    rewrite E in Hin. exact Hin.
Qed.

(** So the script returns exactly on a dataset with a row and the six key
    columns, and what it returns is what its sections 3 to 6 leave. *)
Lemma script_run (columns : list metric) (file : list record) (a : analysis) :
  script columns file = Returned a <->
  file <> [] /\ (forall m, In m key_cols -> has m columns = true) /\
  a = run columns file.
Proof.
  split.
  - intros Hs.
    assert (Hfile : file <> []).
    { intros ->. destruct (script_raises columns []) as [e He]; [now left|].
      congruence. }
    assert (Hcols : forall m, In m key_cols -> has m columns = true).
    { intros m Hm. destruct (has m columns) eqn:E; [reflexivity|exfalso].
      destruct (script_raises columns file) as [e He].
      - right. now exists m.
      - congruence. }
    rewrite script_returns in Hs by assumption. injection Hs as <-. auto.
  - intros (Hfile & Hcols & ->). now apply script_returns.
Qed.

(** C5, for a dataset with rows.  When the dataset has a row and the six
    key columns, and none of its records belongs to a configured location,
    the script runs to its end: the filled per-country frame is empty, the
    snapshot is empty, and section 6 prints the one line that says no
    insight can be generated: no insight, and no exception was caught or
    left uncaught. *)
Theorem empty_input_resilience (columns : list metric) (file : list record) :
  file <> [] ->
  (forall m, In m key_cols -> has m columns = true) ->
  (forall r, In r file -> isin (location r) countries_of_interest = false) ->
  exists a,
    script columns file = Returned a /\
    df_countries a = [] /\
    snap (LATEST_DF a) = [] /\
    printed a = [NoInsights].
Proof.
  intros Hfile Hcols Hnone. exists (run columns file).
  split; [now apply script_returns | now apply nothing_selected].
Qed.

Lemma empty_input_resilience_witness :
  exists a,
    script all_columns france_only = Returned a /\
    df_countries a = [] /\
    snap (LATEST_DF a) = [] /\
    printed a = [NoInsights].
Proof.
  apply (empty_input_resilience all_columns france_only).
  - discriminate.
  - intros m Hm. unfold key_cols in Hm. simpl in Hm.
    repeat (destruct Hm as [<-|Hm]; [reflexivity|]). contradiction.
  - intros r [<-|[]]. reflexivity.
Defined.

(** On a dataset without rows line 68 raises: the script returns no frame,
    no snapshot and no line of section 6.  It raises as well, at line 75,
    on a dataset that has rows of no configured location and lacks a key
    column. *)
Lemma empty_dataset_raises :
  script all_columns [] = Raised NothingToDescribe /\
  (forall a, script all_columns [] <> Returned a) /\
  (forall r, In r france_only ->
             isin (location r) countries_of_interest = false) /\
  script without_new_cases france_only = Raised (KeyError [new_cases]).
Proof.
  split; [reflexivity|]. split; [discriminate|]. split; [|reflexivity].
  intros r [<-|[]]. reflexivity.
Qed.

(** ** The insight queries (C7, C9, C10) *)

Lemma any_notna_false {L : Type} (s : series L) :
  any_notna s = false <-> Forall (fun v => isna v = true) (map snd s).
Proof.
  unfold any_notna. induction s as [|p s IH]; simpl.
  - split; [constructor | reflexivity].
  - unfold notna. rewrite orb_false_iff, negb_false_iff, IH. split.
    + intros [H1 H2]. now constructor.
    + intros H. inversion H; subst. auto.
Qed.

Lemma column_values (m : metric) (rows : list row) :
  map snd (column m rows) = map (rget m) rows.
Proof. unfold column. rewrite map_map. reflexivity. Qed.

Lemma dropna_nil {L : Type} (s : series L) :
  dropna s = [] <-> Forall (fun v => isna v = true) (map snd s).
Proof.
  unfold dropna. induction s as [|p s IH]; simpl.
  - split; [constructor | reflexivity].
  - unfold notna. destruct (isna (snd p)) eqn:E; simpl.
    + rewrite IH. split; [now constructor | intros H; now inversion H].
    + split; [discriminate|]. intros H. inversion H; subst. congruence.
Qed.

(** A metric missing in every row has no group mean. *)
Lemma group_mean_all_missing (m : metric) (rows : list row) :
  (forall r, In r rows -> isna (rget m r) = true) ->
  Forall (fun v => isna v = true) (map snd (group_mean m rows)).
Proof.
  intros H. apply Forall_forall. intros v Hv.
  apply in_map_iff in Hv. destruct Hv as ([k v'] & <- & Hin).
  apply group_mean_In in Hin. destruct Hin as [_ ->]. simpl.
  unfold mean.
  replace (filter notna (map (rget m) (group_of k rows))) with (@nil float);
    [reflexivity|].
  symmetry. unfold group_of.
  induction rows as [|r rows IH]; simpl; [reflexivity|].
  assert (IH' := IH (fun x Hx => H x (or_intror Hx))).
  destruct (String.eqb (rloc r) k); simpl; [|exact IH'].
  unfold notna at 1. rewrite (H r (or_introl eq_refl)). simpl. exact IH'.
Qed.

(** When each query is skipped, read off what it printed. *)
Lemma raw_outcome_cases (q : query) (m : metric) (columns : list metric)
      (snapshot : list row) (o : outcome) :
  raw_outcome q m columns snapshot o ->
  (o = Skipped q MissingOrAllNaN /\
   (has m columns = false \/
    Forall (fun v => isna v = true) (map (rget m) snapshot)))
  \/
  (exists k v, o = Insight q k v /\ has m columns = true /\
               ~ Forall (fun v => isna v = true) (map (rget m) snapshot) /\
               first_max (by_location (rget m) snapshot) k v).
Proof.
  unfold raw_outcome.
  destruct (has m columns); simpl; [|intros ->; left; auto].
  destruct (any_notna (column m snapshot)) eqn:C.
  - intros (k & v & -> & Hfm). right. exists k, v.
    repeat split; auto.
    rewrite <- column_values, <- any_notna_false. congruence.
  - intros ->. left. split; [reflexivity|]. right.
    rewrite <- column_values. now apply any_notna_false.
Qed.

Lemma rate_outcome_cases (q : query) (num den : metric)
      (columns : list metric) (snapshot : list row) (o : outcome) :
  snapshot <> [] ->
  rate_outcome q num den columns snapshot o ->
  (o = Skipped q ColumnsMissing /\ has num columns && has den columns = false)
  \/
  (exists k v, o = Insight q k v /\
               has num columns && has den columns = true /\
               ~ Forall (fun v => isna v = true)
                   (map (rate_of num den) snapshot) /\
               first_max (by_location (rate_of num den) snapshot) k v).
Proof.
  intros Hne. unfold rate_outcome.
  destruct (has num columns && has den columns); [|intros ->; left; auto].
  destruct snapshot as [|r rows]; [congruence|].
  intros (k & v & -> & Hfm). right. exists k, v. repeat split; auto.
  intros H. inversion H as [|? ? Hr _]; subst.
  unfold rate_of in Hr. rewrite safe_rate_notna in Hr. discriminate.
Qed.

Lemma avg_outcome_cases (columns : list metric) (dfc : list row)
      (o : outcome) :
  avg_outcome columns dfc o ->
  ((exists why, o = Skipped HighestAvgNewCases why) /\
   unavailable HighestAvgNewCases columns dfc [])
  \/
  (exists k v, o = Insight HighestAvgNewCases k v /\
               ~ unavailable HighestAvgNewCases columns dfc [] /\
               first_max (ranked HighestAvgNewCases dfc []) k v).
Proof.
  unfold avg_outcome, unavailable, entries, ranked.
  destruct (has new_cases columns); [|intros ->; left; eauto].
  destruct (max_date dfc) as [md|]; [|intros ->; left; eauto].
  destruct (last_month_df dfc md) as [|r0 lm] eqn:Elm.
  { intros ->. left. split; [eauto | constructor]. }
  destruct (avg_new_cases dfc md) as [|p avg] eqn:Ea.
  - intros ->. left. split; [eauto|].
    unfold avg_new_cases in Ea. rewrite Elm in Ea. now apply dropna_nil.
  - intros (k & v & -> & Hfm). right. exists k, v. repeat split; auto.
    intros H. apply dropna_nil in H.
    unfold avg_new_cases in Ea. rewrite Elm in Ea. congruence.
Qed.






Lemma raw_outcome_about (q : query) (m : metric) (columns : list metric)
      (snapshot : list row) (o : outcome) :
  raw_outcome q m columns snapshot o -> about q o.
Proof.
  intros H. destruct (raw_outcome_cases _ _ _ _ _ H)
    as [[-> _]|(k & v & -> & _)]; [left | right]; eauto.
Qed.

Lemma rate_outcome_about (q : query) (num den : metric)
      (columns : list metric) (snapshot : list row) (o : outcome) :
  rate_outcome q num den columns snapshot o -> about q o.
Proof.
  unfold rate_outcome.
  destruct (has num columns && has den columns); [|intros ->; left; eauto].
  destruct snapshot; [intros ->; left; eauto|].
  intros (k & v & -> & _). right. eauto.
Qed.

Lemma avg_outcome_about (columns : list metric) (dfc : list row) (o : outcome) :
  avg_outcome columns dfc o -> about HighestAvgNewCases o.
Proof.
  intros H. destruct (avg_outcome_cases _ _ _ H)
    as [[(why & ->) _]|(k & v & -> & _)]; [left | right]; eauto.
Qed.

(** Among the five lines, only a query's own line speaks of it. *)
Lemma five_lines (q : query) (o1 o2 o3 o4 o5 : outcome) :
  about HighestTotalCases o1 -> about HighestDeathRate o2 ->
  about HighestVaccinationRate o3 -> about HighestAvgNewCases o4 ->
  about HighestDeathsPerMillion o5 ->
  let out := [o1; o2; o3; o4; o5] in
  about q (line q o1 o2 o3 o4 o5) /\
  (forall why, In (Skipped q why) out ->
               line q o1 o2 o3 o4 o5 = Skipped q why) /\
  (forall k v, In (Insight q k v) out ->
               line q o1 o2 o3 o4 o5 = Insight q k v) /\
  In (line q o1 o2 o3 o4 o5) out /\
  ~ In NoInsights out /\ ~ In ErrorGeneratingInsights out.
Proof.
  intros A1 A2 A3 A4 A5 out.
  assert (Hown : about q (line q o1 o2 o3 o4 o5)) by (destruct q; assumption).
  assert (Hin : In (line q o1 o2 o3 o4 o5) out)
    by (destruct q; simpl; auto 6).
  split; [exact Hown|].
  destruct A1 as [(w1 & ->)|(k1 & v1 & ->)];
    destruct A2 as [(w2 & ->)|(k2 & v2 & ->)];
    destruct A3 as [(w3 & ->)|(k3 & v3 & ->)];
    destruct A4 as [(w4 & ->)|(k4 & v4 & ->)];
    destruct A5 as [(w5 & ->)|(k5 & v5 & ->)];
    (split; [intros w Hw
            |split; [intros k v Hw | split; [exact Hin | split; intros Hw]]]);
    simpl in Hw;
    repeat (destruct Hw as [Hw|Hw]; [try discriminate|]);
    try contradiction;
    destruct q; try discriminate; simpl; now symmetry.
Qed.

Lemma fate_of_line (q : query) (out : list outcome) (o : outcome) (U : Prop)
      (s : series string) :
  (forall why, In (Skipped q why) out -> o = Skipped q why) ->
  (forall k v, In (Insight q k v) out -> o = Insight q k v) ->
  In o out -> ~ In NoInsights out ->
  ((exists why, o = Skipped q why) /\ U) \/
  (exists k v, o = Insight q k v /\ ~ U /\ first_max s k v) ->
  fate q out U s.
Proof.
  intros Hs Hi Hin Hn [[(why & ->) HU]|(k & v & -> & HU & Hfm)].
  - left. split; [right; eauto|]. split; [|exact HU].
    intros (k & v & H). apply Hi in H. discriminate.
  - right. exists k, v. split; [exact Hin|].
    split; [intros k' v' H; apply Hi in H; now injection H|].
    split; [|auto].
    intros [H|(why & H)]; [auto|]. apply Hs in H. discriminate.
Qed.

Lemma unavailable_empty (q : query) (columns : list metric) :
  unavailable q columns [] [].
Proof.
  unfold unavailable, entries.
  destruct q; simpl;
    repeat match goal with
           | |- context [if ?c then _ else _] => destruct c
           end; simpl; auto.
Qed.

(** Every query of every run meets one of its two fates. *)
Lemma query_fate (columns : list metric) (file : list record) (q : query) :
  let a := run columns file in
  fate q (printed a)
       (unavailable q columns (df_countries a) (snap (LATEST_DF a)))
       (ranked q (df_countries a) (snap (LATEST_DF a))).
Proof.
  simpl. rewrite run_df_countries, run_snap.
  assert (Hd := cleaned_labels_unique columns file).
  assert (H := run_unfold columns file). simpl in H.
  destruct (latest_df (cleaned columns file)) as [|r rows] eqn:E.
  - rewrite H. simpl. left.
    apply (proj1 (latest_df_nil _ Hd)) in E. rewrite E.
    split; [left; now left|]. split; [|apply unavailable_empty].
    intros (k & v & [C|[]]). discriminate.
  - destruct H as (o1 & o2 & o3 & o4 & o5 & -> & S1 & S2 & S3 & S4 & S5).
    simpl.
    destruct (five_lines q o1 o2 o3 o4 o5
                (raw_outcome_about _ _ _ _ _ S1)
                (rate_outcome_about _ _ _ _ _ _ S2)
                (rate_outcome_about _ _ _ _ _ _ S3)
                (avg_outcome_about _ _ _ S4)
                (raw_outcome_about _ _ _ _ _ S5))
      as (_ & Hs & Hi & Hin & Hn & _).
    apply (fate_of_line q _ (line q o1 o2 o3 o4 o5)); auto.
    assert (Hne : r :: rows <> []) by discriminate.
    destruct q; simpl; unfold unavailable, entries, ranked.
    + destruct (raw_outcome_cases _ _ _ _ _ S1)
        as [[-> [C|C]]|(k & v & -> & Hh & Hf & Hfm)].
      * left. rewrite C. eauto.
      * left. split; [eauto|]. now destruct (has total_cases columns).
      * right. exists k, v. rewrite Hh. auto.
    + destruct (rate_outcome_cases _ _ _ _ _ _ Hne S2)
        as [[-> C]|(k & v & -> & Hh & Hf & Hfm)].
      * left. rewrite C. eauto.
      * right. exists k, v. rewrite Hh. auto.
    + destruct (rate_outcome_cases _ _ _ _ _ _ Hne S3)
        as [[-> C]|(k & v & -> & Hh & Hf & Hfm)].
      * left. rewrite C. eauto.
      * right. exists k, v. rewrite Hh. auto.
    + exact (avg_outcome_cases _ _ _ S4).
    + destruct (raw_outcome_cases _ _ _ _ _ S5)
        as [[-> [C|C]]|(k & v & -> & Hh & Hf & Hfm)].
      * left. rewrite C. eauto.
      * left. split; [eauto|].
        now destruct (has total_deaths_per_million columns).
      * right. exists k, v. rewrite Hh. auto.
Qed.

Lemma run_no_error (columns : list metric) (file : list record) :
  ~ In ErrorGeneratingInsights (printed (run columns file)).
Proof.
  assert (H := run_unfold columns file). simpl in H.
  destruct (latest_df (cleaned columns file)) as [|r rows].
  - rewrite H. simpl. intros [C|[]]. discriminate.
  - destruct H as (o1 & o2 & o3 & o4 & o5 & -> & S1 & S2 & S3 & S4 & S5).
    simpl.
    apply (five_lines HighestTotalCases o1 o2 o3 o4 o5
             (raw_outcome_about _ _ _ _ _ S1)
             (rate_outcome_about _ _ _ _ _ _ S2)
             (rate_outcome_about _ _ _ _ _ _ S3)
             (avg_outcome_about _ _ _ S4)
             (raw_outcome_about _ _ _ _ _ S5)).
Qed.

(** Sections 3 to 6 on their own.  Each of the five queries is skipped,
    with a diagnostic, exactly when the field it ranks is unavailable: a
    column it needs is absent from the frame, or the field is missing in
    every snapshot or window entry (for the two rates the field is the
    0-substituted rate, which is never missing in a row).  It is answered
    exactly otherwise, whatever becomes of the other queries; and section 6
    never ends in its error handler. *)
Lemma queries_fail_soft (columns : list metric) (file : list record)
      (q : query) :
  let a := run columns file in
  let U := unavailable q columns (df_countries a) (snap (LATEST_DF a)) in
  (skipped q (printed a) <-> U) /\
  (answered q (printed a) <-> ~ U) /\
  ~ In ErrorGeneratingInsights (printed a).
Proof.
  intros a U.
  split; [|split; [|apply run_no_error]];
    destruct (query_fate columns file q)
      as [(Hs & Ha & HU)|(k & v & Hin & Huniq & Hs & HU & Hfm)];
    fold a in Hs, HU; fold U in HU.
  - tauto.
  - tauto.
  - tauto.
  - fold a in Hin. split; [intros _; exact HU|]. intros _. now exists k, v.
Qed.

(** The script reaches them when section 2 lets the dataset through: then
    it prints what they print. *)
Lemma queries_fail_soft_in_script (columns : list metric)
      (file : list record) (a : analysis) (q : query) :
  script columns file = Returned a ->
  let U := unavailable q columns (df_countries a) (snap (LATEST_DF a)) in
  (forall m, In m key_cols -> has m columns = true) /\
  (skipped q (printed a) <-> U) /\
  (answered q (printed a) <-> ~ U) /\
  ~ In ErrorGeneratingInsights (printed a).
Proof.
  intros Hs. apply script_run in Hs. destruct Hs as (_ & Hcols & ->).
  split; [exact Hcols | apply queries_fail_soft].
Qed.

(** C7, where the script falls short of it.  The dataset has rows of the
    configured locations and every column but new_cases.  Sections 3 to 6
    on their own skip the average of new cases, with the diagnostic of
    line 310, and answer the query on total_cases; but the script does not
    reach them: line 75 asks the missing-value counts for the six key
    columns, outside any [try], and raises KeyError.  With the column
    there the script runs to its end. *)
Theorem absent_key_column_raises :
  script without_new_cases kenya_gap = Raised (KeyError [new_cases]) /\
  (forall a, script without_new_cases kenya_gap <> Returned a) /\
  In (Skipped HighestAvgNewCases ColumnsMissing)
     (printed (run without_new_cases kenya_gap)) /\
  answered HighestTotalCases (printed (run without_new_cases kenya_gap)) /\
  script all_columns kenya_gap = Returned (run all_columns kenya_gap).
Proof.
  split; [reflexivity|]. split; [discriminate|].
  split; [vm_compute; tauto|]. split.
  - apply (proj2 (proj1 (proj2 (queries_fail_soft without_new_cases kenya_gap
                                  HighestTotalCases)))).
    vm_compute. intros H. inversion H as [|? ? C _]. discriminate.
  - reflexivity.
Qed.




Lemma by_location_inv (g : row -> float) (rows : list row) (k : string)
      (v : float) :
  first_max (by_location g rows) k v ->
  exists r, In r rows /\ rloc r = k /\ g r = v /\ isna v = false.
Proof.
  intros H. destruct (first_max_rows rloc g _ _ _ H)
    as (rows1 & r & rows2 & -> & E1 & E2 & Hv & _).
  exists r. split; [apply in_or_app; right; now left | auto].
Qed.

Lemma raw_query_skips_missing (columns : list metric) (file : list record)
      (q : query) (m : metric) :
  ranked q (df_countries (run columns file))
         (snap (LATEST_DF (run columns file)))
  = by_location (rget m) (snap (LATEST_DF (run columns file))) ->
  entries q columns (df_countries (run columns file))
          (snap (LATEST_DF (run columns file)))
  = (if has m columns
     then Some (map (rget m) (snap (LATEST_DF (run columns file))))
     else None) ->
  missing_never_wins q m columns (run columns file).
Proof.
  intros Er Ee. unfold missing_never_wins.
  assert (Hf := query_fate columns file q). simpl in Hf.
  unfold unavailable in Hf. rewrite Er, Ee in Hf.
  assert (Hwin : forall k v,
             In (Insight q k v) (printed (run columns file)) ->
             exists r, In r (snap (LATEST_DF (run columns file))) /\
                       rloc r = k /\ rget m r = v /\ isna v = false).
  { intros k v Hin.
    destruct Hf as [(Hs & Ha & HU)|(k' & v' & Hin' & Huniq & Hs & HU & Hfm)].
    - exfalso. apply Ha. now exists k, v.
    - destruct (Huniq k v Hin) as [-> ->]. now apply by_location_inv. }
  split; [|split; [|exact Hwin]].
  - split.
    + intros (k & v & Hin).
      destruct (Hwin k v Hin) as (r & Hr & _ & E & Hv).
      split; [|exists r; split; [exact Hr | now rewrite E]].
      destruct Hf as [(Hs & Ha & HU)|(k' & v' & Hin' & Huniq & Hs & HU & Hfm)].
      * exfalso. apply Ha. now exists k, v.
      * destruct (has m columns); [reflexivity | tauto].
    + intros (Hh & r & Hr & Hv).
      destruct Hf as [(Hs & Ha & HU)|(k' & v' & Hin' & Huniq & Hs & HU & Hfm)].
      * exfalso. rewrite Hh in HU. rewrite Forall_forall in HU.
        specialize (HU (rget m r) (in_map _ _ _ Hr)). congruence.
      * now exists k', v'.
  - intros r Hr Hmiss v Hin.
    destruct (Hwin _ _ Hin) as (r' & Hr' & Ek & Ev & Hv).
    assert (r' = r).
    { apply (NoDup_map_eq rloc (snap (LATEST_DF (run columns file))));
        auto.
      rewrite run_snap. apply latest_df_locs_unique, cleaned_labels_unique. }
    subst r'. congruence.
Qed.

(** C10. For the two queries that rank a raw snapshot column, total_cases
    and total_deaths_per_million: the query is answered exactly when the
    frame has the column and some snapshot row holds a value; the location
    it names is that of a row whose value is not missing; and a row whose
    value is missing is never the one named. *)
Theorem raw_argmax_skips_missing (columns : list metric) (file : list record) :
  missing_never_wins HighestTotalCases total_cases columns
                     (run columns file) /\
  missing_never_wins HighestDeathsPerMillion total_deaths_per_million
                     columns (run columns file).
Proof.
  split; apply raw_query_skips_missing; reflexivity.
Qed.

(** India's snapshot row has no total_cases: India is not named. *)
Lemma raw_argmax_skips_missing_witness :
  ~ In (Insight HighestTotalCases "India"%string zero)
       (printed (run all_columns india_missing)).
Proof.
  apply (proj1 (proj2 (proj1 (raw_argmax_skips_missing all_columns
                                india_missing)))
           (mkRow 0 (sample "India" 1 nan nan nan))).
  - vm_compute. auto.
  - reflexivity.
Defined.

(** * Further properties of the script *)

(** ** Cleaning keeps the records *)

Lemma range_index_nth (file : list record) :
  forall start r,
    In r (range_index start file) ->
    (start <= label r)%nat /\
    nth_error file (label r - start) = Some (data r).
Proof.
  induction file as [|x file IH]; intros start r; simpl; [contradiction|].
  intros [<-|Hin]; simpl.
  - split; [lia|]. now rewrite Nat.sub_diag.
  - destruct (IH (S start) r Hin) as [Hle E]. split; [lia|].
    replace (label r - start)%nat with (S (label r - S start)) by lia.
    exact E.
Qed.

Lemma same_columns_origin {B : Type} (f : row -> B) (raw filled : list row)
      (i : nat) (r0 r : row) :
  map f filled = map f raw ->
  nth_error raw i = Some r0 -> nth_error filled i = Some r -> f r = f r0.
Proof. intros E H0 H. exact (nth_error_map_eq f f _ _ i r r0 E H H0). Qed.

Lemma fill_missing_length (columns : list metric) (raw : list row) :
  List.length (fill_missing columns raw) = List.length raw.
Proof.
  rewrite <- (length_map label (fill_missing columns raw)).
  unfold fill_missing. rewrite fill_loop_labels. apply length_map.
Qed.

(** Every row of the filled frame stands where its raw row stood. *)
Lemma fill_missing_origin (columns : list metric) (raw : list row) (r : row) :
  In r (fill_missing columns raw) ->
  exists i r0,
    nth_error raw i = Some r0 /\ nth_error (fill_missing columns raw) i = Some r.
Proof.
  intros Hin. apply In_nth_error in Hin. destruct Hin as (i & Hi).
  assert (Hlt : (i < List.length raw)%nat).
  { rewrite <- (fill_missing_length columns). apply nth_error_Some. congruence. }
  apply nth_error_Some in Hlt.
  destruct (nth_error raw i) as [r0|] eqn:E; [|congruence].
  now exists i, r0.
Qed.

(** X1. Each row of the filled per-country frame is the record of the file
    at the row's label: same location, a configured one, same date, and the
    same population and total_deaths_per_million, which the fill leaves
    alone.  No two rows share a label. *)
Theorem cleaned_rows_are_file_records (columns : list metric)
        (file : list record) :
  NoDup (map label (df_countries (run columns file))) /\
  forall r,
    In r (df_countries (run columns file)) ->
    isin (rloc r) countries_of_interest = true /\
    exists rec, nth_error file (label r) = Some rec /\ same_record rec r.
Proof.
  rewrite run_df_countries. split; [apply cleaned_labels_unique|].
  intros r Hin. unfold cleaned in Hin.
  destruct (fill_missing_origin _ _ _ Hin) as (i & r0 & H0 & H).
  set (raw := select_countries (read_csv file)) in *.
  assert (El : label r = label r0).
  { apply (same_columns_origin label raw (fill_missing columns raw) i); auto.
    apply fill_loop_labels. }
  assert (Ek : rloc r = rloc r0).
  { apply (same_columns_origin rloc raw (fill_missing columns raw) i); auto.
    apply fill_loop_locs. }
  assert (Ed : rdate r = rdate r0).
  { apply (same_columns_origin rdate raw (fill_missing columns raw) i); auto.
    apply fill_loop_dates. }
  assert (Ep : rget population r = rget population r0).
  { apply (same_columns_origin (rget population) raw
             (fill_missing columns raw) i); auto.
    apply fill_loop_get_other. simpl. intuition discriminate. }
  assert (Em : rget total_deaths_per_million r
               = rget total_deaths_per_million r0).
  { apply (same_columns_origin (rget total_deaths_per_million) raw
             (fill_missing columns raw) i); auto.
    apply fill_loop_get_other. simpl. intuition discriminate. }
  apply nth_error_In in H0. unfold raw, select_countries in H0.
  apply filter_In in H0. destruct H0 as [H0 Hc].
  split; [now rewrite Ek|].
  destruct (range_index_nth file 0 r0 H0) as [_ E].
  rewrite Nat.sub_0_r in E.
  exists (data r0). rewrite El. split; [exact E|].
  unfold same_record. rewrite Ek, Ed, Ep, Em. repeat split.
Qed.

(** ** Found and missing countries *)

Lemma isin_In (s : string) (l : list string) : isin s l = true <-> In s l.
Proof.
  unfold isin. rewrite existsb_exists. split.
  - intros (x & Hx & E). apply String.eqb_eq in E. now subst.
  - intros H. exists s. split; [exact H | apply String.eqb_refl].
Qed.

Lemma unique_from_In (l : list string) :
  forall seen x,
    In x (unique_from seen l) <-> In x l /\ ~ In x seen.
Proof.
  induction l as [|y l IH]; intros seen x; simpl; [tauto|].
  destruct (isin y seen) eqn:E.
  - apply isin_In in E. rewrite IH. split; [tauto|].
    intros [[<-|H] Hn]; tauto.
  - assert (Hn : ~ In y seen) by (rewrite <- isin_In; congruence).
    simpl. rewrite IH. simpl. split.
    + intros [<-|[H1 H2]]; tauto.
    + intros [[<-|H] Hx]; [now left|].
      destruct (string_dec y x) as [->|Hne]; [now left | right; tauto].
Qed.

Lemma unique_from_NoDup (l : list string) :
  forall seen, NoDup (unique_from seen l).
Proof.
  induction l as [|y l IH]; intros seen; simpl; [constructor|].
  destruct (isin y seen); [apply IH|].
  constructor; [|apply IH].
  rewrite unique_from_In. simpl. tauto.
Qed.

Lemma found_countries_In (dfc : list row) (c : string) :
  In c (found_countries dfc) <-> exists r, In r dfc /\ rloc r = c.
Proof.
  unfold found_countries, unique. rewrite unique_from_In, in_map_iff.
  simpl. split.
  - intros [(r & E & Hr) _]. eauto.
  - intros (r & Hr & E). split; [eauto | tauto].
Qed.

(** X2. The configured countries split into the found ones and the missing
    ones: a configured country is reported missing exactly when no record
    of the file carries its name, found exactly when one does; nothing else
    is ever reported found, and no country is listed twice. *)
Theorem found_and_missing_partition (columns : list metric)
        (file : list record) (c : string) :
  let dfc := df_countries (run columns file) in
  (In c (found_countries dfc) <->
   In c countries_of_interest /\ exists rec, In rec file /\ location rec = c) /\
  (In c (missing_countries dfc) <->
   In c countries_of_interest /\ forall rec, In rec file -> location rec <> c) /\
  (In c countries_of_interest ->
   (In c (found_countries dfc) /\ ~ In c (missing_countries dfc)) \/
   (In c (missing_countries dfc) /\ ~ In c (found_countries dfc))) /\
  NoDup (found_countries dfc) /\ NoDup (missing_countries dfc).
Proof.
  intros dfc.
  assert (Hfound : In c (found_countries dfc) <->
                   In c countries_of_interest /\
                   exists rec, In rec file /\ location rec = c).
  { rewrite found_countries_In. subst dfc. split.
    - intros (r & Hr & E).
      destruct (cleaned_rows_are_file_records columns file) as [_ H].
      destruct (H r Hr) as (Hc & rec & Hn & Hl & _).
      apply isin_In in Hc. rewrite E in Hc. split; [exact Hc|].
      exists rec. split; [eapply nth_error_In; eauto | congruence].
    - intros (Hc & rec & Hrec & E).
      rewrite run_df_countries. unfold cleaned.
      assert (Hraw : exists r0, In r0 (select_countries (read_csv file)) /\
                                rloc r0 = c).
      { apply In_nth_error in Hrec. destruct Hrec as (n & Hn).
        assert (Hr : exists r0, In r0 (read_csv file) /\ data r0 = rec).
        { unfold read_csv. clear - Hn. generalize 0%nat. revert n Hn.
          induction file as [|x file IH]; intros [|n] Hn start; simpl in *;
            try discriminate.
          - injection Hn as ->. exists (mkRow start rec). auto.
          - destruct (IH n Hn (S start)) as (r0 & H1 & H2). eauto. }
        destruct Hr as (r0 & H1 & H2). exists r0. split.
        - unfold select_countries. apply filter_In. split; [exact H1|].
          apply isin_In. unfold rloc. now rewrite H2, E.
        - unfold rloc. now rewrite H2. }
      destruct Hraw as (r0 & H0 & E0).
      assert (Hk : In c (map rloc (fill_missing columns
                                     (select_countries (read_csv file))))).
      { unfold fill_missing. rewrite fill_loop_locs, <- E0. now apply in_map. }
      apply in_map_iff in Hk. destruct Hk as (r & Er & Hr). eauto. }
  assert (Hmissing : In c (missing_countries dfc) <->
                     In c countries_of_interest /\
                     ~ In c (found_countries dfc)).
  { unfold missing_countries. rewrite filter_In, negb_true_iff.
    rewrite <- isin_In with (l := found_countries dfc).
    destruct (isin c (found_countries dfc)); split; intros [H1 H2];
      split; congruence. }
  split; [exact Hfound|]. split; [|split; [|split]].
  - rewrite Hmissing, Hfound. split.
    + intros [Hc Hn]. split; [exact Hc|]. intros rec Hrec E. apply Hn. eauto.
    + intros [Hc Hn]. split; [exact Hc|]. intros (_ & rec & Hrec & E).
      now apply (Hn rec).
  - intros Hc. rewrite Hmissing.
    destruct (in_dec string_dec c (found_countries dfc)); tauto.
  - apply unique_from_NoDup.
  - unfold missing_countries. apply NoDup_filter.
    unfold countries_of_interest.
    repeat (constructor; [simpl; intuition discriminate|]). constructor.
Qed.

(** ** What the fill does to a column *)

(** Per location, the filled column is the forward fill of the raw one. *)
Lemma fill_missing_group_column (columns : list metric) (raw : list row)
      (m : metric) (k : string) :
  NoDup (map label raw) -> In m key_metrics -> has m columns = true ->
  map (rget m) (group_of k (fill_missing columns raw))
  = ffill (map (rget m) (group_of k raw)).
Proof.
  intros Hd Hin Hhas.
  assert (Hv := fill_missing_column columns raw m Hin Hhas).
  rewrite <- (assign_get_same m (transform_ffill m raw) raw) in Hv.
  rewrite (group_of_map_ext (rget m) k _
             (assign m (transform_ffill m raw) raw)).
  - rewrite group_of_assign, assign_get_same. now apply transform_at_group.
  - unfold fill_missing. now rewrite fill_loop_locs, assign_locs.
  - exact Hv.
Qed.

Lemma ffill_from_keeps (xs : list float) :
  forall a,
    Forall2 (fun x y => isna x = false -> y = x) xs (ffill_from a xs).
Proof.
  induction xs as [|x xs IH]; intros a; simpl; constructor; auto.
  intros H. now rewrite H.
Qed.

Lemma Forall2_nth {A B : Type} (P : A -> B -> Prop) (l : list A)
      (l' : list B) :
  Forall2 P l l' ->
  forall i a b, nth_error l i = Some a -> nth_error l' i = Some b -> P a b.
Proof.
  induction 1 as [|x y l l' Hp H IH]; intros [|i] a b; simpl;
    try discriminate.
  - now intros [= <-] [= <-].
  - apply IH.
Qed.

Lemma fill_loop_get_absent (columns ms : list metric) (rows : list row)
      (m : metric) :
  has m columns = false ->
  map (rget m) (fold_left (fill_metric columns) ms rows) = map (rget m) rows.
Proof.
  intros Hhas. revert rows.
  induction ms as [|m' ms IH]; intros rows; simpl; [reflexivity|].
  rewrite IH. destruct (metric_eq_dec m' m) as [->|Hne].
  - unfold fill_metric. now rewrite Hhas.
  - now apply fill_metric_get_other.
Qed.

(** X3. The fill never changes a value that is present: for every file,
    every metric and every row of the per-country frame, a raw value that
    is not missing is still there after the loop; so a cell that is missing
    after the loop was missing before it. *)
Theorem fill_keeps_present_values (columns : list metric)
        (file : list record) (m : metric) :
  Forall2
    (fun r0 r =>
       (isna (rget m r0) = false -> rget m r = rget m r0) /\
       (isna (rget m r) = true -> isna (rget m r0) = true))
    (selected file) (df_countries (run columns file)).
Proof.
  rewrite run_df_countries. unfold cleaned, selected.
  set (raw := select_countries (read_csv file)).
  assert (Hkeep : forall i r0 r,
             nth_error raw i = Some r0 ->
             nth_error (fill_missing columns raw) i = Some r ->
             isna (rget m r0) = false -> rget m r = rget m r0).
  { intros i r0 r H0 H Hv.
    destruct (in_dec metric_eq_dec m key_metrics) as [Hin|Hn].
    - destruct (has m columns) eqn:Hhas.
      + destruct (nth_error_split _ _ H0) as (pre & post & E & Hi).
        destruct (fill_follows_frame_order columns file m pre post r0
                    Hin Hhas E) as (r' & Hr' & Ev).
        unfold cleaned in Hr'. fold raw in Hr'. rewrite Hi in Hr'.
        assert (r' = r) by congruence. subst r'.
        rewrite Ev, map_app. simpl. rewrite last_valid_snoc.
        now rewrite Hv.
      + apply (same_columns_origin (rget m) raw (fill_missing columns raw) i);
          auto.
        now apply fill_loop_get_absent.
    - apply (same_columns_origin (rget m) raw (fill_missing columns raw) i);
        auto.
      now apply fill_loop_get_other. }
  apply Forall2_columns; [apply fill_missing_length|].
  intros i r0 r H0 H. split; [now apply (Hkeep i)|].
  intros Hr. destruct (isna (rget m r0)) eqn:E; [reflexivity|].
  rewrite (Hkeep i r0 r H0 H E) in Hr. congruence.
Qed.

Lemma ffill_from_gap (xs : list float) :
  forall a ys1 y ys2,
    ffill_from a xs = ys1 ++ y :: ys2 -> isna y = true ->
    isna a = true /\ forall z, In z ys1 -> isna z = true.
Proof.
  induction xs as [|x xs IH]; intros a ys1 y ys2; simpl.
  - destruct ys1; discriminate.
  - destruct ys1 as [|z ys1]; simpl; intros [= E1 E2] Hy.
    + subst y. split; [|intros z []].
      destruct (isna x) eqn:Hx; congruence.
    + destruct (IH _ _ _ _ E2 Hy) as [Hv Hall].
      rewrite E1 in Hv.
      assert (Hz : isna z = true) by exact Hv.
      split; [|intros w [<-|Hw]; auto].
      rewrite <- E1 in Hz. destruct (isna x) eqn:Hx; congruence.
Qed.

(** X4. After the fill a location has no gap behind a value: if a key
    metric the file has is missing in a row of the filled frame, it is
    missing in every row of the same location that stands before it.  What
    stays missing is the head of a location's series, before its first
    value. *)
Theorem fill_leaves_only_leading_gaps (columns : list metric)
        (file : list record) (m : metric) (k : string)
        (g1 g2 : list row) (r : row) :
  In m key_metrics -> has m columns = true ->
  group_of k (df_countries (run columns file)) = g1 ++ r :: g2 ->
  isna (rget m r) = true ->
  forall o, In o g1 -> isna (rget m o) = true.
Proof.
  intros Hin Hhas E Hr o Ho.
  rewrite run_df_countries in E. unfold cleaned in E.
  assert (Hd : NoDup (map label (select_countries (read_csv file))))
    by apply select_countries_labels_unique, read_csv_labels_unique.
  assert (Hc := fill_missing_group_column columns _ m k Hd Hin Hhas).
  rewrite E, map_app in Hc. simpl in Hc. symmetry in Hc.
  destruct (ffill_from_gap _ _ _ _ _ Hc Hr) as [_ Hall].
  apply Hall. now apply in_map.
Qed.

(** On the example file India's total_deaths is missing in its second row,
    and so it is in the first. *)
Lemma fill_leaves_only_leading_gaps_witness :
  isna (rget total_deaths (mkRow 1 (sample "India" 1 (of_Z 5) nan nan)))
  = true.
Proof.
  apply (fill_leaves_only_leading_gaps all_columns kenya_gap total_deaths
           "India"
           [mkRow 1 (sample "India" 1 (of_Z 5) nan nan)] []
           (mkRow 4 (mkRecord "India" 2 (of_Z 5) (of_Z 3) nan nan nan nan
                              (of_Z 1000) nan))).
  - simpl. auto.
  - reflexivity.
  - vm_compute. reflexivity.
  - reflexivity.
  - now left.
Defined.

(** ** Locations are filled independently *)

Lemma group_of_idem (k : string) (rows : list row) :
  group_of k (group_of k rows) = group_of k rows.
Proof.
  unfold group_of. induction rows as [|r rows IH]; simpl; [reflexivity|].
  destruct (String.eqb (rloc r) k) eqn:E; simpl; [rewrite E, IH|]; auto.
Qed.

Lemma maps_agree {A B : Type} (f g : A -> B) (l : list A) :
  map f l = map g l -> forall x, In x l -> f x = g x.
Proof.
  induction l as [|a l IH]; simpl; intros E x Hx; [contradiction|].
  injection E as E1 E2. destruct Hx as [<-|Hx]; auto.
Qed.

Lemma fill_metric_group (columns : list metric) (rows : list row)
      (m : metric) (k : string) :
  NoDup (map label rows) ->
  group_of k (fill_metric columns rows m)
  = fill_metric columns (group_of k rows) m.
Proof.
  intros Hd. unfold fill_metric. destruct (has m columns); [|reflexivity].
  rewrite group_of_assign. unfold assign. apply map_ext_in.
  intros r Hr. f_equal.
  assert (Hg : NoDup (map label (group_of k rows)))
    by now apply filter_keeps_keys_unique.
  assert (H1 := transform_at_group m rows Hd k).
  assert (H2 := transform_at_group m (group_of k rows) Hg k).
  rewrite group_of_idem in H2. rewrite <- H2 in H1.
  rewrite !map_map in H1.
  exact (maps_agree _ _ _ H1 r Hr).
Qed.

Lemma fill_loop_group (columns ms : list metric) (k : string) :
  forall rows,
    NoDup (map label rows) ->
    group_of k (fold_left (fill_metric columns) ms rows)
    = fold_left (fill_metric columns) ms (group_of k rows).
Proof.
  induction ms as [|m ms IH]; intros rows Hd; simpl; [reflexivity|].
  rewrite IH by now rewrite fill_metric_labels.
  now rewrite fill_metric_group.
Qed.

(** X5. The fill never crosses locations, whatever the order of the file:
    the filled rows of a location are what the loop makes of that
    location's rows alone. *)
Theorem fill_is_per_location (columns : list metric) (file : list record)
        (k : string) :
  group_of k (df_countries (run columns file))
  = fill_missing columns (group_of k (selected file)).
Proof.
  rewrite run_df_countries. unfold cleaned, selected, fill_missing.
  apply fill_loop_group.
  apply select_countries_labels_unique, read_csv_labels_unique.
Qed.

(** ** Counting missing values *)

Lemma count_missing_le (m : metric) (raw filled : list row) :
  Forall2 (fun r0 r => isna (rget m r) = true -> isna (rget m r0) = true)
          raw filled ->
  (isnull_sum m filled <= isnull_sum m raw)%nat.
Proof.
  unfold isnull_sum. induction 1 as [|r0 r raw filled Hp H IH]; simpl;
    [lia|].
  destruct (isna (rget m r)) eqn:E; simpl.
  - rewrite (Hp eq_refl). simpl. lia.
  - destruct (isna (rget m r0)); simpl; lia.
Qed.

(** X6. The count of missing values of a column ([isnull().sum()]) never
    grows through the fill, for any metric; for a column the loop does not
    fill it stays the same. *)
Theorem fill_never_adds_missing (columns : list metric) (file : list record)
        (m : metric) :
  (isnull_sum m (df_countries (run columns file))
   <= isnull_sum m (selected file))%nat /\
  (~ In m key_metrics \/ has m columns = false ->
   isnull_sum m (df_countries (run columns file))
   = isnull_sum m (selected file)).
Proof.
  split.
  - apply count_missing_le.
    eapply Forall2_impl; [|apply fill_keeps_present_values].
    intros r0 r [_ H]. exact H.
  - intros H. rewrite run_df_countries. unfold cleaned, selected, isnull_sum.
    f_equal. f_equal. unfold fill_missing.
    destruct H as [H|H];
      [now apply fill_loop_get_other | now apply fill_loop_get_absent].
Qed.

Lemma fill_never_adds_missing_witness :
  isnull_sum population (df_countries (run all_columns kenya_gap))
  = isnull_sum population (selected kenya_gap).
Proof.
  apply (proj2 (fill_never_adds_missing all_columns kenya_gap population)).
  left. simpl. intuition discriminate.
Defined.

(** ** More on the snapshot *)

Lemma run_snap_locs (columns : list metric) (file : list record) (c : string) :
  In c (map rloc (snap (LATEST_DF (run columns file)))) <->
  In c (found_countries (df_countries (run columns file))).
Proof.
  rewrite run_snap, run_df_countries, found_countries_In.
  rewrite latest_df_locs by apply cleaned_labels_unique.
  apply group_keys_In.
Qed.

(** X7. The snapshot has one row for each found country and no other: its
    locations are the found countries, each once, in ascending order of
    name; so its length, which line 119 prints, is the number of found
    countries, at most the six configured. *)
Theorem snapshot_covers_found_countries (columns : list metric)
        (file : list record) :
  let a := run columns file in
  let locations := map rloc (snap (LATEST_DF a)) in
  (forall c, In c locations <-> In c (found_countries (df_countries a))) /\
  StronglySorted key_lt locations /\
  List.length (snap (LATEST_DF a))
  = List.length (found_countries (df_countries a)) /\
  (List.length (snap (LATEST_DF a)) <= 6)%nat.
Proof.
  intros a locations.
  assert (Hmem : forall c, In c locations <->
                           In c (found_countries (df_countries a)))
    by apply run_snap_locs.
  assert (Hs : StronglySorted key_lt locations).
  { subst locations a. rewrite run_snap.
    rewrite latest_df_locs by apply cleaned_labels_unique.
    apply group_keys_sorted. }
  assert (Hd : NoDup locations) by now apply sorted_keys_NoDup.
  assert (Hf : NoDup (found_countries (df_countries a)))
    by apply unique_from_NoDup.
  split; [exact Hmem|]. split; [exact Hs|]. split.
  - rewrite <- (length_map rloc). fold locations.
    apply Nat.le_antisymm; apply NoDup_incl_length; auto;
      intros c Hc; now apply Hmem.
  - rewrite <- (length_map rloc). fold locations.
    change 6%nat with (List.length countries_of_interest).
    apply NoDup_incl_length; [exact Hd|].
    intros c Hc. apply Hmem in Hc.
    now apply (found_and_missing_partition columns file c) in Hc.
Qed.

Lemma sorted_locs_group_keys (rows : list row) :
  StronglySorted key_lt (map rloc rows) -> group_keys rows = map rloc rows.
Proof.
  induction rows as [|r rows IH]; simpl; intros H; [reflexivity|].
  inversion H as [|? ? Hs Hf]; subst. rewrite (IH Hs).
  destruct (map rloc rows) as [|k ks]; [reflexivity|]. simpl.
  inversion Hf as [|? ? Hk _]; subst. unfold key_lt in Hk. now rewrite Hk.
Qed.

Lemma Forall2_same {A : Type} (l l' : list A) :
  Forall2 (fun x y => y = x) l l' -> l' = l.
Proof. induction 1; subst; reflexivity. Qed.

Lemma first_latest_single (x r : row) : first_latest [x] r -> r = x.
Proof.
  intros (g1 & g2 & E & _).
  destruct g1 as [|y g1]; simpl in E.
  - now injection E.
  - injection E as _ E. destruct g1; discriminate.
Qed.

(** A frame with one row per location, in ascending order of location, is
    its own snapshot. *)
Lemma latest_df_fixed (rows : list row) :
  NoDup (map label rows) -> StronglySorted key_lt (map rloc rows) ->
  latest_df rows = rows.
Proof.
  intros Hd Hs.
  assert (H := latest_df_spec rows Hd).
  rewrite (sorted_locs_group_keys rows Hs) in H.
  assert (Hu : NoDup (map rloc rows)) by now apply sorted_keys_NoDup.
  apply Forall2_same. apply Forall2_columns.
  - apply Forall2_length in H. now rewrite length_map in H.
  - intros i x r Hx Hr.
    assert (Hk : nth_error (map rloc rows) i = Some (rloc x))
      by now apply map_nth_error.
    assert (Hfl := Forall2_nth _ _ _ H i _ _ Hk Hr). simpl in Hfl.
    rewrite (group_of_unique (rloc x) rows x) in Hfl; auto.
    + now apply first_latest_single.
    + eapply nth_error_In; eauto.
Qed.

(** X8. Taking the snapshot of the snapshot gives the snapshot back: lines
    112-127 applied to their own result select every row of it, in the
    same order. *)
Theorem snapshot_idempotent (columns : list metric) (file : list record) :
  latest_df (snap (LATEST_DF (run columns file)))
  = snap (LATEST_DF (run columns file)).
Proof.
  rewrite run_snap.
  assert (Hd := cleaned_labels_unique columns file).
  apply latest_df_fixed.
  - now apply latest_df_labels_unique.
  - rewrite latest_df_locs by assumption. apply group_keys_sorted.
Qed.

Lemma ffill_from_last (xs : list float) :
  forall a ys y, ffill_from a xs = ys ++ [y] -> y = last_valid xs a.
Proof.
  induction xs as [|x xs IH]; intros a ys y; simpl.
  - destruct ys; discriminate.
  - destruct ys as [|z ys]; simpl; intros [= E1 E2].
    + destruct xs; [|discriminate]. now subst.
    + exact (IH _ _ _ E2).
Qed.

Lemma ascending_ext (rows : list row) :
  forall rows',
    map rloc rows' = map rloc rows -> map rdate rows' = map rdate rows ->
    ascending rows -> ascending rows'.
Proof.
  induction rows as [|r rows IH]; intros [|r' rows']; simpl;
    try discriminate; [constructor|].
  intros [= Ek Eks] [= Ed Eds] H.
  inversion H as [|? ? Hs Hf]; subst.
  constructor; [now apply IH|].
  rewrite Forall_forall in Hf |- *. intros o' Ho'.
  apply In_nth_error in Ho'. destruct Ho' as (i & Hi).
  assert (Hlt : (i < List.length rows)%nat).
  { rewrite <- (length_map rloc rows), <- Eks, length_map.
    apply nth_error_Some. congruence. }
  apply nth_error_Some in Hlt.
  destruct (nth_error rows i) as [o|] eqn:Ho; [|congruence].
  assert (Eo := nth_error_map_eq rloc rloc _ _ i o' o Eks Hi Ho).
  assert (Et := nth_error_map_eq rdate rdate _ _ i o' o Eds Hi Ho).
  specialize (Hf o (nth_error_In _ _ Ho)).
  unfold earlier in *. rewrite Ek, Ed, Eo, Et. exact Hf.
Qed.

(** X9. In a file whose records come, per location, in ascending date
    order, the snapshot shows for every key metric the file has the last
    value the location ever reported, and shows it missing only when the
    location reported none. *)
Theorem snapshot_shows_last_reported_value (columns : list metric)
        (file : list record) (m : metric) (r : row) :
  dates_ascending file = true ->
  In m key_metrics -> has m columns = true ->
  In r (snap (LATEST_DF (run columns file))) ->
  rget m r
  = last_valid (map (rget m) (group_of (rloc r) (selected file))) nan.
Proof.
  intros Hasc Hin Hhas Hr. rewrite run_snap in Hr.
  assert (Hd := cleaned_labels_unique columns file).
  destruct (latest_df_In _ _ Hd Hr) as [_ (g1 & g2 & E & H1 & H2)].
  assert (Hraw : NoDup (map label (selected file)))
    by apply select_countries_labels_unique, read_csv_labels_unique.
  (* the row with the greatest date is the last of its location *)
  assert (Ha : ascending (cleaned columns file)).
  { apply (ascending_ext (selected file)).
    - apply fill_loop_locs.
    - apply fill_loop_dates.
    - now apply select_countries_ascending. }
  assert (Hg : ascending (group_of (rloc r) (cleaned columns file)))
    by now apply ascending_filter.
  rewrite E in Hg.
  destruct (ascending_app _ _ Hg) as (_ & Hg' & _).
  assert (Hnil : g2 = []).
  { destruct g2 as [|o g2]; [reflexivity|]. exfalso.
    inversion Hg' as [|? ? _ Hf]; subst.
    inversion Hf as [|? ? Ho _]; subst.
    assert (Eo : rloc r = rloc o).
    { assert (Hi : In o (group_of (rloc r) (cleaned columns file)))
        by (rewrite E; apply in_or_app; right; right; now left).
      apply group_of_In in Hi. now destruct Hi. }
    specialize (Ho Eo). specialize (H2 o (or_introl eq_refl)). lia. }
  subst g2.
  assert (Hc := fill_missing_group_column columns (selected file) m (rloc r)
                  Hraw Hin Hhas).
  change (fill_missing columns (selected file))
    with (cleaned columns file) in Hc.
  rewrite E, map_app in Hc. simpl in Hc. symmetry in Hc.
  exact (ffill_from_last _ _ _ _ Hc).
Qed.

(** Kenya reports total_deaths 1, nothing, 30: the snapshot shows 30;
    India reports none: the snapshot shows it missing. *)
Lemma snapshot_shows_last_reported_value_witness :
  rget total_deaths
       (mkRow 4 (mkRecord "India" 2 (of_Z 5) (of_Z 3) nan nan nan nan
                          (of_Z 1000) nan))
  = last_valid (map (rget total_deaths)
                    (group_of "India" (selected kenya_gap))) nan.
Proof.
  apply (snapshot_shows_last_reported_value all_columns kenya_gap
           total_deaths
           (mkRow 4 (mkRecord "India" 2 (of_Z 5) (of_Z 3) nan nan nan nan
                              (of_Z 1000) nan))).
  - reflexivity.
  - simpl. auto.
  - reflexivity.
  - vm_compute. auto.
Defined.

(** ** When a quotient is missing *)

Lemma shr_1_nonneg (mrs : shr_record) :
  0 <= shr_m mrs -> 0 <= shr_m (shr_1 mrs).
Proof.
  destruct mrs as [m r s]. simpl.
  destruct m as [|p|p]; simpl; try lia; destruct p; simpl; lia.
Qed.

Lemma iter_shr_1_nonneg (p : positive) :
  forall mrs, 0 <= shr_m mrs -> 0 <= shr_m (iter_pos shr_1 p mrs).
Proof.
  induction p as [p IH|p IH|]; intros mrs H; simpl.
  - apply IH, IH. now apply shr_1_nonneg.
  - now apply IH, IH.
  - now apply shr_1_nonneg.
Qed.

Lemma shr_fexp_nonneg (m e : Z) (l : SpecFloat.location) :
  0 <= m -> 0 <= shr_m (fst (shr_fexp prec emax m e l)).
Proof.
  intros H. unfold shr_fexp, shr.
  assert (H0 : 0 <= shr_m (shr_record_of_loc m l))
    by (destruct l as [|[]]; simpl; exact H).
  destruct (fexp prec emax (Zdigits2 m + e) - e) as [|p|p]; simpl; auto.
  now apply iter_shr_1_nonneg.
Qed.

Lemma round_nearest_even_nonneg (m : Z) (l : SpecFloat.location) :
  0 <= m -> 0 <= round_nearest_even m l.
Proof.
  intros H. destruct l as [|[]]; simpl; try lia.
  destruct (Z.even m); lia.
Qed.

(** Rounding a non-negative mantissa never gives NaN. *)
Lemma binary_round_aux_notna (s : bool) (m e : Z) (l : SpecFloat.location) :
  0 <= m -> isna (binary_round_aux prec emax s m e l) = false.
Proof.
  intros H. unfold binary_round_aux.
  assert (H1 := shr_fexp_nonneg m e l H).
  destruct (shr_fexp prec emax m e l) as [mrs e']. simpl in H1.
  assert (H2 := shr_fexp_nonneg _ e' loc_Exact
                  (round_nearest_even_nonneg _ (loc_of_shr_record mrs) H1)).
  destruct (shr_fexp prec emax _ e' loc_Exact) as [mrs' e'']. simpl in H2.
  destruct (shr_m mrs') as [|p|p]; try reflexivity; [|lia].
  destruct (Z.leb e'' (emax - prec)); reflexivity.
Qed.

Lemma div_core_nonneg (m1 m2 : positive) (e1 e2 : Z) :
  0 <= fst (fst (SFdiv_core_binary prec emax (Zpos m1) e1 (Zpos m2) e2)).
Proof.
  unfold SFdiv_core_binary.
  set (s := _ - _ - _).
  set (m' := match s with Z0 => Zpos m1 | Zpos _ => Z.shiftl (Zpos m1) s
                     | Zneg _ => 0 end).
  assert (Hm : 0 <= m').
  { subst m'. destruct s; try lia. apply Z.shiftl_nonneg. lia. }
  assert (Hq := Z.div_pos m' (Zpos m2) Hm ltac:(lia)).
  unfold Z.div in Hq.
  destruct (Z.div_eucl m' (Zpos m2)) as [q r]. simpl. exact Hq.
Qed.

(** A quotient is missing exactly when an operand is, or both are infinite,
    or both are zero. *)
Lemma div_isna (x y : float) :
  isna (div x y) = true <->
  isna x = true \/ isna y = true \/
  (is_inf x = true /\ is_inf y = true) \/
  (is_zero x = true /\ is_zero y = true).
Proof.
  destruct x as [sx|sx| |sx mx ex], y as [sy|sy| |sy my ey];
    try destruct sx; try destruct sy;
    try (simpl; split;
         [ intros H; try discriminate H;
           first [ left; reflexivity
                 | right; left; reflexivity
                 | right; right; left; split; reflexivity
                 | right; right; right; split; reflexivity ]
         | intros [H|[H|[[H1 H2]|[H1 H2]]]];
           try discriminate; reflexivity ]);
    unfold div, SFdiv;
    (assert (Hq := div_core_nonneg mx my ex ey);
     destruct (SFdiv_core_binary prec emax (Zpos mx) ex (Zpos my) ey)
       as [[mz ez] lz]; simpl in Hq;
     rewrite (binary_round_aux_notna _ _ _ _ Hq);
     split; [discriminate|];
     intros [H|[H|[[H1 H2]|[H1 H2]]]]; discriminate).
Qed.

Lemma mul_hundred_isna (x : float) : isna (mul x hundred) = isna x.
Proof.
  rewrite hundred_eq. destruct x as [sx|sx| |sx mx ex]; try reflexivity.
  unfold mul, SFmul. apply binary_round_aux_notna. lia.
Qed.

Lemma positive_float (x : float) :
  ltb zero x = true -> isna x = false /\ is_zero x = false.
Proof.
  destruct x as [s|s| |s m e]; try destruct s; simpl; try discriminate; auto.
Qed.

(** X10. The death rate of the chart (lines 157-158) and the death rate of
    the insights (lines 270-275) agree wherever the chart has a value: the
    second is the first with 0 put where it is missing.  The chart's rate is
    missing exactly when total_cases is positive and total_deaths is missing,
    or both are infinite. *)
Theorem chart_rate_and_insight_rate (r : row) :
  rate_of total_deaths total_cases r = fillna zero (eda_death_rate r) /\
  (isna (eda_death_rate r) = true <->
   ltb zero (rget total_cases r) = true /\
   (isna (rget total_deaths r) = true \/
    (is_inf (rget total_deaths r) = true /\
     is_inf (rget total_cases r) = true))).
Proof.
  unfold rate_of, safe_rate, eda_death_rate.
  set (tc := rget total_cases r). set (td := rget total_deaths r).
  assert (Hg : ltb zero (fillna zero tc) = ltb zero tc).
  { unfold fillna. destruct tc; reflexivity. }
  rewrite Hg. destruct (ltb zero tc) eqn:G.
  - destruct (positive_float _ G) as [Hn Hz]. split.
    + unfold fillna at 2. destruct (isna td) eqn:Htd; [|reflexivity].
      destruct td; try discriminate.
      change (div S754_nan tc) with S754_nan. simpl.
      destruct tc as [s|s| |s m e]; try destruct s; try discriminate;
        reflexivity.
    + rewrite mul_hundred_isna, div_isna, Hn, Hz. split.
      * intros [H|[H|[H|[_ H]]]]; try discriminate; auto.
      * intros [_ [H|H]]; auto.
  - split; [reflexivity|]. simpl. split; [discriminate | intros [H _]].
    discriminate.
Qed.

(** ** The two vaccination rates *)

Lemma before_insights_vax (columns : list metric) (dfc : list row) :
  vax_percentage (before_insights columns dfc)
  = if has people_vaccinated columns && has population columns
    then match latest_df dfc with
         | [] => None
         | _ :: _ =>
             Some (rate_column people_vaccinated population (latest_df dfc))
         end
    else None.
Proof.
  unfold before_insights, vaccination_analysis, initial_latest. simpl.
  destruct (has people_vaccinated columns), (has population columns),
    (latest_df dfc); reflexivity.
Qed.

(** X11. The vaccination rate of section 5 ([vax_percentage]) and that of
    section 6 ([vax_rate]) never diverge: after a run the snapshot has both
    columns or neither, with the same values; it has them exactly when it
    has a row and the file has the people_vaccinated and population
    columns. *)
Theorem vaccination_rates_agree (columns : list metric) (file : list record) :
  let s := LATEST_DF (run columns file) in
  vax_percentage s = vax_rate s /\
  (vax_rate s <> None <->
   snap s <> [] /\ has people_vaccinated columns = true /\
   has population columns = true).
Proof.
  simpl. rewrite run_snap.
  assert (H := run_unfold columns file). simpl in H.
  assert (Ev := before_insights_vax columns (cleaned columns file)).
  assert (Es := before_insights_snap columns (cleaned columns file)).
  destruct (before_insights_rates columns (cleaned columns file)) as [_ Er].
  destruct (latest_df (cleaned columns file)) as [|r rows].
  - rewrite H. simpl. rewrite Ev, Er.
    split; [now destruct (_ && _)|]. split; [congruence|].
    intros [C _]. congruence.
  - destruct H as (o1 & o2 & o3 & o4 & o5 & -> & _). simpl.
    rewrite Ev, Es.
    destruct (has people_vaccinated columns), (has population columns);
      simpl; rewrite ?Er; (split; [reflexivity|]); split;
      try (intros C; congruence);
      try (intros _; repeat split; discriminate);
      try (intros [_ [C1 C2]]; discriminate).
Qed.

(** ** What section 6 prints *)

Lemma last_month_nonempty (dfc : list row) (md : Z) :
  max_date dfc = Some md -> last_month_df dfc md <> [].
Proof.
  intros H. destruct (max_date_spec dfc md H) as [(r & Hr & E) _].
  intros C.
  assert (Hin : In r (last_month_df dfc md)).
  { unfold last_month_df. apply filter_In. split; [exact Hr|].
    apply Z.leb_le. lia. }
  rewrite C in Hin. contradiction.
Qed.

Lemma avg_outcome_live (columns : list metric) (dfc : list row) (o : outcome) :
  dfc <> [] -> avg_outcome columns dfc o ->
  o = Skipped HighestAvgNewCases ColumnsMissing \/
  o = Skipped HighestAvgNewCases NoValidMean \/
  exists k v md,
    o = Insight HighestAvgNewCases k v /\ max_date dfc = Some md /\
    first_max (avg_new_cases dfc md) k v.
Proof.
  intros Hne. unfold avg_outcome.
  destruct (has new_cases columns); [|intros ->; now left].
  destruct (max_date dfc) as [md|] eqn:Emd.
  - assert (Hl := last_month_nonempty dfc md Emd).
    destruct (last_month_df dfc md); [congruence|].
    destruct (avg_new_cases dfc md) eqn:Ea; [intros ->; right; now left|].
    intros (k & v & -> & Hfm). right. right. exists k, v, md.
    split; [reflexivity|]. split; [reflexivity | now rewrite Ea].
  - destruct dfc; [congruence | discriminate].
Qed.

Lemma run_lines (columns : list metric) (file : list record) :
  let a := run columns file in
  (df_countries a = [] /\ snap (LATEST_DF a) = [] /\
   printed a = [NoInsights])
  \/
  (df_countries a <> [] /\ snap (LATEST_DF a) <> [] /\
   exists o1 o2 o3 o4 o5,
     printed a = [o1; o2; o3; o4; o5] /\
     raw_outcome HighestTotalCases total_cases columns
                 (snap (LATEST_DF a)) o1 /\
     rate_outcome HighestDeathRate total_deaths total_cases columns
                  (snap (LATEST_DF a)) o2 /\
     rate_outcome HighestVaccinationRate people_vaccinated population
                  columns (snap (LATEST_DF a)) o3 /\
     avg_outcome columns (df_countries a) o4 /\
     raw_outcome HighestDeathsPerMillion total_deaths_per_million columns
                 (snap (LATEST_DF a)) o5).
Proof.
  simpl. rewrite run_df_countries, run_snap.
  assert (Hd := cleaned_labels_unique columns file).
  assert (H := run_unfold columns file). simpl in H.
  assert (Hn := latest_df_nil _ Hd).
  destruct (latest_df (cleaned columns file)) as [|r rows] eqn:E.
  - left. rewrite H. simpl. split; [now apply Hn | auto].
  - right. split; [intros C; apply Hn in C; discriminate|].
    split; [discriminate|].
    destruct H as (o1 & o2 & o3 & o4 & o5 & -> & S).
    exists o1, o2, o3, o4, o5. simpl. auto.
Qed.

(** X12. Three of the diagnostics of section 6 are never printed: the
    "all values are NaN" lines 280 and 296 (a rate is never missing), and
    for the windowed average "no data in the last 30 days" and "max date
    not available" (lines 314, 316): when section 6 gets that far the frame
    has a row, so it has a greatest date, and the row that holds it lies in
    the window. *)
Theorem dead_diagnostics (columns : list metric) (file : list record)
        (q : query) :
  let out := printed (run columns file) in
  ~ In (Skipped q AllNaN) out /\
  ~ In (Skipped q NoDataInWindow) out /\
  ~ In (Skipped q MaxDateNotAvailable) out.
Proof.
  simpl.
  destruct (run_lines columns file)
    as [(_ & _ & ->)|(Hne & Hs & o1 & o2 & o3 & o4 & o5 & -> & S1 & S2 & S3
                      & S4 & S5)].
  - repeat split; intros [C|[]]; discriminate.
  - assert (A1 : o1 = Skipped HighestTotalCases MissingOrAllNaN \/
                 exists k v, o1 = Insight HighestTotalCases k v).
    { destruct (raw_outcome_cases _ _ _ _ _ S1) as [[-> _]|(k & v & -> & _)];
        eauto. }
    assert (A5 : o5 = Skipped HighestDeathsPerMillion MissingOrAllNaN \/
                 exists k v, o5 = Insight HighestDeathsPerMillion k v).
    { destruct (raw_outcome_cases _ _ _ _ _ S5) as [[-> _]|(k & v & -> & _)];
        eauto. }
    assert (A2 : o2 = Skipped HighestDeathRate ColumnsMissing \/
                 exists k v, o2 = Insight HighestDeathRate k v).
    { destruct (rate_outcome_cases _ _ _ _ _ _ Hs S2)
        as [[-> _]|(k & v & -> & _)]; eauto. }
    assert (A3 : o3 = Skipped HighestVaccinationRate ColumnsMissing \/
                 exists k v, o3 = Insight HighestVaccinationRate k v).
    { destruct (rate_outcome_cases _ _ _ _ _ _ Hs S3)
        as [[-> _]|(k & v & -> & _)]; eauto. }
    assert (A4 := avg_outcome_live _ _ _ Hne S4).
    destruct A1 as [->|(k1 & v1 & ->)];
      destruct A2 as [->|(k2 & v2 & ->)];
      destruct A3 as [->|(k3 & v3 & ->)];
      destruct A4 as [->|[->|(k4 & v4 & md & -> & _)]];
      destruct A5 as [->|(k5 & v5 & ->)];
      repeat split; intros C; simpl in C;
      repeat (destruct C as [C|C]; [discriminate|]); contradiction.
Qed.

(** X13. Section 6 prints the single line 327 exactly when the per-country
    frame is empty; otherwise it prints five lines, one for each query in
    the order of the script, each an insight or a diagnostic of its own
    query. *)
Theorem report_shape (columns : list metric) (file : list record) :
  let a := run columns file in
  (df_countries a = [] /\ printed a = [NoInsights])
  \/
  (df_countries a <> [] /\
   exists o1 o2 o3 o4 o5,
     printed a = [o1; o2; o3; o4; o5] /\
     about HighestTotalCases o1 /\ about HighestDeathRate o2 /\
     about HighestVaccinationRate o3 /\ about HighestAvgNewCases o4 /\
     about HighestDeathsPerMillion o5).
Proof.
  simpl.
  destruct (run_lines columns file)
    as [(E & _ & Ep)|(Hne & Hs & o1 & o2 & o3 & o4 & o5 & Ep & S1 & S2 & S3
                      & S4 & S5)].
  - left. auto.
  - right. split; [exact Hne|]. exists o1, o2, o3, o4, o5.
    split; [exact Ep|].
    repeat split;
      eauto using raw_outcome_about, rate_outcome_about, avg_outcome_about.
Qed.

(** ** The highest windowed average *)

Lemma first_max_rows_in {L : Type} (s : series L) (l : L) (v : float) :
  first_max s l v -> In (l, v) s.
Proof.
  intros (s1 & s2 & -> & _). apply in_or_app. right. now left.
Qed.

Lemma avg_new_cases_entry (dfc : list row) (md : Z) (k : string) (v : float) :
  max_date dfc = Some md ->
  (In (k, v) (avg_new_cases dfc md) <->
   v = mean (map (rget new_cases) (window_rows dfc md k)) /\
   isna v = false).
Proof.
  intros Hmd. destruct (max_date_spec dfc md Hmd) as [_ Hmax].
  now apply avg_new_cases_value.
Qed.

(** X14. When section 6 names a location for the highest average of new
    cases, the value it prints is the mean of that location's new_cases
    over the 30 days up to the greatest date of the whole frame, and the
    mean of no location over that window is greater.  The value is the
    compensated sum of the location's non-missing values in the window
    divided by their number; when they are integers whose running totals
    stay below 2^53 it is the float64 quotient of their exact sum by their
    number. *)
Theorem highest_average_is_window_mean (columns : list metric)
        (file : list record) (k : string) (v : float) :
  let a := run columns file in
  In (Insight HighestAvgNewCases k v) (printed a) ->
  exists md,
    max_date (df_countries a) = Some md /\
    v = mean (map (rget new_cases) (window_rows (df_countries a) md k)) /\
    isna v = false /\
    (forall k',
      ltb v (mean (map (rget new_cases)
                       (window_rows (df_countries a) md k'))) = false) /\
    (let valid :=
       filter notna
              (map (rget new_cases) (window_rows (df_countries a) md k)) in
     valid <> [] /\
     v = div (kahan_sum valid) (of_Z (Z.of_nat (List.length valid))) /\
     forall zs,
       valid = map of_Z zs -> sums_exact 0 zs = true ->
       v = div (of_Z (total zs)) (of_Z (Z.of_nat (List.length zs)))).
Proof.
  intros a Hin.
  destruct (query_fate columns file HighestAvgNewCases)
    as [(_ & Ha & _)|(k' & v' & _ & Huniq & _ & _ & Hfm)].
  { exfalso. apply Ha. now exists k, v. }
  destruct (Huniq k v Hin) as [-> ->]. fold a in Hfm. simpl in Hfm.
  destruct (max_date (df_countries a)) as [md|] eqn:Emd.
  - exists md. split; [reflexivity|].
    assert (Hentry := fun k v => avg_new_cases_entry (df_countries a) md k v
                                   Emd).
    assert (Hk := first_max_rows_in _ _ _ Hfm).
    apply Hentry in Hk. destruct Hk as [Ev Hv].
    split; [exact Ev|]. split; [exact Hv|]. split.
    + intros k''.
      set (w := mean (map (rget new_cases)
                          (window_rows (df_countries a) md k''))).
      destruct (isna w) eqn:Hw.
      * destruct w; try discriminate.
        destruct v' as [s|s| |s m e]; try destruct s; reflexivity.
      * assert (Hin' : In (k'', w) (avg_new_cases (df_countries a) md))
          by (apply Hentry; auto).
        destruct Hfm as (s1 & s2 & E & _ & H1 & H2).
        rewrite E in Hin'. apply in_app_or in Hin'.
        destruct Hin' as [Hi|[Hi|Hi]].
        -- destruct (H1 _ Hi) as [C|C]; simpl in C; [congruence|].
           now apply ltb_asym.
        -- injection Hi as _ <-. apply ltb_irrefl.
        -- destruct (H2 _ Hi) as [C|C]; simpl in C; [congruence | exact C].
    + cbv zeta. rewrite Ev in Hv.
      destruct (mean_formula _ Hv) as [Hne Hf].
      split; [exact Hne|]. split; [now rewrite Ev|].
      intros zs Ez Hz. rewrite Ev.
      apply mean_integers; [exact Ez | | exact Hz].
      intros ->. now apply Hne.
  - destruct Hfm as (s1 & s2 & E & _). destruct s1; discriminate.
Qed.

(** On the example file Kenya is named, with the mean of 10, 20 and 20. *)
Lemma highest_average_is_window_mean_witness :
  exists md,
    max_date (df_countries (run all_columns kenya_gap)) = Some md /\
    S754_finite false 4691249611844267 (-48)
    = mean (map (rget new_cases)
                (window_rows (df_countries (run all_columns kenya_gap)) md
                             "Kenya")) /\
    isna (S754_finite false 4691249611844267 (-48)) = false /\
    (forall k',
      ltb (S754_finite false 4691249611844267 (-48))
          (mean (map (rget new_cases)
                     (window_rows (df_countries (run all_columns kenya_gap))
                                  md k'))) = false) /\
    (let valid :=
       filter notna
              (map (rget new_cases)
                   (window_rows (df_countries (run all_columns kenya_gap)) md
                                "Kenya")) in
     valid <> [] /\
     S754_finite false 4691249611844267 (-48)
     = div (kahan_sum valid) (of_Z (Z.of_nat (List.length valid))) /\
     forall zs,
       valid = map of_Z zs -> sums_exact 0 zs = true ->
       S754_finite false 4691249611844267 (-48)
       = div (of_Z (total zs)) (of_Z (Z.of_nat (List.length zs)))).
Proof.
  apply (highest_average_is_window_mean all_columns kenya_gap "Kenya"
           (S754_finite false 4691249611844267 (-48))).
  vm_compute. auto 6.
Defined.

(** ** The pie chart *)

Lemma py_min_le (a b : float) : ltb b (py_min a b) = false.
Proof.
  unfold py_min. destruct (ltb b a) eqn:E; [apply ltb_irrefl | exact E].
Qed.

Lemma py_max_zero (x : float) :
  isna x = false -> isna (py_max zero x) = false /\
                    ltb (py_max zero x) zero = false.
Proof.
  intros Hx. unfold py_max. destruct (ltb zero x) eqn:E.
  - split; [exact Hx | now apply ltb_asym].
  - split; reflexivity.
Qed.

Lemma fleb_zero (x : float) :
  fleb zero x = true -> isna x = false /\ ltb x zero = false.
Proof.
  destruct x as [s|s| |s m e]; try destruct s; simpl; try discriminate; auto.
Qed.

(** X15. Whenever section 5 draws the pie chart, the file has the
    people_vaccinated and population columns, the two slices are numbers and
    neither is negative, and the vaccinated slice is not greater than the
    population of the United States row it was taken from: a count of
    vaccinated people above the population is cut down to the population,
    a negative one is raised to 0. *)
Theorem pie_chart_slices (columns : list metric) (s : latest)
        (vaccinated unvaccinated : float) :
  vaccination_pie columns s = Some (PieChart vaccinated unvaccinated) ->
  has people_vaccinated columns = true /\ has population columns = true /\
  exists us,
    In us (snap s) /\ rloc us = country_for_pie /\
    ltb zero (rget population us) = true /\
    isna vaccinated = false /\ ltb vaccinated zero = false /\
    ltb (rget population us) vaccinated = false /\
    unvaccinated = fsub (rget population us) vaccinated /\
    isna unvaccinated = false /\ ltb unvaccinated zero = false.
Proof.
  unfold vaccination_pie.
  destruct (has people_vaccinated columns); [|discriminate].
  destruct (snap s) as [|r0 rows0] eqn:Esnap; [discriminate|].
  rewrite <- Esnap. clear Esnap r0 rows0.
  destruct (has population columns); [|discriminate]. simpl.
  intros [= Hpie]. split; [reflexivity|]. split; [reflexivity|].
  revert Hpie. generalize (snap s) as snapshot. intros snapshot.
  unfold pie_chart.
  destruct (filter (fun r => String.eqb (rloc r) country_for_pie) snapshot)
    as [|us rest] eqn:E; [discriminate|].
  assert (Hus : In us snapshot /\ rloc us = country_for_pie).
  { assert (H : In us (us :: rest)) by now left.
    rewrite <- E in H. apply filter_In in H.
    destruct H as [H1 H2]. apply String.eqb_eq in H2. auto. }
  destruct Hus as [Hin Hloc].
  destruct (notna (rget population us) && notna (rget people_vaccinated us)
            && ltb zero (rget population us)) eqn:G; [|discriminate].
  apply andb_true_iff in G. destruct G as [G Hpos].
  apply andb_true_iff in G. destruct G as [Hp Hv].
  unfold notna in Hp, Hv. apply negb_true_iff in Hp, Hv.
  set (pop := rget population us) in *.
  set (pv := rget people_vaccinated us) in *.
  destruct (fleb zero (fsub pop (py_max zero (py_min pv pop)))) eqn:L;
    [|discriminate].
  intros [= <- <-]. exists us.
  assert (Hmin : isna (py_min pv pop) = false)
    by (unfold py_min; now destruct (ltb pop pv)).
  destruct (py_max_zero _ Hmin) as [Hn Hneg].
  destruct (fleb_zero _ L) as [Hun Huneg].
  repeat split; auto.
  unfold py_max. destruct (ltb zero (py_min pv pop)).
  - apply py_min_le.
  - now apply ltb_asym.
Qed.

(** People vaccinated above the population: the slice is the population. *)
Lemma pie_chart_slices_witness :
  has people_vaccinated all_columns = true /\
  has population all_columns = true /\
  exists us,
    In us [mkRow 0 (mkRecord "United States" 1 nan nan nan nan (of_Z 120)
                             nan (of_Z 100) nan)] /\
    rloc us = country_for_pie /\
    ltb zero (rget population us) = true /\
    isna (of_Z 100) = false /\ ltb (of_Z 100) zero = false /\
    ltb (rget population us) (of_Z 100) = false /\
    zero = fsub (rget population us) (of_Z 100) /\
    isna zero = false /\ ltb zero zero = false.
Proof.
  apply (pie_chart_slices all_columns
           (mkLatest
              [mkRow 0 (mkRecord "United States" 1 nan nan nan nan (of_Z 120)
                                 nan (of_Z 100) nan)]
              None None None)
           (of_Z 100) zero).
  vm_compute. reflexivity.
Defined.
